(** * MedleyDB activation-confidence annotations

    A shallow embedding of [medleydb/annotate/activation_conf.py]
    ([create_activation_annotation], [track_activation], [hwr]) together
    with the parts of numpy, scipy and librosa those functions call.

    Conventions of the embedding.
    - Samples and matrix entries are real numbers ([R]), every arithmetic
      operation being the exact one.  Two places where floating point
      differs in kind are modelled apart: [Np.power_half] ([x ** 0.5] is
      [nan] on a negative sample) and [Binary64.confidence] (the logistic
      map in binary64, where it reaches 1.0).
    - A Python exception is a value of [exn]; code that may raise returns
      [result A = exn + A] and is sequenced with [x <- c ;; k].
    - A numpy array carries its shape: [Np.A0] (a scalar), [Np.A1]
      (one axis), [Np.A2] (two axes, a list of rows) or [Np.AO] (one axis
      of objects, what [np.array] makes of rows of unequal lengths).
    - [mtrack.stems] is a Python dict, whose iteration order is its
      insertion order: it is an association list from stem index to the
      mono 44100 Hz waveform that [librosa.load] yields for the stem's
      [audio_path].
    - [scipy.signal.filtfilt]'s numerical kernel (the forward-backward
      Butterworth filtering of one row) is a parameter of the development;
      its argument checks are modelled. *)

From Stdlib Require Import Reals Lra Lia List Arith PeanoNat Bool.
From Stdlib Require Import Permutation.
From Stdlib Require Floats.PrimFloat.
From Stdlib Require String Ascii DecimalString DecimalNat DecimalFacts.
Import ListNotations.
Import String.StringSyntax Ascii.AsciiSyntax.
Delimit Scope string_scope with string.
Delimit Scope char_scope with char.
Open Scope R_scope.

(** ** Exceptions and the error monad *)

Inductive exn : Type :=
| ZeroDivisionError   (* int / int with a zero divisor *)
| ParameterError      (* librosa.util.exceptions.ParameterError *)
| ValueError          (* numpy and scipy argument errors *)
| IndexError          (* indexing past the number of axes *)
| UnboundLocalError.  (* a local variable read before assignment *)

Definition result (A : Type) : Type := (exn + A)%type.

Definition ret {A : Type} (a : A) : result A := inr a.
Definition raise {A : Type} (e : exn) : result A := inl e.

Definition bind {A B : Type} (c : result A) (k : A -> result B) : result B :=
  match c with
  | inl e => inl e
  | inr a => k a
  end.

Notation "x <- c ;; k" := (bind c (fun x => k))
  (at level 61, c at next level, right associativity).
Notation "' pat <- c ;; k" := (bind c (fun x => match x with pat => k end))
  (at level 61, pat pattern, c at next level, right associativity).

(** ** Elementary list and real helpers *)

Definition Rltb (x y : R) : bool := if Rlt_dec x y then true else false.

Definition Rsum (l : list R) : R := fold_right Rplus 0 l.

(** [zip_with f] stops at the shorter list, as Python's [zip]. *)
Fixpoint zip_with {A B C : Type} (f : A -> B -> C) (l : list A) (m : list B)
  : list C :=
  match l, m with
  | a :: l', b :: m' => f a b :: zip_with f l' m'
  | _, _ => []
  end.

(** Python's [l[1:-1]]. *)
Definition slice_1_m1 {A : Type} (l : list A) : list A := removelast (tl l).

(** [ceil_div a b] is [int(np.ceil(a / b))] for a positive [b]. *)
Definition ceil_div (a b : nat) : nat :=
  if (a mod b =? 0)%nat then (a / b)%nat else S (a / b).

(** ** numpy *)

Module Np.

Inductive ndarray : Type :=
| A0 (x : R)                   (* shape ()      *)
| A1 (v : list R)              (* shape (n,)    *)
| A2 (rows : list (list R))    (* shape (n, m)  *)
| AO (elems : list (list R)).  (* shape (n,), dtype object: one-axis
                                  arrays of unequal lengths *)

(** [np.lib.pad(wave, pad_width=(before, 0), mode='constant',
    constant_values=0)] on one axis. *)
Definition pad_before (before : nat) (wave : list R) : list R :=
  repeat 0 before ++ wave.

(** [np.mean] of one row. *)
Definition mean (row : list R) : R := Rsum row / INR (length row).

(** [rows * v] for [rows] of shape (n, m) and [v] of shape (k,):
    broadcasting needs [m = k], [k = 1] or [m = 1]. *)
Definition mul_rows (m : nat) (rows : list (list R)) (v : list R)
  : result (list (list R)) :=
  let k := length v in
  if (m =? k)%nat then ret (map (fun r => zip_with Rmult r v) rows)
  else if (k =? 1)%nat then
    ret (map (fun r => map (fun x => x * hd 0 v) r) rows)
  else if (m =? 1)%nat then
    ret (map (fun r => map (fun w => hd 0 r * w) v) rows)
  else raise ValueError.

Definition ncols (rows : list (list R)) : nat := length (hd [] rows).

Definition column (j : nat) (rows : list (list R)) : list R :=
  map (fun r => nth j r 0) rows.

(** [np.array(H)] for a Python list [H] of one-axis arrays: the empty
    list gives shape (0,), rows of one length give two axes, and rows
    of unequal lengths give a one-axis array of objects (the numpy that
    goes with the librosa this code calls, before 1.24: no exception is
    raised here). *)
Definition array (H : list (list R)) : result ndarray :=
  match H with
  | [] => ret (A1 [])
  | r :: rest =>
      if forallb (fun r' => (length r' =? length r)%nat) rest
      then ret (A2 H)
      else ret (AO H)
  end.

(** [a + b] for one-axis arrays: the lengths must be equal, or one of
    them 1. *)
Definition add_broadcast (a b : list R) : result (list R) :=
  if (length a =? length b)%nat then ret (zip_with Rplus a b)
  else if (length a =? 1)%nat then ret (List.map (fun y => hd 0 a + y) b)
  else if (length b =? 1)%nat then ret (List.map (fun x => x + hd 0 b) a)
  else raise ValueError.   (* operands could not be broadcast together *)

(** The sum of the elements of an array of objects, from left to right. *)
Fixpoint sum_objects (acc : list R) (elems : list (list R))
  : result (list R) :=
  match elems with
  | [] => ret acc
  | r :: elems' =>
      acc' <- add_broadcast acc r ;;
      sum_objects acc' elems'
  end.

(** [np.sum(a, axis=0)]. *)
Definition sum0 (a : ndarray) : result ndarray :=
  match a with
  | A0 _ => raise ValueError   (* AxisError, a ValueError *)
  | A1 v => ret (A0 (Rsum v))
  | A2 rows =>
      ret (A1 (map (fun j => Rsum (column j rows)) (seq 0 (ncols rows))))
  | AO [] => ret (A0 0)
  | AO (r :: elems) => v <- sum_objects r elems ;; ret (A1 v)
  end.

Definition max_list (v : list R) : result R :=
  match v with
  | [] => raise ValueError   (* zero-size array to reduction operation *)
  | x :: v' => ret (fold_left Rmax v' x)
  end.

(** [np.max(a)]. *)
Definition max (a : ndarray) : result R :=
  match a with
  | A0 x => ret x
  | A1 v => max_list v
  | A2 rows => max_list (concat rows)
  | AO _ => raise ValueError   (* arrays cannot be compared for a maximum *)
  end.


(** An element-wise operation with scalars. *)
Definition map (f : R -> R) (a : ndarray) : ndarray :=
  match a with
  | A0 x => A0 (f x)
  | A1 v => A1 (List.map f v)
  | A2 rows => A2 (List.map (List.map f) rows)
  | AO elems => AO (List.map (List.map f) elems)
  end.

(** [H[:, E0 < c] = 0.0].  A boolean vector selects columns and must be
    as long as the second axis; a boolean scalar indexes no axis and
    selects everything or nothing. *)
Definition zero_where_lt (H E0 : ndarray) (c : R) : result ndarray :=
  match H, E0 with
  | A2 rows, A1 e =>
      if (length e =? ncols rows)%nat
      then ret (A2 (List.map
                      (fun r => zip_with
                                  (fun x ej => if Rltb ej c then 0 else x)
                                  r e)
                      rows))
      else raise IndexError
  | A2 rows, A0 e =>
      ret (if Rltb e c then A2 (List.map (List.map (fun _ => 0)) rows)
           else H)
  | A1 v, A0 e =>
      ret (if Rltb e c then A1 (List.map (fun _ => 0) v) else H)
  | AO elems, A0 e =>
      ret (if Rltb e c then A1 (List.map (fun _ => 0) elems) else H)
  | _, _ => raise IndexError   (* too many indices for array *)
  end.

(** [a.shape[1]]. *)
Definition shape1 (a : ndarray) : result nat :=
  match a with
  | A2 rows => ret (ncols rows)
  | _ => raise IndexError   (* tuple index out of range *)
  end.

(** [np.vstack((v, a))] for a one-axis [v]. *)
Definition vstack (v : list R) (a : ndarray) : result ndarray :=
  let stack rows :=
    if forallb (fun r => (length r =? length v)%nat) rows
    then ret (A2 (v :: rows))
    else raise ValueError in
  match a with
  | A0 x => stack [[x]]
  | A1 w => stack [w]
  | A2 rows => stack rows
  | AO _ => raise ValueError   (* numbers and objects are not stacked *)
  end.

(** [a.T]. *)
Definition transpose (a : ndarray) : ndarray :=
  match a with
  | A2 rows => A2 (List.map (fun j => column j rows) (seq 0 (ncols rows)))
  | _ => a
  end.

End Np.

(** ** scipy.signal *)

Module Scipy.

(** [scipy.signal.windows.hann(M)], symmetric by default:
    w(n) = 0.5 - 0.5 cos(2 pi n / (M - 1)) for 0 <= n < M, and a window
    of ones when M <= 1. *)
Definition hann_sample (M n : nat) : R :=
  0.5 - 0.5 * cos (2 * PI * INR n / INR (M - 1)).

Definition hann (M : nat) : list R :=
  if (M <=? 1)%nat then repeat 1 M
  else List.map (hann_sample M) (seq 0 M).

(** [hann(M, sym=False)], the periodic window: the symmetric window of
    length M + 1 without its last sample. *)
Definition hann_periodic (M : nat) : list R :=
  if (M <=? 1)%nat then repeat 1 M
  else removelast (hann (M + 1)).

(** [scipy.signal.butter(2, Wn, 'low')] rejects a digital critical
    frequency outside (0, 1); the designed coefficients are determined
    by [Wn], which stands for them. *)
Definition butter (Wn : R) : result R :=
  if Rltb 0 Wn && Rltb Wn 1 then ret Wn else raise ValueError.

(** [scipy.signal.filtfilt(b, a, x, axis=1)] for a second-order filter:
    the default pad length is 3 * max(len(a), len(b)) = 9 and the
    filtered axis must be longer.  [kernel Wn row t] is sample [t] of
    the forward-backward filtered [row]; the result has the shape of
    [x]. *)
Definition filtfilt (kernel : R -> list R -> nat -> R) (Wn : R)
           (x : Np.ndarray) : result Np.ndarray :=
  match x with
  | Np.A2 rows =>
      if (Np.ncols rows <=? 9)%nat then raise ValueError
      else ret (Np.A2 (List.map
                         (fun r => List.map (kernel Wn r)
                                            (seq 0 (length r)))
                         rows))
  | _ => raise IndexError   (* x.shape[1]: tuple index out of range *)
  end.

End Scipy.

(** ** librosa *)

Module Librosa.

(** [librosa.util.fix_length(data, size)]: truncate or zero-pad to
    exactly [size] samples. *)
Definition fix_length (data : list R) (size : nat) : list R :=
  let n := length data in
  if (size <? n)%nat then firstn size data
  else if (n <? size)%nat then data ++ repeat 0 (size - n)
  else data.

(** [librosa.util.frame(x, frame_length, hop_length)].  The result is
    listed frame by frame: element [i] is column [i] of the
    (frame_length, n_frames) array that librosa returns. *)
Definition frame (x : list R) (frame_length hop_length : nat)
  : result (list (list R)) :=
  if (length x <? frame_length)%nat then raise ParameterError
  else if (hop_length <? 1)%nat then raise ParameterError
  else
    let n_frames := (1 + (length x - frame_length) / hop_length)%nat in
    ret (map (fun i => firstn frame_length (skipn (i * hop_length) x))
             (seq 0 n_frames)).

(** The sample rate [librosa.load(path, sr=44100, mono=True)] returns. *)
Definition load_rate : R := 44100.

(** [librosa.core.frames_to_time(frames, sr, hop_length)]. *)
Definition frames_to_time (frames : list nat) (sr : R) (hop_length : nat)
  : list R :=
  map (fun f => INR (f * hop_length) / sr) frames.

End Librosa.

(** ** The envelope follower *)

(** [hwr]: half-wave rectification. *)
Definition hwr (x : R) : R := (x + Rabs x) / 2.

(** [track_activation(wave, win_len, win)].  [x ** 0.5] is applied to
    rectified samples only, which are never negative, so that
    [Np.power_half] is the square root there and no [nan] arises. *)
Definition track_activation (wave : list R) (win_len : nat) (win : list R)
  : result (list R) :=
  let hop_len := (win_len / 2)%nat in
  let wave := Np.pad_before (win_len - hop_len) wave in
  (* post padding *)
  if (win_len =? 0)%nat then raise ZeroDivisionError
  else
    let wave :=
      Librosa.fix_length wave (win_len * ceil_div (length wave) win_len) in
    (* cut into frames *)
    wavmat <- Librosa.frame wave win_len hop_len ;;
    (* envelope follower *)
    let wavmat := map (map (fun x => sqrt (hwr x))) wavmat in
    weighted <- Np.mul_rows win_len wavmat win ;;
    ret (map Np.mean weighted).

(** ** The annotation pipeline *)

Definition mtrack_stems : Type := list (nat * list R).

(** The loop over [mtrack.stems.items()]: [H] and [index_list] grow by
    one entry per stem, in iteration order; [rate] is bound by the first
    iteration. *)
Fixpoint stems_loop (stems : mtrack_stems) (win_len : nat) (win : list R)
         (H : list (list R)) (index_list : list nat) (rate : option R)
  : result (list (list R) * list nat * option R) :=
  match stems with
  | [] => ret (H, index_list, rate)
  | (stem_idx, audio) :: stems' =>
      env <- track_activation audio win_len win ;;
      stems_loop stems' win_len win (H ++ [env]) (index_list ++ [stem_idx])
                 (Some Librosa.load_rate)
  end.

(** MATLAB equivalent to [hanning(win_len)]. *)
Definition hanning (win_len : nat) : list R :=
  slice_1_m1 (Scipy.hann (win_len + 2)).

(** Normalization to overall energy and number of sources, followed by
    the binary thresholding for low overall energy events. *)
Definition normalization (n_stems : nat) (H : Np.ndarray)
  : result Np.ndarray :=
  E0 <- Np.sum0 H ;;
  m <- Np.max E0 ;;
  let H := Np.map (fun h => INR n_stems * h / m) H in
  Np.zero_where_lt H E0 0.01.

(** The logistic function that semi-binarizes the output. *)
Definition confidence (theta h : R) : R :=
  1 - 1 / (1 + exp (20 * (h - theta))).

(** The same line in binary64, the arithmetic numpy carries it out in:
    every operation rounds to the nearest double.  [np_exp] stands for
    [np.exp]; [exp_table] lists its values at the arguments 0, 40 and 60
    (the doubles nearest to 1, e^40 and e^60). *)
Module Binary64.
Import PrimFloat.
Local Open Scope float_scope.

Definition logistic (e : float) : float := 1 - 1 / (1 + e).

Definition confidence (np_exp : float -> float) (theta h : float) : float :=
  logistic (np_exp (20 * (h - theta))).


End Binary64.

(** [H_out = np.zeros(H.shape); H_out[H > 0.5] = 1], element by element. *)
Definition binarize_value (h : R) : R := if Rltb 0.5 h then 1 else 0.

Definition unbound {A : Type} (v : option A) : result A :=
  match v with
  | Some a => ret a
  | None => raise UnboundLocalError
  end.

Section Pipeline.

(** The numerical kernel of [filtfilt] for the filter [butter] designs. *)
Variable lowpass : R -> list R -> nat -> R.

Definition create_activation_annotation
           (stems : mtrack_stems) (win_len : nat)
           (lpf_cutoff theta : R) (binarize : bool)
  : result (Np.ndarray * list nat) :=
  let win := hanning win_len in
  '(H, index_list, rate) <- stems_loop stems win_len win [] [] None ;;
  (* list to numpy array *)
  H <- Np.array H ;;
  H <- normalization (length stems) H ;;
  (* LP filter *)
  ba <- Scipy.butter lpf_cutoff ;;
  H <- Scipy.filtfilt lowpass ba H ;;
  (* confidence value *)
  let H := Np.map (confidence theta) H in
  (* binarize output *)
  let H_out := if binarize then Np.map binarize_value H else H in
  (* add time column *)
  n_frames <- Np.shape1 H ;;
  rate <- unbound rate ;;
  let time :=
    Librosa.frames_to_time (seq 0 n_frames) rate (win_len / 2) in
  (* stack time column to matrix *)
  H_out <- Np.vstack time H_out ;;
  ret (Np.transpose H_out, index_list).

End Pipeline.

(** ** Definitions used in the statements *)

(** The window as the specification words it (the one definition below
    that follows the specification rather than the code): the samples of a Hann
    window of length [win_len + 2] at positions 1 .. win_len, i.e. without
    its first (position 0) and last (position win_len + 1) sample. *)
Definition spec_trimmed_hann (win_len : nat) : list R :=
  map (fun k => Scipy.hann_sample (win_len + 2) (S k)) (seq 0 win_len).

(** Entry (i, j) of a matrix given by its rows. *)
Definition entry (rows : list (list R)) (i j : nat) : R :=
  nth j (nth i rows []) 0.

(** The per-frame cross-stem sum [E0] of a stacked envelope matrix. *)
Definition E0_of (rows : list (list R)) : list R :=
  map (fun j => Rsum (Np.column j rows)) (seq 0 (Np.ncols rows)).

(** The zero-padded waveform that [track_activation] cuts into frames,
    the number of frames it yields and the envelope value of one frame. *)
Definition padded_wave (wave : list R) (win_len : nat) : list R :=
  let w := Np.pad_before (win_len - win_len / 2) wave in
  Librosa.fix_length w (win_len * ceil_div (length w) win_len).

Definition n_frames_of (wave_len win_len : nat) : nat :=
  let n := (win_len - win_len / 2 + wave_len)%nat in
  (1 + (win_len * ceil_div n win_len - win_len) / (win_len / 2))%nat.

Definition frame_envelope (win frame : list R) : R :=
  Np.mean (zip_with Rmult (map (fun x => sqrt (hwr x)) frame) win).

(** The envelope [track_activation] yields for a window of [win_len]
    samples. *)
Definition envelope_of (wave : list R) (win_len : nat) (win : list R)
  : list R :=
  map (fun i => frame_envelope win
                  (firstn win_len
                     (skipn (i * (win_len / 2)) (padded_wave wave win_len))))
      (seq 0 (n_frames_of (length wave) win_len)).

(** The maximum of a non-empty list, as [Np.max_list] folds it. *)
Definition max_of (l : list R) : R := fold_left Rmax (tl l) (hd 0 l).

(** Row-wise form of [normalization] on a two-axis array. *)
Definition normalized_rows (n_stems : nat) (rows : list (list R))
  : list (list R) :=
  map (fun r =>
         zip_with (fun x ej => if Rltb ej 0.01 then 0 else x)
                  (map (fun h => INR n_stems * h / max_of (E0_of rows)) r)
                  (E0_of rows))
      rows.

(** The exception that ends the normalization of envelopes of unequal
    lengths. *)
Definition ragged_exception (elems : list (list R)) : exn :=
  match elems with
  | [] => IndexError
  | r :: elems' =>
      match Np.sum_objects r elems' with
      | inl e => e
      | inr [] => ValueError
      | inr (_ :: _) => IndexError
      end
  end.

(** The binding of [rate] after the loop over [stems]. *)
Definition rate_after (stems : mtrack_stems) (rate : option R) : option R :=
  match stems with
  | [] => rate
  | _ :: _ => Some Librosa.load_rate
  end.

(** The envelope matrix of a multitrack, one row per stem in iteration
    order, and the matrix the pipeline returns when nothing raises. *)
Definition envelope_rows (stems : mtrack_stems) (win_len : nat)
  : list (list R) :=
  map (fun st => envelope_of (snd st) win_len (hanning win_len)) stems.

Definition smoothed_rows (lowpass : R -> list R -> nat -> R) (lpf_cutoff : R)
           (rows : list (list R)) : list (list R) :=
  map (fun r => map (lowpass lpf_cutoff r) (seq 0 (length r))) rows.

Definition output_value (theta : R) (binarize : bool) (h : R) : R :=
  if binarize then binarize_value (confidence theta h) else confidence theta h.

Definition time_column (n_frames win_len : nat) : list R :=
  Librosa.frames_to_time (seq 0 n_frames) Librosa.load_rate (win_len / 2).

Definition activation_matrix (lowpass : R -> list R -> nat -> R)
           (stems : mtrack_stems) (win_len : nat) (lpf_cutoff theta : R)
           (binarize : bool) : Np.ndarray :=
  let H := normalized_rows (length stems) (envelope_rows stems win_len) in
  let H := smoothed_rows lowpass lpf_cutoff H in
  Np.transpose
    (Np.A2 (time_column (Np.ncols H) win_len
              :: map (map (output_value theta binarize)) H)).

(** The row of one stem in the returned confidence matrix, and all of
    them. *)
Definition stem_row (lowpass : R -> list R -> nat -> R)
           (stems : mtrack_stems) (win_len : nat) (lpf_cutoff theta : R)
           (binarize : bool) (st : nat * list R) : list R :=
  let E0 := E0_of (envelope_rows stems win_len) in
  let normalized :=
    zip_with (fun x ej => if Rltb ej 0.01 then 0 else x)
             (map (fun h => INR (length stems) * h / max_of E0)
                  (envelope_of (snd st) win_len (hanning win_len)))
             E0 in
  map (output_value theta binarize)
      (map (lowpass lpf_cutoff normalized) (seq 0 (length normalized))).

Definition stem_rows (lowpass : R -> list R -> nat -> R)
           (stems : mtrack_stems) (win_len : nat) (lpf_cutoff theta : R)
           (binarize : bool) : list (list R) :=
  map (map (output_value theta binarize))
      (smoothed_rows lowpass lpf_cutoff
         (normalized_rows (length stems) (envelope_rows stems win_len))).

(** A list of zeros: a silent waveform, envelope or frame sum. *)
Definition silent (l : list R) : Prop := Forall (fun x => x = 0) l.

(** Ascending order of stem indices. *)
Fixpoint ascendingb (l : list nat) : bool :=
  match l with
  | a :: l' =>
      match l' with
      | b :: _ => (a <? b)%nat && ascendingb l'
      | [] => true
      end
  | [] => true
  end.

(** A kernel that leaves every row as it is; it stands for the filter in
    the concrete runs below. *)
Definition identity_kernel : R -> list R -> nat -> R :=
  fun _ r t => nth t r 0.

(** ** Further definitions *)

(** The effect of a function on the value a computation returns. *)
Definition result_map {A B : Type} (f : A -> B) (c : result A) : result B :=
  match c with
  | inl e => inl e
  | inr a => inr (f a)
  end.

(** Whether all rows have the length of the first one. *)
Definition rectangularb (rows : list (list R)) : bool :=
  forallb (fun r => (length r =? Np.ncols rows)%nat) rows.

(** The matrix whose row [f] is the time stamp of frame [f] followed by
    the entries [column st f] of the stems [st] of [order]. *)
Definition ordered_matrix (column : nat * list R -> nat -> R)
           (order : mtrack_stems) (win_len F : nat) : Np.ndarray :=
  Np.A2 (map (fun f => INR (f * (win_len / 2)) / Librosa.load_rate
                       :: map (fun st => column st f) order)
             (seq 0 F)).

(** ** Writing the annotation *)

(** ["%02d" % n] for a non-negative integer [n]: its decimal digits,
    with a leading zero when there is only one. *)
Definition format_02d (n : nat) : String.string :=
  let digits := DecimalString.NilEmpty.string_of_uint (Nat.to_uint n) in
  if (String.length digits <? 2)%nat then String.String "0"%char digits
  else digits.

(** ["S%02d" % stem_idx]. *)
Definition stem_label (stem_idx : nat) : String.string :=
  String.String "S"%char (format_02d stem_idx).

Module Medleydb.

(** What the pipeline uses of a [medleydb.MultiTrack]. *)
Record MultiTrack : Type := {
  stems : mtrack_stems;
  activation_conf_fpath : String.string
}.

End Medleydb.

(** A file written by [np.savetxt(..., delimiter=',', fmt='%.4f',
    comments='')]: the header line and the array whose rows follow it.
    The rendering of the numbers is not modelled.  [EmptyFile] is what
    [savetxt] leaves when it raises after opening the file. *)
Inductive file : Type :=
| EmptyFile
| Table (header : String.string) (X : Np.ndarray).

(** The files that exist, by path; every path can be written. *)
Definition filesystem : Type := String.string -> option file.

Definition fs_write (fname : String.string) (content : file)
           (fs : filesystem) : filesystem :=
  fun p => if String.eqb p fname then Some content else fs p.

(** [os.path.exists]. *)
Definition os_path_exists (fs : filesystem) (p : String.string) : bool :=
  match fs p with
  | Some _ => true
  | None => false
  end.

(** [np.savetxt(fname, X, header=header, ...)]: the file is opened for
    writing first; an array without axes is then rejected. *)
Definition savetxt (fname : String.string) (X : Np.ndarray)
           (header : String.string) (fs : filesystem)
  : result unit * filesystem :=
  match X with
  | Np.A0 _ => (raise ValueError, fs_write fname EmptyFile fs)
  | _ => (ret tt, fs_write fname (Table header X) fs)
  end.

(** [write_activations_to_csv(mtrack, activations, index_list, debug)]. *)
Definition write_activations_to_csv (mtrack : Medleydb.MultiTrack)
           (activations : Np.ndarray) (index_list : list nat) (debug : bool)
           (fs : filesystem) : result unit * filesystem :=
  let stem_str := String.concat ","%string (map stem_label index_list) in
  savetxt (Medleydb.activation_conf_fpath mtrack) activations
          (String.append "time,"%string stem_str) fs.

(** The parsed command line. *)
Record Namespace : Type := {
  track_id : String.string;
  write_output : bool;
  debug : bool
}.

Section Main.

(** The numerical kernel of [filtfilt] and the constructor
    [medleydb.MultiTrack], which may raise. *)
Variable lowpass : R -> list R -> nat -> R.
Variable medleydb_MultiTrack : String.string -> result Medleydb.MultiTrack.

(** [main(args)]: the value returned ([True] or [None]) or the exception
    raised, and the files that exist afterwards. *)
Definition main (args : Namespace) (fs : filesystem)
  : result (option bool) * filesystem :=
  match medleydb_MultiTrack (track_id args) with
  | inl e => (raise e, fs)
  | inr mtrack =>
      if os_path_exists fs (Medleydb.activation_conf_fpath mtrack)
      then (ret (Some true), fs)
      else
        match create_activation_annotation lowpass (Medleydb.stems mtrack)
                                           4096 0.075 0.15 false with
        | inl e => (raise e, fs)
        | inr (activations, index_list) =>
            if write_output args
            then
              let (written, fs') :=
                write_activations_to_csv mtrack activations index_list
                                         (debug args) fs in
              (_ <- written ;; ret None, fs')
            else (ret None, fs)
        end
  end.

End Main.

(** The header line [write_activations_to_csv] passes to [savetxt]. *)
Definition csv_header (index_list : list nat) : String.string :=
  String.append "time,"%string
                (String.concat ","%string (map stem_label index_list)).

(** The number of occurrences of a character in a string. *)
Fixpoint count_char (c : Ascii.ascii) (s : String.string) : nat :=
  match s with
  | String.EmptyString => 0
  | String.String a s' =>
      ((if Ascii.eqb a c then 1 else 0) + count_char c s')%nat
  end.

(** [int(s)] for a string of decimal digits. *)
Definition int_of_digits (s : String.string) : option nat :=
  option_map Nat.of_uint (DecimalString.NilZero.uint_of_string s).

(** A track of one stem, long enough for the default window, and a
    command line, for the concrete runs of [main] below. *)
Definition example_track : Medleydb.MultiTrack :=
  {| Medleydb.stems := [(1%nat, repeat 1 (200 * 100))];
     Medleydb.activation_conf_fpath := "LizNelson_Rainfall_ACTIVATION_CONF.lab"%string |}.

Definition example_MultiTrack (track_id : String.string)
  : result Medleydb.MultiTrack :=
  ret example_track.

Definition example_args : Namespace :=
  {| track_id := "LizNelson_Rainfall"%string;
     write_output := true;
     debug := true |}.

Definition no_files : filesystem := fun _ => None.

(** ** Worked examples *)

Example ceil_div_rounds_up : ceil_div 5 3 = 2%nat /\ ceil_div 6 3 = 2%nat.
Proof. split; reflexivity. Qed.

Example slice_drops_both_ends :
  slice_1_m1 [1; 2; 3; 4]%nat = [2; 3]%nat /\
  slice_1_m1 [1]%nat = [] /\ slice_1_m1 (@nil nat) = [].
Proof. repeat split; reflexivity. Qed.

Example fix_length_pads_and_truncates :
  Librosa.fix_length [1; 2; 3] 5 = [1; 2; 3; 0; 0] /\
  Librosa.fix_length [1; 2; 3] 2 = [1; 2].
Proof. split; reflexivity. Qed.

Example frame_overlapping :
  Librosa.frame [1; 2; 3; 4; 5; 6] 4 2 = ret [[1; 2; 3; 4]; [3; 4; 5; 6]] /\
  Librosa.frame [1; 2; 3] 4 2 = raise ParameterError /\
  Librosa.frame [1; 2; 3; 4] 4 0 = raise ParameterError.
Proof. repeat split; reflexivity. Qed.

Example padded_wave_win4 :
  padded_wave [1; 2; 3] 4 = [0; 0; 1; 2; 3; 0; 0; 0] /\
  n_frames_of 3 4 = 3%nat.
Proof. split; reflexivity. Qed.

Example array_shapes :
  Np.array [] = ret (Np.A1 []) /\
  Np.array [[1; 2]; [3; 4]] = ret (Np.A2 [[1; 2]; [3; 4]]) /\
  Np.array [[1]; [1; 2]] = ret (Np.AO [[1]; [1; 2]]).
Proof. repeat split; reflexivity. Qed.

Example transpose_with_time_column :
  Np.vstack [7; 8] (Np.A2 [[1; 2]; [3; 4]])
  = ret (Np.A2 [[7; 8]; [1; 2]; [3; 4]]) /\
  Np.transpose (Np.A2 [[7; 8]; [1; 2]; [3; 4]])
  = Np.A2 [[7; 1; 3]; [8; 2; 4]].
Proof. split; reflexivity. Qed.

Example ascendingb_examples :
  ascendingb [1; 2; 5]%nat = true /\ ascendingb [2; 1]%nat = false /\
  ascendingb [1; 1]%nat = false.
Proof. repeat split; reflexivity. Qed.

(** ** Basic facts *)

Lemma ret_inj {A : Type} (a b : A) : ret a = ret b -> a = b.
Proof. unfold ret. congruence. Qed.

Lemma Rltb_true (x y : R) : x < y -> Rltb x y = true.
Proof. intros H. unfold Rltb. destruct (Rlt_dec x y); [reflexivity | contradiction]. Qed.

Lemma Rltb_false (x y : R) : y <= x -> Rltb x y = false.
Proof. intros H. unfold Rltb. destruct (Rlt_dec x y); [lra | reflexivity]. Qed.

Lemma hwr_nonneg (x : R) : 0 <= hwr x.
Proof.
  unfold hwr, Rabs. destruct (Rcase_abs x); lra.
Qed.



Lemma hwr_pos (x : R) : 0 <= x -> hwr x = x.
Proof. intros H. unfold hwr. rewrite Rabs_right; lra. Qed.

Lemma hwr_neg (x : R) : x <= 0 -> hwr x = 0.
Proof. intros H. unfold hwr. rewrite Rabs_left1; lra. Qed.

Lemma hann_sample_nonneg (M n : nat) : 0 <= Scipy.hann_sample M n.
Proof.
  unfold Scipy.hann_sample.
  pose proof (COS_bound (2 * PI * INR n / INR (M - 1))) as [_ Hc]. lra.
Qed.

(** *** The trimmed window *)

Lemma hann_ge2 (M : nat) :
  (2 <= M)%nat -> Scipy.hann M = map (Scipy.hann_sample M) (seq 0 M).
Proof.
  intros HM. unfold Scipy.hann.
  destruct (Nat.leb_spec M 1); [lia | reflexivity].
Qed.

Lemma removelast_map_seq {A : Type} (f : nat -> A) (s n : nat) :
  removelast (map f (seq s (S n))) = map f (seq s n).
Proof.
  rewrite seq_S, map_app. simpl. apply removelast_last.
Qed.

Lemma hanning_samples (win_len : nat) :
  hanning win_len = spec_trimmed_hann win_len.
Proof.
  unfold hanning, spec_trimmed_hann, slice_1_m1.
  rewrite hann_ge2 by lia.
  replace (win_len + 2)%nat with (S (S win_len)) by lia.
  change (seq 0 (S (S win_len))) with (0%nat :: seq 1 (S win_len)).
  cbn [map tl].
  rewrite removelast_map_seq.
  rewrite <- seq_shift, map_map. reflexivity.
Qed.

Lemma hanning_length (win_len : nat) : length (hanning win_len) = win_len.
Proof.
  rewrite hanning_samples. unfold spec_trimmed_hann.
  now rewrite length_map, length_seq.
Qed.

Lemma hanning_nonneg (win_len : nat) : Forall (Rle 0) (hanning win_len).
Proof.
  rewrite hanning_samples. unfold spec_trimmed_hann.
  apply Forall_forall. intros w Hw.
  apply in_map_iff in Hw as [k [<- _]]. apply hann_sample_nonneg.
Qed.

(** *** The envelope follower *)

Lemma fix_length_length (data : list R) (size : nat) :
  length (Librosa.fix_length data size) = size.
Proof.
  unfold Librosa.fix_length.
  destruct (Nat.ltb_spec size (length data)).
  - rewrite length_firstn. lia.
  - destruct (Nat.ltb_spec (length data) size).
    + rewrite length_app, repeat_length. lia.
    + lia.
Qed.

Lemma pad_before_length (n : nat) (wave : list R) :
  length (Np.pad_before n wave) = (n + length wave)%nat.
Proof. unfold Np.pad_before. now rewrite length_app, repeat_length. Qed.

Lemma ceil_div_pos (a b : nat) : (1 <= a)%nat -> (1 <= b)%nat -> (1 <= ceil_div a b)%nat.
Proof.
  intros Ha Hb. unfold ceil_div.
  destruct (Nat.eqb_spec (a mod b) 0) as [Hm | Hm]; [| lia].
  pose proof (Nat.div_mod_eq a b) as Hd. rewrite Hm in Hd.
  destruct (a / b)%nat; lia.
Qed.

Lemma ceil_div_ge (a b : nat) : (1 <= b)%nat -> (a <= b * ceil_div a b)%nat.
Proof.
  intros Hb. unfold ceil_div.
  pose proof (Nat.div_mod_eq a b) as Hd.
  pose proof (Nat.mod_upper_bound a b ltac:(lia)) as Hu.
  destruct (Nat.eqb_spec (a mod b) 0) as [Hm | Hm]; nia.
Qed.

Lemma padded_wave_length (wave : list R) (win_len : nat) :
  length (padded_wave wave win_len)
  = (win_len * ceil_div (win_len - win_len / 2 + length wave) win_len)%nat.
Proof.
  unfold padded_wave. cbv zeta.
  now rewrite fix_length_length, pad_before_length.
Qed.

Lemma half_lt (win_len : nat) : (2 <= win_len)%nat ->
  (1 <= win_len / 2 /\ win_len / 2 < win_len)%nat.
Proof.
  intros H. split.
  - apply Nat.div_le_lower_bound; lia.
  - apply Nat.div_lt; lia.
Qed.

(** With a window of [win_len >= 2] samples the extractor raises nothing
    and yields one value per frame. *)
Lemma track_activation_ok (wave : list R) (win_len : nat) (win : list R) :
  (2 <= win_len)%nat -> length win = win_len ->
  track_activation wave win_len win = ret (envelope_of wave win_len win).
Proof.
  intros Hw Hlen. pose proof (half_lt win_len Hw) as [Hh1 Hh2].
  unfold track_activation. cbv zeta.
  destruct (Nat.eqb_spec win_len 0) as [? | _]; [lia |].
  fold (padded_wave wave win_len).
  unfold Librosa.frame. rewrite padded_wave_length.
  set (n := (win_len - win_len / 2 + length wave)%nat).
  assert (Hc : (1 <= ceil_div n win_len)%nat)
    by (apply ceil_div_pos; unfold n; lia).
  destruct (Nat.ltb_spec (win_len * ceil_div n win_len) win_len) as [Hlt | _];
    [nia |].
  destruct (Nat.ltb_spec (win_len / 2) 1) as [Hlt | _]; [lia |].
  cbn [bind ret]. unfold Np.mul_rows. rewrite Hlen, Nat.eqb_refl.
  cbn [bind ret]. unfold ret. f_equal.
  rewrite !map_map. unfold envelope_of, n_frames_of. fold n. reflexivity.
Qed.

Lemma track_activation_length (wave : list R) (win_len : nat) (win env : list R) :
  (2 <= win_len)%nat -> length win = win_len ->
  track_activation wave win_len win = ret env ->
  length env = n_frames_of (length wave) win_len.
Proof.
  intros Hw Hlen H. rewrite track_activation_ok in H by assumption.
  apply ret_inj in H. subst env. unfold envelope_of.
  now rewrite length_map, length_seq.
Qed.

Lemma Rsum_nonneg (l : list R) : Forall (Rle 0) l -> 0 <= Rsum l.
Proof.
  induction 1 as [| x l Hx _ IH]; simpl; lra.
Qed.

Lemma mean_nonneg (l : list R) : Forall (Rle 0) l -> 0 <= Np.mean l.
Proof.
  intros H. unfold Np.mean.
  pose proof (Rsum_nonneg l H) as Hs.
  destruct l as [| x l'].
  - simpl. unfold Rdiv. rewrite Rmult_0_l. lra.
  - apply Rmult_le_pos; [assumption |].
    apply Rlt_le, Rinv_0_lt_compat, lt_0_INR. simpl. lia.
Qed.

Lemma zip_with_mult_nonneg (l m : list R) :
  Forall (Rle 0) l -> Forall (Rle 0) m -> Forall (Rle 0) (zip_with Rmult l m).
Proof.
  intros Hl. revert m. induction Hl as [| x l Hx _ IH]; intros m Hm.
  - constructor.
  - destruct Hm as [| y m Hy Hm]; simpl; constructor.
    + now apply Rmult_le_pos.
    + now apply IH.
Qed.

Lemma frame_envelope_nonneg (win frame : list R) :
  Forall (Rle 0) win -> 0 <= frame_envelope win frame.
Proof.
  intros Hwin. unfold frame_envelope. apply mean_nonneg.
  apply zip_with_mult_nonneg; [| assumption].
  apply Forall_forall. intros y Hy.
  apply in_map_iff in Hy as [x [<- _]]. apply sqrt_pos.
Qed.

(** *** Symmetry and end points of the window *)

Lemma hann_sample_first_zero (M : nat) : Scipy.hann_sample M 0 = 0.
Proof.
  unfold Scipy.hann_sample. simpl INR.
  replace (2 * PI * 0 / INR (M - 1)) with 0 by (unfold Rdiv; ring).
  rewrite cos_0. lra.
Qed.

Lemma hann_sample_second_pos (n : nat) :
  (1 <= n)%nat -> 0 < Scipy.hann_sample (n + 2) 1.
Proof.
  intros Hn. unfold Scipy.hann_sample.
  replace (n + 2 - 1)%nat with (S n) by lia.
  assert (Hpos : 2 <= INR (S n)).
  { change 2 with (INR 2). apply le_INR. lia. }
  pose proof PI_RGT_0 as Hpi.
  change (INR 1) with 1. generalize dependent (INR (S n)). intros d Hd.
  set (y := 2 * PI * 1 / d).
  assert (Hy : 0 < y <= PI).
  { unfold y. split.
    - apply Rdiv_lt_0_compat; lra.
    - apply Rmult_le_reg_r with (r := d); [lra |].
      unfold Rdiv. rewrite Rmult_assoc, Rinv_l by lra. nra. }
  assert (Hc : cos y < cos 0).
  { apply cos_decreasing_1; lra. }
  rewrite cos_0 in Hc. lra.
Qed.

Lemma hann_sample_sym (n k : nat) :
  (k < n)%nat ->
  Scipy.hann_sample (n + 2) (S k) = Scipy.hann_sample (n + 2) (S (n - 1 - k)).
Proof.
  intros Hk. unfold Scipy.hann_sample.
  replace (n + 2 - 1)%nat with (S n) by lia.
  replace (S (n - 1 - k)) with (S n - S k)%nat by lia.
  rewrite minus_INR by lia.
  assert (Hn : INR (S n) <> 0) by (apply not_0_INR; lia).
  replace (2 * PI * (INR (S n) - INR (S k)) / INR (S n))
    with (- (2 * PI * INR (S k) / INR (S n)) + 2 * INR 1 * PI)
    by (simpl (INR 1); field; assumption).
  now rewrite cos_period, cos_neg.
Qed.

Lemma nth_spec_trimmed_hann (n k : nat) :
  (k < n)%nat ->
  nth k (spec_trimmed_hann n) 0 = Scipy.hann_sample (n + 2) (S k).
Proof.
  intros Hk. unfold spec_trimmed_hann.
  rewrite nth_indep with (d' := Scipy.hann_sample (n + 2) (S 0))
    by (now rewrite length_map, length_seq).
  rewrite (map_nth (fun k => Scipy.hann_sample (n + 2) (S k)) (seq 0 n) 0%nat k).
  now rewrite seq_nth.
Qed.

Lemma hanning_head_pos (n : nat) :
  (1 <= n)%nat -> 0 < hd 0 (hanning n).
Proof.
  intros Hn. rewrite hanning_samples. unfold spec_trimmed_hann.
  destruct n as [| n']; [lia |].
  cbn [seq map hd]. now apply hann_sample_second_pos.
Qed.

Lemma hann_head_zero (n : nat) : (2 <= n)%nat -> hd 0 (Scipy.hann n) = 0.
Proof.
  intros Hn. rewrite hann_ge2 by assumption.
  destruct n as [| n']; [lia |].
  cbn [seq map hd]. apply hann_sample_first_zero.
Qed.

Lemma hann_periodic_head_zero (n : nat) :
  (2 <= n)%nat -> hd 0 (Scipy.hann_periodic n) = 0.
Proof.
  intros Hn. unfold Scipy.hann_periodic.
  destruct (Nat.leb_spec n 1); [lia |].
  rewrite hann_ge2 by lia.
  replace (n + 1)%nat with (S n) by lia.
  rewrite removelast_map_seq.
  destruct n as [| n']; [lia |].
  cbn [seq map hd]. apply hann_sample_first_zero.
Qed.

(** *** The logistic map *)

Lemma confidence_increasing (theta h1 h2 : R) :
  h1 < h2 -> confidence theta h1 < confidence theta h2.
Proof.
  intros Hlt. unfold confidence.
  assert (He : exp (20 * (h1 - theta)) < exp (20 * (h2 - theta)))
    by (apply exp_increasing; lra).
  pose proof (exp_pos (20 * (h1 - theta))) as Hp1.
  assert (Hinv : / (1 + exp (20 * (h2 - theta))) < / (1 + exp (20 * (h1 - theta)))).
  { apply Rinv_lt_contravar; [| lra].
    apply Rmult_lt_0_compat; lra. }
  unfold Rdiv. lra.
Qed.

Lemma confidence_midpoint (theta : R) : confidence theta theta = 0.5.
Proof.
  unfold confidence.
  replace (20 * (theta - theta)) with 0 by ring.
  rewrite exp_0. lra.
Qed.

(** *** Binarization *)

Lemma binarize_value_cases (h : R) :
  (0.5 < h /\ binarize_value h = 1) \/ (h <= 0.5 /\ binarize_value h = 0).
Proof.
  unfold binarize_value, Rltb.
  destruct (Rlt_dec 0.5 h); [left | right]; split; lra.
Qed.

Lemma binarize_value_idem (h : R) :
  binarize_value (binarize_value h) = binarize_value h.
Proof.
  destruct (binarize_value_cases h) as [[_ ->] | [_ ->]];
    unfold binarize_value.
  - rewrite Rltb_true by lra. reflexivity.
  - rewrite Rltb_false by lra. reflexivity.
Qed.

Lemma np_map_map (f g : R -> R) (a : Np.ndarray) :
  Np.map g (Np.map f a) = Np.map (fun x => g (f x)) a.
Proof.
  destruct a; simpl; try reflexivity.
  - now rewrite map_map.
  - f_equal. rewrite map_map. apply map_ext. intros r. apply map_map.
  - f_equal. rewrite map_map. apply map_ext. intros r. apply map_map.
Qed.

Lemma np_map_ext (f g : R -> R) (a : Np.ndarray) :
  (forall x, f x = g x) -> Np.map f a = Np.map g a.
Proof.
  intros H. destruct a; simpl; f_equal; auto.
  - now apply map_ext.
  - apply map_ext. intros r. now apply map_ext.
  - apply map_ext. intros r. now apply map_ext.
Qed.

(** *** Normalization *)

Lemma max_list_ret (l : list R) :
  l <> [] -> Np.max_list l = ret (max_of l).
Proof. destruct l; [congruence | reflexivity]. Qed.

Lemma fold_left_Rmax_ge (l : list R) (a : R) : a <= fold_left Rmax l a.
Proof.
  revert a. induction l as [| x l IH]; intros a; simpl; [lra |].
  eapply Rle_trans; [apply (Rmax_l a x) | apply IH].
Qed.

Lemma fold_left_Rmax_upper (l : list R) (a x : R) :
  In x l -> x <= fold_left Rmax l a.
Proof.
  revert a. induction l as [| y l IH]; intros a Hin; simpl; [destruct Hin |].
  destruct Hin as [-> | Hin].
  - eapply Rle_trans; [apply (Rmax_r a x) | apply fold_left_Rmax_ge].
  - now apply IH.
Qed.

Lemma fold_left_Rmax_in (l : list R) (a : R) :
  fold_left Rmax l a = a \/ In (fold_left Rmax l a) l.
Proof.
  revert a. induction l as [| y l IH]; intros a; simpl; [now left |].
  destruct (IH (Rmax a y)) as [H | H].
  - rewrite H. unfold Rmax. destruct (Rle_dec a y); auto.
  - auto.
Qed.

(** [max_of] is the greatest element of a non-empty list. *)
Lemma max_of_upper (l : list R) (x : R) : In x l -> x <= max_of l.
Proof.
  destruct l as [| a l]; [intros [] |]. unfold max_of. simpl.
  intros [-> | Hin]; [apply fold_left_Rmax_ge | now apply fold_left_Rmax_upper].
Qed.

Lemma max_of_in (l : list R) : l <> [] -> In (max_of l) l.
Proof.
  destruct l as [| a l]; [congruence |]. intros _. unfold max_of. simpl.
  destruct (fold_left_Rmax_in l a) as [-> | H]; auto.
Qed.

Lemma E0_of_length (rows : list (list R)) :
  length (E0_of rows) = Np.ncols rows.
Proof. unfold E0_of. now rewrite length_map, length_seq. Qed.

Lemma nth_E0_of (rows : list (list R)) (j : nat) :
  (j < Np.ncols rows)%nat ->
  nth j (E0_of rows) 0 = Rsum (map (fun r => nth j r 0) rows).
Proof.
  intros Hj. unfold E0_of.
  rewrite nth_indep with (d' := Rsum (Np.column 0 rows))
    by (now rewrite length_map, length_seq).
  rewrite (map_nth (fun j => Rsum (Np.column j rows))).
  now rewrite seq_nth.
Qed.

Lemma ncols_map (f : list R -> list R) (rows : list (list R)) :
  (forall r, length (f r) = length r) ->
  Np.ncols (map f rows) = Np.ncols rows.
Proof.
  intros Hf. destruct rows as [| r rows]; [reflexivity |].
  unfold Np.ncols. simpl. apply Hf.
Qed.

Lemma ncols_rect (rows : list (list R)) (F : nat) :
  rows <> [] -> Forall (fun r => length r = F) rows -> Np.ncols rows = F.
Proof.
  intros Hne Hall. destruct rows as [| r rows]; [congruence |].
  now inversion Hall.
Qed.

(** On a two-axis array with at least one column, [normalization] raises
    nothing, whatever the value of the maximum. *)
Lemma normalization_rows (n_stems : nat) (rows : list (list R)) :
  (1 <= Np.ncols rows)%nat ->
  normalization n_stems (Np.A2 rows)
  = ret (Np.A2 (normalized_rows n_stems rows)).
Proof.
  intros Hc. unfold normalization. cbn [Np.sum0 bind ret].
  fold (E0_of rows). cbn [Np.max].
  rewrite max_list_ret.
  2:{ intros He. pose proof (E0_of_length rows) as Hl.
      rewrite He in Hl. simpl in Hl. lia. }
  cbn [bind ret Np.map Np.zero_where_lt].
  rewrite ncols_map by (intros r; apply length_map).
  rewrite E0_of_length, Nat.eqb_refl.
  unfold normalized_rows. now rewrite map_map.
Qed.

Lemma zip_with_length {A B C : Type} (f : A -> B -> C) (l : list A) (m : list B) :
  length (zip_with f l m) = Nat.min (length l) (length m).
Proof.
  revert m. induction l as [| a l IH]; intros [| b m]; simpl; auto.
Qed.

Lemma nth_zip_with {A B C : Type} (f : A -> B -> C) (l : list A) (m : list B)
      (j : nat) (da : A) (db : B) (dc : C) :
  (j < length l)%nat -> (j < length m)%nat ->
  nth j (zip_with f l m) dc = f (nth j l da) (nth j m db).
Proof.
  revert m j. induction l as [| a l IH]; intros [| b m] [| j] Hl Hm;
    simpl in *; try lia; auto.
  apply IH; lia.
Qed.

Lemma normalized_rows_length (n_stems : nat) (rows : list (list R)) :
  length (normalized_rows n_stems rows) = length rows.
Proof. unfold normalized_rows. apply length_map. Qed.

Lemma normalized_rows_rect (n_stems : nat) (rows : list (list R)) (F : nat) :
  rows <> [] -> Forall (fun r => length r = F) rows ->
  Forall (fun r => length r = F) (normalized_rows n_stems rows).
Proof.
  intros Hne Hall. unfold normalized_rows.
  apply Forall_forall. intros r' Hr'.
  apply in_map_iff in Hr' as [r [<- Hr]].
  rewrite zip_with_length, length_map, E0_of_length.
  rewrite (ncols_rect rows F Hne Hall).
  rewrite Forall_forall in Hall. rewrite (Hall r Hr). lia.
Qed.

Lemma entry_normalized_rows (n_stems : nat) (rows : list (list R)) (F i j : nat) :
  Forall (fun r => length r = F) rows ->
  (i < length rows)%nat -> (j < F)%nat ->
  entry (normalized_rows n_stems rows) i j
  = if Rltb (nth j (E0_of rows) 0) 0.01 then 0
    else entry rows i j * (INR n_stems / max_of (E0_of rows)).
Proof.
  intros Hall Hi Hj.
  assert (Hne : rows <> []) by (destruct rows; simpl in Hi; [lia | congruence]).
  assert (Hri : length (nth i rows []) = F).
  { rewrite Forall_forall in Hall. apply Hall. now apply nth_In. }
  unfold entry, normalized_rows.
  rewrite nth_indep with (d' := (fun r =>
         zip_with (fun x ej => if Rltb ej 0.01 then 0 else x)
                  (map (fun h => INR n_stems * h / max_of (E0_of rows)) r)
                  (E0_of rows)) [])
    by (now rewrite length_map).
  rewrite (map_nth (fun r =>
         zip_with (fun x ej => if Rltb ej 0.01 then 0 else x)
                  (map (fun h => INR n_stems * h / max_of (E0_of rows)) r)
                  (E0_of rows))).
  rewrite (nth_zip_with _ _ _ j 0 0 0).
  2:{ rewrite length_map. lia. }
  2:{ rewrite E0_of_length, (ncols_rect rows F Hne Hall). lia. }
  destruct (Rltb (nth j (E0_of rows) 0) 0.01); [reflexivity |].
  rewrite nth_indep with (d' := (fun h => INR n_stems * h / max_of (E0_of rows)) 0)
    by (rewrite length_map; lia).
  rewrite (map_nth (fun h => INR n_stems * h / max_of (E0_of rows))).
  unfold Rdiv. ring.
Qed.

Lemma zip_with_gate_zero (l e : list R) (c : R) :
  0 < c -> length l = length e -> Forall (fun x => x = 0) e ->
  zip_with (fun x ej => if Rltb ej c then 0 else x) l e = map (fun _ => 0) l.
Proof.
  intros Hc. revert e. induction l as [| x l IH]; intros [| y e] Hlen He;
    simpl in *; try discriminate; [reflexivity |].
  inversion He as [| ? ? Hy He']; subst.
  rewrite Rltb_true by assumption. f_equal. apply IH; [lia | assumption].
Qed.

(** When [E0] vanishes at every frame, every frame is gated. *)
Lemma normalized_rows_silent (n_stems : nat) (rows : list (list R)) (F : nat) :
  rows <> [] -> Forall (fun r => length r = F) rows ->
  Forall (fun e => e = 0) (E0_of rows) ->
  normalized_rows n_stems rows = map (map (fun _ => 0)) rows.
Proof.
  intros Hne Hall Hz. unfold normalized_rows.
  apply map_ext_in. intros r Hr.
  rewrite zip_with_gate_zero; [apply map_map | lra | | assumption].
  rewrite length_map, E0_of_length, (ncols_rect rows F Hne Hall).
  rewrite Forall_forall in Hall. now apply Hall.
Qed.

(** *** The loop over the stems *)

Lemma bind_ret {A B : Type} (a : A) (k : A -> result B) : bind (ret a) k = k a.
Proof. reflexivity. Qed.

Lemma bind_raise {A B : Type} (e : exn) (k : A -> result B) :
  bind (raise e) k = raise e.
Proof. reflexivity. Qed.

Lemma rate_after_bound (stems : mtrack_stems) :
  rate_after stems (Some Librosa.load_rate) = Some Librosa.load_rate.
Proof. now destruct stems. Qed.

Lemma stems_loop_ok (stems : mtrack_stems) (win_len : nat) (win : list R)
      (envs H : list (list R)) (index_list : list nat) (rate : option R) :
  Forall2 (fun st env => track_activation (snd st) win_len win = ret env)
          stems envs ->
  stems_loop stems win_len win H index_list rate
  = ret (H ++ envs, index_list ++ map fst stems, rate_after stems rate).
Proof.
  intros HF. revert H index_list rate.
  induction HF as [| [stem_idx audio] env stems envs Hta _ IH];
    intros H index_list rate.
  - simpl. now rewrite !app_nil_r.
  - cbn [stems_loop]. simpl snd in Hta. rewrite Hta, bind_ret, IH.
    cbn [map fst rate_after]. rewrite rate_after_bound, <- !app_assoc.
    reflexivity.
Qed.

Lemma stems_loop_inv (stems : mtrack_stems) (win_len : nat) (win : list R)
      (H H' : list (list R)) (index_list index_list' : list nat)
      (rate rate' : option R) :
  stems_loop stems win_len win H index_list rate = ret (H', index_list', rate') ->
  exists envs,
    Forall2 (fun st env => track_activation (snd st) win_len win = ret env)
            stems envs /\
    H' = H ++ envs /\
    index_list' = index_list ++ map fst stems /\
    rate' = rate_after stems rate.
Proof.
  revert H index_list rate.
  induction stems as [| [stem_idx audio] stems IH]; intros H index_list rate Hl.
  - cbn [stems_loop] in Hl. apply ret_inj in Hl. inversion Hl; subst.
    exists []. simpl. rewrite !app_nil_r. auto.
  - cbn [stems_loop] in Hl.
    destruct (track_activation audio win_len win) as [e | env] eqn:Hta;
      [discriminate |].
    change (bind (inr env) ?k) with (k env) in Hl. cbv beta in Hl.
    apply IH in Hl as [envs [HF [-> [-> ->]]]].
    exists (env :: envs). cbn [map fst rate_after].
    rewrite rate_after_bound, <- !app_assoc. repeat split; auto.
Qed.

Lemma stems_loop_envelopes (stems : mtrack_stems) (win_len : nat) :
  (2 <= win_len)%nat ->
  stems_loop stems win_len (hanning win_len) [] [] None
  = ret (envelope_rows stems win_len, map fst stems, rate_after stems None).
Proof.
  intros Hw.
  rewrite (stems_loop_ok stems win_len (hanning win_len)
                         (envelope_rows stems win_len)); [reflexivity |].
  unfold envelope_rows. induction stems as [| st stems IH]; constructor; auto.
  apply track_activation_ok; [assumption | apply hanning_length].
Qed.

(** *** Stacking *)

Lemma array_rect (rows : list (list R)) (F : nat) :
  rows <> [] -> Forall (fun r => length r = F) rows ->
  Np.array rows = ret (Np.A2 rows).
Proof.
  intros Hne Hall. destruct rows as [| r rest]; [congruence |].
  unfold Np.array. inversion Hall as [| ? ? Hr Hrest]; subst.
  replace (forallb _ rest) with true; [reflexivity |].
  symmetry. apply forallb_forall. intros r' Hr'.
  rewrite Forall_forall in Hrest. apply Nat.eqb_eq. now apply Hrest.
Qed.

Lemma array_ragged (rows : list (list R)) (r1 r2 : list R) :
  In r1 rows -> In r2 rows -> length r1 <> length r2 ->
  Np.array rows = ret (Np.AO rows).
Proof.
  intros H1 H2 Hne. destruct rows as [| r rest]; [destruct H1 |].
  unfold Np.array.
  destruct (forallb (fun r' => (length r' =? length r)%nat) rest) eqn:Hall;
    [| reflexivity].
  exfalso. rewrite forallb_forall in Hall.
  assert (Hlen : forall x, In x (r :: rest) -> length x = length r).
  { intros x [<- | Hx]; [reflexivity |]. now apply Nat.eqb_eq, Hall. }
  apply Hne. rewrite (Hlen r1 H1), (Hlen r2 H2). reflexivity.
Qed.

Lemma array_inv (rows : list (list R)) (a : Np.ndarray) :
  Np.array rows = ret a ->
  (rows = [] /\ a = Np.A1 []) \/
  (rows <> [] /\ a = Np.A2 rows /\
   Forall (fun r => length r = Np.ncols rows) rows) \/
  (exists r rest, rows = r :: rest /\ a = Np.AO rows).
Proof.
  destruct rows as [| r rest]; unfold Np.array; intros H.
  - left. apply ret_inj in H. auto.
  - right.
    destruct (forallb (fun r' => (length r' =? length r)%nat) rest) eqn:Hall.
    + left. apply ret_inj in H. subst a. repeat split; [congruence |].
      rewrite forallb_forall in Hall. constructor; [reflexivity |].
      apply Forall_forall. intros x Hx. now apply Nat.eqb_eq, Hall.
    + right. apply ret_inj in H. subst a. now exists r, rest.
Qed.

(** What the normalization of an array of objects raises: the sum over
    axis 0 fails when the lengths cannot be broadcast; otherwise the
    column assignment finds one axis where it indexes two. *)
Lemma normalization_objects (n_stems : nat) (r : list R)
      (elems : list (list R)) :
  normalization n_stems (Np.AO (r :: elems))
  = raise (ragged_exception (r :: elems)).
Proof.
  unfold normalization, ragged_exception. cbn [Np.sum0].
  destruct (Np.sum_objects r elems) as [e | v]; [reflexivity |].
  rewrite !bind_ret. cbn [Np.max].
  destruct v as [| x v]; [reflexivity |].
  cbn [Np.max_list]. rewrite bind_ret. reflexivity.
Qed.

(** *** The whole pipeline *)

Lemma envelope_of_length (wave : list R) (win_len : nat) (win : list R) :
  length (envelope_of wave win_len win) = n_frames_of (length wave) win_len.
Proof. unfold envelope_of. now rewrite length_map, length_seq. Qed.

Lemma n_frames_of_pos (L win_len : nat) : (1 <= n_frames_of L win_len)%nat.
Proof. unfold n_frames_of. cbv zeta. lia. Qed.

Lemma smoothed_rows_rect (lowpass : R -> list R -> nat -> R) (lpf : R)
      (rows : list (list R)) (F : nat) :
  Forall (fun r => length r = F) rows ->
  Forall (fun r => length r = F) (smoothed_rows lowpass lpf rows).
Proof.
  intros Hall. unfold smoothed_rows. apply Forall_forall. intros r' Hr'.
  apply in_map_iff in Hr' as [r [<- Hr]].
  rewrite length_map, length_seq. rewrite Forall_forall in Hall. now apply Hall.
Qed.

Lemma map_rows_rect (f : R -> R) (rows : list (list R)) (F : nat) :
  Forall (fun r => length r = F) rows ->
  Forall (fun r => length r = F) (map (map f) rows).
Proof.
  intros Hall. apply Forall_forall. intros r' Hr'.
  apply in_map_iff in Hr' as [r [<- Hr]].
  rewrite length_map. rewrite Forall_forall in Hall. now apply Hall.
Qed.

Lemma vstack_rect (v : list R) (rows : list (list R)) :
  Forall (fun r => length r = length v) rows ->
  Np.vstack v (Np.A2 rows) = ret (Np.A2 (v :: rows)).
Proof.
  intros Hall. unfold Np.vstack.
  replace (forallb _ rows) with true; [reflexivity |].
  symmetry. apply forallb_forall. intros r Hr.
  rewrite Forall_forall in Hall. now apply Nat.eqb_eq, Hall.
Qed.

Lemma output_rows (theta : R) (binarize : bool) (rows : list (list R)) :
  (if binarize
   then Np.map binarize_value (Np.map (confidence theta) (Np.A2 rows))
   else Np.map (confidence theta) (Np.A2 rows))
  = Np.A2 (map (map (output_value theta binarize)) rows).
Proof.
  destruct binarize; [rewrite np_map_map |]; reflexivity.
Qed.

Lemma time_column_length (n win_len : nat) :
  length (time_column n win_len) = n.
Proof.
  unfold time_column, Librosa.frames_to_time.
  now rewrite length_map, length_seq.
Qed.

(** What the pipeline does once the loop has produced a rectangular
    envelope matrix [rows] and bound [rate]. *)
Lemma pipeline_after_loop (lowpass : R -> list R -> nat -> R)
      (stems : mtrack_stems) (win_len : nat) (lpf theta : R) (b : bool)
      (rows : list (list R)) (idx : list nat) (F : nat) :
  stems_loop stems win_len (hanning win_len) [] [] None
  = ret (rows, idx, Some Librosa.load_rate) ->
  rows <> [] -> (1 <= F)%nat -> Forall (fun r => length r = F) rows ->
  create_activation_annotation lowpass stems win_len lpf theta b
  = if Rltb 0 lpf && Rltb lpf 1
    then if (F <=? 9)%nat then raise ValueError
         else
           let H := smoothed_rows lowpass lpf
                      (normalized_rows (length stems) rows) in
           ret (Np.transpose
                  (Np.A2 (time_column (Np.ncols H) win_len
                            :: map (map (output_value theta b)) H)),
                idx)
    else raise ValueError.
Proof.
  intros Hloop Hne HF Hall.
  assert (Hn : Forall (fun r => length r = F)
                      (normalized_rows (length stems) rows))
    by now apply normalized_rows_rect.
  assert (Hnne : normalized_rows (length stems) rows <> []).
  { intros He. apply Hne. apply length_zero_iff_nil.
    rewrite <- (normalized_rows_length (length stems)), He. reflexivity. }
  pose proof (smoothed_rows_rect lowpass lpf _ F Hn) as Hs.
  assert (Hsne : smoothed_rows lowpass lpf
                   (normalized_rows (length stems) rows) <> []).
  { unfold smoothed_rows. intros He. apply map_eq_nil in He. contradiction. }
  unfold create_activation_annotation. cbv zeta.
  rewrite Hloop, bind_ret.
  rewrite (array_rect rows F Hne Hall), bind_ret.
  rewrite normalization_rows by (rewrite (ncols_rect rows F Hne Hall); lia).
  rewrite bind_ret. unfold Scipy.butter.
  destruct (Rltb 0 lpf && Rltb lpf 1); [| reflexivity].
  rewrite bind_ret. unfold Scipy.filtfilt.
  rewrite (ncols_rect _ F Hnne Hn).
  destruct (F <=? 9)%nat; [reflexivity |].
  rewrite bind_ret. fold (smoothed_rows lowpass lpf
                            (normalized_rows (length stems) rows)).
  rewrite output_rows. cbn [Np.map Np.shape1]. rewrite bind_ret.
  cbn [unbound]. rewrite bind_ret.
  rewrite ncols_map by (intros r; apply length_map).
  fold (time_column
          (Np.ncols (smoothed_rows lowpass lpf
                       (normalized_rows (length stems) rows))) win_len).
  rewrite vstack_rect; [reflexivity |].
  rewrite time_column_length, (ncols_rect _ F Hsne Hs).
  now apply map_rows_rect.
Qed.

Lemma track_activation_win0 (wave win : list R) :
  track_activation wave 0 win = raise ZeroDivisionError.
Proof. reflexivity. Qed.

Lemma track_activation_win1 (wave win : list R) :
  track_activation wave 1 win = raise ParameterError.
Proof.
  unfold track_activation. cbv zeta.
  change (1 =? 0)%nat with false. cbv iota.
  unfold Librosa.frame. rewrite fix_length_length, pad_before_length.
  change (1 / 2)%nat with 0%nat.
  set (n := (1 - 0 + length wave)%nat).
  assert (Hc : (1 <= ceil_div n 1)%nat) by (apply ceil_div_pos; unfold n; lia).
  destruct (Nat.ltb_spec (1 * ceil_div n 1) 1) as [Hlt | _]; [lia |].
  reflexivity.
Qed.

Lemma track_activation_small_win (wave win : list R) (win_len : nat) :
  (win_len < 2)%nat -> exists e, track_activation wave win_len win = raise e.
Proof.
  intros H. destruct win_len as [| [| n]]; [| | lia].
  - eexists. apply track_activation_win0.
  - eexists. apply track_activation_win1.
Qed.

Lemma pipeline_no_stems (lowpass : R -> list R -> nat -> R) (win_len : nat)
      (lpf theta : R) (b : bool) :
  create_activation_annotation lowpass [] win_len lpf theta b
  = raise (if Rltb 0 lpf && Rltb lpf 1 then IndexError else ValueError).
Proof.
  unfold create_activation_annotation. cbv zeta.
  cbn [stems_loop]. rewrite bind_ret.
  cbn [Np.array]. rewrite bind_ret.
  unfold normalization. cbn [Np.sum0]. rewrite bind_ret.
  cbn [Np.max]. rewrite bind_ret.
  cbn [Np.map map Np.zero_where_lt].
  replace (if Rltb (Rsum []) 0.01 then Np.A1 [] else Np.A1 [])
    with (Np.A1 []) by (destruct (Rltb (Rsum []) 0.01); reflexivity).
  rewrite bind_ret. unfold Scipy.butter.
  destruct (Rltb 0 lpf && Rltb lpf 1); reflexivity.
Qed.

(** A run that returns went through every stage without raising. *)
Lemma pipeline_inv (lowpass : R -> list R -> nat -> R)
      (stems : mtrack_stems) (win_len : nat) (lpf theta : R) (b : bool)
      (M : Np.ndarray) (idx : list nat) :
  create_activation_annotation lowpass stems win_len lpf theta b = ret (M, idx) ->
  stems <> [] /\ (2 <= win_len)%nat /\
  Forall (fun r => length r = Np.ncols (envelope_rows stems win_len))
         (envelope_rows stems win_len) /\
  (9 < Np.ncols (envelope_rows stems win_len))%nat /\
  0 < lpf < 1 /\
  M = activation_matrix lowpass stems win_len lpf theta b /\
  idx = map fst stems.
Proof.
  intros Hrun.
  assert (Hne : stems <> []).
  { intros ->. rewrite pipeline_no_stems in Hrun. discriminate. }
  assert (Hw : (2 <= win_len)%nat).
  { destruct (Nat.le_gt_cases 2 win_len) as [H | H]; [assumption | exfalso].
    destruct stems as [| [stem_idx audio] stems]; [congruence |].
    destruct (track_activation_small_win audio (hanning win_len) win_len H)
      as [e He].
    unfold create_activation_annotation in Hrun. cbv zeta in Hrun.
    cbn [stems_loop] in Hrun. rewrite He in Hrun. discriminate. }
  pose proof (stems_loop_envelopes stems win_len Hw) as Hloop.
  assert (Hrate : rate_after stems None = Some Librosa.load_rate)
    by (destruct stems; [congruence | reflexivity]).
  rewrite Hrate in Hloop.
  assert (Hrne : envelope_rows stems win_len <> []).
  { unfold envelope_rows. intros He. apply map_eq_nil in He. contradiction. }
  destruct (Np.array (envelope_rows stems win_len)) as [e | a] eqn:Harr.
  { unfold create_activation_annotation in Hrun. cbv zeta in Hrun.
    rewrite Hloop, bind_ret, Harr in Hrun. discriminate. }
  pose proof Harr as Harr'.
  apply array_inv in Harr as [[He _] | [[_ [_ Hrect]] | [r [rest [Hr ->]]]]];
    [contradiction | |].
  2:{ unfold create_activation_annotation in Hrun. cbv zeta in Hrun.
      rewrite Hloop, bind_ret, Harr', bind_ret, Hr in Hrun.
      rewrite normalization_objects in Hrun. discriminate. }
  clear Harr'.
  set (F := Np.ncols (envelope_rows stems win_len)) in *.
  assert (HF : (1 <= F)%nat).
  { unfold F, envelope_rows. destruct stems as [| st stems]; [congruence |].
    unfold Np.ncols. cbn [map hd]. rewrite envelope_of_length.
    apply n_frames_of_pos. }
  rewrite (pipeline_after_loop lowpass stems win_len lpf theta b
             _ _ F Hloop Hrne HF Hrect) in Hrun.
  unfold Rltb in Hrun.
  destruct (Rlt_dec 0 lpf) as [H0 | H0]; [| discriminate].
  destruct (Rlt_dec lpf 1) as [H1 | H1]; [| discriminate].
  cbn [andb] in Hrun.
  destruct (Nat.leb_spec F 9) as [H9 | H9]; [discriminate |].
  cbv zeta in Hrun. apply ret_inj in Hrun. inversion Hrun; subst.
  repeat split; auto.
Qed.

(** The conditions under which the pipeline returns. *)
Lemma pipeline_returns (lowpass : R -> list R -> nat -> R)
      (stems : mtrack_stems) (win_len : nat) (lpf theta : R) (b : bool)
      (L : nat) :
  stems <> [] -> (2 <= win_len)%nat ->
  Forall (fun st => length (snd st) = L) stems ->
  (9 < n_frames_of L win_len)%nat -> 0 < lpf < 1 ->
  create_activation_annotation lowpass stems win_len lpf theta b
  = ret (activation_matrix lowpass stems win_len lpf theta b, map fst stems).
Proof.
  intros Hne Hw Hlen H9 [H0 H1].
  pose proof (stems_loop_envelopes stems win_len Hw) as Hloop.
  assert (Hrate : rate_after stems None = Some Librosa.load_rate)
    by (destruct stems; [congruence | reflexivity]).
  rewrite Hrate in Hloop.
  assert (Hrne : envelope_rows stems win_len <> []).
  { unfold envelope_rows. intros He. apply map_eq_nil in He. contradiction. }
  assert (Hrect : Forall (fun r => length r = n_frames_of L win_len)
                         (envelope_rows stems win_len)).
  { unfold envelope_rows. apply Forall_forall. intros r Hr.
    apply in_map_iff in Hr as [st [<- Hst]].
    rewrite envelope_of_length. rewrite Forall_forall in Hlen.
    now rewrite (Hlen st Hst). }
  rewrite (pipeline_after_loop lowpass stems win_len lpf theta b
             _ _ (n_frames_of L win_len) Hloop Hrne
             (n_frames_of_pos L win_len) Hrect).
  rewrite (Rltb_true 0 lpf H0), (Rltb_true lpf 1 H1). cbn [andb].
  destruct (Nat.leb_spec (n_frames_of L win_len) 9) as [H | _]; [lia |].
  reflexivity.
Qed.

(** *** Silence *)

Lemma silent_repeat (n : nat) : silent (repeat 0 n).
Proof. induction n; simpl; constructor; auto. Qed.

Lemma silent_firstn (n : nat) (l : list R) : silent l -> silent (firstn n l).
Proof.
  intros H. revert n. induction H as [| x l Hx _ IH]; intros [| n]; simpl;
    try constructor; try assumption. apply IH.
Qed.

Lemma silent_skipn (n : nat) (l : list R) : silent l -> silent (skipn n l).
Proof.
  intros H. revert n. induction H as [| x l Hx Hl IH]; intros [| n]; simpl;
    try constructor; try assumption. apply IH.
Qed.

Lemma padded_wave_silent (wave : list R) (win_len : nat) :
  silent wave -> silent (padded_wave wave win_len).
Proof.
  intros H. unfold padded_wave, Librosa.fix_length, Np.pad_before. cbv zeta.
  assert (Hp : silent (repeat 0 (win_len - win_len / 2) ++ wave))
    by (apply Forall_app; split; [apply silent_repeat | assumption]).
  destruct (_ <? _)%nat; [now apply silent_firstn |].
  destruct (_ <? _)%nat; [| assumption].
  apply Forall_app; split; [assumption | apply silent_repeat].
Qed.

Lemma Rsum_silent (l : list R) : silent l -> Rsum l = 0.
Proof. induction 1 as [| x l Hx _ IH]; simpl; [reflexivity | lra]. Qed.

Lemma frame_envelope_silent (win frame : list R) :
  silent frame -> frame_envelope win frame = 0.
Proof.
  intros H. unfold frame_envelope, Np.mean.
  rewrite Rsum_silent; [unfold Rdiv; ring |].
  revert win. induction H as [| x l Hx _ IH]; intros [| w win]; simpl;
    try constructor; try apply IH.
  subst x. unfold hwr. rewrite Rabs_R0.
  replace ((0 + 0) / 2) with 0 by lra. rewrite sqrt_0. ring.
Qed.

Lemma map_const_seq {A : Type} (a : A) (s n : nat) :
  map (fun _ => a) (seq s n) = repeat a n.
Proof. revert s. induction n; intros s; simpl; [| rewrite IHn]; reflexivity. Qed.

Lemma envelope_of_silent (wave : list R) (win_len : nat) (win : list R) :
  silent wave ->
  envelope_of wave win_len win = repeat 0 (n_frames_of (length wave) win_len).
Proof.
  intros H. unfold envelope_of. rewrite <- (map_const_seq 0 0).
  apply map_ext. intros i. apply frame_envelope_silent.
  now apply silent_firstn, silent_skipn, padded_wave_silent.
Qed.

Lemma nth_silent (l : list R) (j : nat) : silent l -> nth j l 0 = 0.
Proof.
  intros H. revert j. induction H as [| x l Hx _ IH]; intros [| j]; simpl; auto.
Qed.

Lemma E0_of_silent (rows : list (list R)) :
  Forall silent rows -> silent (E0_of rows).
Proof.
  intros H. unfold E0_of. apply Forall_forall. intros e He.
  apply in_map_iff in He as [j [<- _]].
  apply Rsum_silent. unfold Np.column. apply Forall_forall. intros x Hx.
  apply in_map_iff in Hx as [r [<- Hr]].
  rewrite Forall_forall in H. now apply nth_silent, H.
Qed.

Lemma envelope_rows_silent (stems : mtrack_stems) (win_len : nat) :
  Forall (fun st => silent (snd st)) stems ->
  Forall silent (envelope_rows stems win_len).
Proof.
  intros H. unfold envelope_rows. apply Forall_forall. intros r Hr.
  apply in_map_iff in Hr as [st [<- Hst]].
  rewrite Forall_forall in H. rewrite envelope_of_silent by now apply H.
  apply silent_repeat.
Qed.

Lemma envelope_rows_rect (stems : mtrack_stems) (win_len L : nat) :
  Forall (fun st => length (snd st) = L) stems ->
  Forall (fun r => length r = n_frames_of L win_len)
         (envelope_rows stems win_len).
Proof.
  intros Hlen. unfold envelope_rows. apply Forall_forall. intros r Hr.
  apply in_map_iff in Hr as [st [<- Hst]].
  rewrite envelope_of_length. rewrite Forall_forall in Hlen.
  now rewrite (Hlen st Hst).
Qed.

Lemma envelope_rows_nonempty (stems : mtrack_stems) (win_len : nat) :
  stems <> [] -> envelope_rows stems win_len <> [].
Proof.
  unfold envelope_rows. intros Hne He. apply map_eq_nil in He. contradiction.
Qed.

Lemma envelope_rows_length (stems : mtrack_stems) (win_len : nat) :
  length (envelope_rows stems win_len) = length stems.
Proof. unfold envelope_rows. apply length_map. Qed.

(** *** The returned matrix, row by row *)

Lemma stem_rows_per_stem (lowpass : R -> list R -> nat -> R)
      (stems : mtrack_stems) (win_len : nat) (lpf theta : R) (b : bool) :
  stem_rows lowpass stems win_len lpf theta b
  = map (stem_row lowpass stems win_len lpf theta b) stems.
Proof.
  unfold stem_rows, smoothed_rows, normalized_rows, stem_row. cbv zeta.
  set (E0 := E0_of (envelope_rows stems win_len)).
  unfold envelope_rows. rewrite !map_map. reflexivity.
Qed.

Lemma activation_matrix_rows (lowpass : R -> list R -> nat -> R)
      (stems : mtrack_stems) (win_len : nat) (lpf theta : R) (b : bool) :
  activation_matrix lowpass stems win_len lpf theta b
  = Np.A2 (map (fun f =>
                  INR (f * (win_len / 2)) / Librosa.load_rate
                  :: map (fun r => nth f r 0)
                         (stem_rows lowpass stems win_len lpf theta b))
               (seq 0 (Np.ncols
                         (smoothed_rows lowpass lpf
                            (normalized_rows (length stems)
                               (envelope_rows stems win_len)))))).
Proof.
  unfold activation_matrix. cbv zeta. fold (stem_rows lowpass stems win_len lpf theta b).
  set (F := Np.ncols _). unfold Np.transpose. f_equal.
  unfold Np.ncols at 1. cbn [hd]. rewrite time_column_length.
  apply map_ext_in. intros f Hf. apply in_seq in Hf.
  unfold Np.column. cbn [map]. f_equal.
  unfold time_column, Librosa.frames_to_time.
  rewrite nth_indep with (d' := (fun f => INR (f * (win_len / 2)) / Librosa.load_rate) 0%nat)
    by (rewrite length_map, length_seq; lia).
  rewrite (map_nth (fun f => INR (f * (win_len / 2)) / Librosa.load_rate)).
  rewrite seq_nth by lia. reflexivity.
Qed.

(** * The claims *)

(** ** The analysis window *)

(** C6.  The window [create_activation_annotation] builds,
    [hann(win_len + 2)[1:-1]], is the Hann window of length
    [win_len + 2] sampled at positions 1 .. win_len, i.e. without its
    first and last sample: it has [win_len] samples, sample [k] is
    0.5 - 0.5 cos(2 pi (k + 1) / (win_len + 1)), and it is symmetric.
    From [win_len = 2] on it is neither scipy's default Hann window of
    length [win_len] nor the periodic one, both of which start with 0.
    It is this trimmed window that every stem is analysed with: the loop
    of [create_activation_annotation] yields, per stem, the envelope
    [track_activation] computes with the trimmed window, and a call on
    stems of one length with more than nine frames and a cutoff in (0, 1)
    returns the matrix built from these envelopes. *)
Theorem window_is_trimmed_symmetric_hann (win_len : nat) :
  hanning win_len = spec_trimmed_hann win_len /\
  length (hanning win_len) = win_len /\
  (forall k, (k < win_len)%nat ->
     nth k (hanning win_len) 0
     = 0.5 - 0.5 * cos (2 * PI * INR (S k) / INR (win_len + 2 - 1)) /\
     nth k (hanning win_len) 0 = nth (win_len - 1 - k) (hanning win_len) 0) /\
  ((2 <= win_len)%nat ->
     hanning win_len <> Scipy.hann win_len /\
     hanning win_len <> Scipy.hann_periodic win_len /\
     (forall wave,
        track_activation wave win_len (spec_trimmed_hann win_len)
        = ret (envelope_of wave win_len (spec_trimmed_hann win_len))) /\
     forall (lowpass : R -> list R -> nat -> R) (stems : mtrack_stems)
            (lpf theta : R) (b : bool) (L : nat),
       stems <> [] -> Forall (fun st => length (snd st) = L) stems ->
       (9 < n_frames_of L win_len)%nat -> 0 < lpf < 1 ->
       create_activation_annotation lowpass stems win_len lpf theta b
       = ret (Np.transpose
                (Np.A2
                   (time_column (n_frames_of L win_len) win_len
                      :: map (map (output_value theta b))
                           (smoothed_rows lowpass lpf
                              (normalized_rows (length stems)
                                 (map (fun st =>
                                         envelope_of (snd st) win_len
                                           (spec_trimmed_hann win_len))
                                      stems))))),
              map fst stems)).
Proof.
  split; [apply hanning_samples |].
  split; [apply hanning_length |].
  split.
  - intros k Hk. rewrite hanning_samples.
    rewrite !nth_spec_trimmed_hann by lia. split; [reflexivity |].
    now apply hann_sample_sym.
  - intros Hw.
    pose proof (hanning_head_pos win_len ltac:(lia)) as Hpos.
    split; [| split; [| split]].
    + intros He. rewrite He in Hpos.
      rewrite hann_head_zero in Hpos by assumption. lra.
    + intros He. rewrite He in Hpos.
      rewrite hann_periodic_head_zero in Hpos by assumption. lra.
    + intros wave. apply track_activation_ok; [assumption |].
      rewrite <- hanning_samples. apply hanning_length.
    + intros lowpass stems lpf theta b L Hne Hlen H9 Hlpf.
      rewrite (pipeline_returns lowpass stems win_len lpf theta b L)
        by assumption.
      unfold activation_matrix. cbv zeta.
      fold (envelope_rows stems win_len).
      assert (Hcols : Np.ncols
                        (smoothed_rows lowpass lpf
                           (normalized_rows (length stems)
                              (envelope_rows stems win_len)))
                      = n_frames_of L win_len).
      { destruct stems as [| st stems]; [congruence |].
        unfold Np.ncols, smoothed_rows, normalized_rows, envelope_rows.
        cbn [map hd]. rewrite length_map, length_seq.
        apply Forall_inv in Hlen.
        rewrite zip_with_length, length_map, E0_of_length.
        unfold Np.ncols. cbn [map hd].
        rewrite !envelope_of_length, Hlen. apply Nat.min_id. }
      rewrite Hcols. unfold envelope_rows.
      rewrite hanning_samples. reflexivity.
Qed.

Lemma window_is_trimmed_symmetric_hann_witness :
  (2 <= 4)%nat /\
  hanning 4 <> Scipy.hann 4 /\ hanning 4 <> Scipy.hann_periodic 4 /\
  track_activation (repeat 1 24) 4 (spec_trimmed_hann 4)
  = ret (envelope_of (repeat 1 24) 4 (spec_trimmed_hann 4)) /\
  create_activation_annotation identity_kernel [(0%nat, repeat 1 24)] 4
                               0.075 0.15 false
  = ret (Np.transpose
           (Np.A2
              (time_column (n_frames_of 24 4) 4
                 :: map (map (output_value 0.15 false))
                      (smoothed_rows identity_kernel 0.075
                         (normalized_rows 1
                            [envelope_of (repeat 1 24) 4
                                         (spec_trimmed_hann 4)])))),
         [0%nat]).
Proof.
  split; [lia |].
  destruct (window_is_trimmed_symmetric_hann 4)
    as (_ & _ & _ & H).
  destruct (H ltac:(lia)) as (H1 & H2 & H3 & H4).
  split; [exact H1 |]. split; [exact H2 |]. split; [apply H3 |].
  apply (H4 identity_kernel [(0%nat, repeat 1 24)] 0.075 0.15 false 24%nat).
  - discriminate.
  - repeat constructor.
  - vm_compute. lia.
  - lra.
Defined.

(** ** The envelope follower *)



(** ** The logistic map *)

Section BinarySaturation.
Import PrimFloat.


End BinarySaturation.



(** ** Binarization *)

(** C9.  With [binarize] set, every stem entry of the returned matrix is
    the binarization of the logistic confidence of the smoothed value:
    1 when that confidence is strictly greater than 0.5 and 0 otherwise.
    Binarization takes no value other than 0 and 1, takes both, and
    applying it twice is the same as applying it once, entry by entry and
    on whole arrays. *)
Theorem binarization_idempotent_two_valued (theta h : R) (H : Np.ndarray) :
  output_value theta true h
  = (if Rlt_dec 0.5 (confidence theta h) then 1 else 0) /\
  (binarize_value h = 0 \/ binarize_value h = 1) /\
  binarize_value 0 = 0 /\ binarize_value 1 = 1 /\
  binarize_value (binarize_value h) = binarize_value h /\
  Np.map binarize_value (Np.map binarize_value H) = Np.map binarize_value H /\
  (forall lowpass stems win_len lpf M idx,
      create_activation_annotation lowpass stems win_len lpf theta true
      = ret (M, idx) ->
      let S := smoothed_rows lowpass lpf
                 (normalized_rows (length stems)
                    (envelope_rows stems win_len)) in
      M = Np.transpose
            (Np.A2 (time_column (Np.ncols S) win_len
                      :: map (map (fun s => binarize_value (confidence theta s)))
                             S))).
Proof.
  split.
  { unfold output_value, binarize_value, Rltb.
    destruct (Rlt_dec 0.5 (confidence theta h)); reflexivity. }
  split.
  { destruct (binarize_value_cases h) as [[_ ->] | [_ ->]]; auto. }
  split; [unfold binarize_value; rewrite Rltb_false by lra; reflexivity |].
  split; [unfold binarize_value; rewrite Rltb_true by lra; reflexivity |].
  split; [apply binarize_value_idem |].
  split.
  { rewrite np_map_map. apply np_map_ext. apply binarize_value_idem. }
  intros lowpass stems win_len lpf M idx Hrun.
  apply pipeline_inv in Hrun as (_ & _ & _ & _ & _ & -> & _).
  reflexivity.
Qed.

Lemma binarization_idempotent_two_valued_witness :
  create_activation_annotation identity_kernel [(0%nat, repeat 1 10)] 2
                               0.075 0.15 true
  = ret (activation_matrix identity_kernel [(0%nat, repeat 1 10)] 2
                           0.075 0.15 true, [0%nat]) /\
  activation_matrix identity_kernel [(0%nat, repeat 1 10)] 2 0.075 0.15 true
  = Np.transpose
      (Np.A2 (time_column
                (Np.ncols (smoothed_rows identity_kernel 0.075
                             (normalized_rows 1
                                (envelope_rows [(0%nat, repeat 1 10)] 2))))
                2
              :: map (map (fun s => binarize_value (confidence 0.15 s)))
                     (smoothed_rows identity_kernel 0.075
                        (normalized_rows 1
                           (envelope_rows [(0%nat, repeat 1 10)] 2))))).
Proof.
  assert (Hrun :
    create_activation_annotation identity_kernel [(0%nat, repeat 1 10)] 2
                                 0.075 0.15 true
    = ret (activation_matrix identity_kernel [(0%nat, repeat 1 10)] 2
                             0.075 0.15 true, [0%nat])).
  { apply (pipeline_returns identity_kernel [(0%nat, repeat 1 10)] 2
                            0.075 0.15 true 10).
    - discriminate.
    - lia.
    - repeat constructor.
    - vm_compute. lia.
    - lra. }
  split; [exact Hrun |].
  exact (proj2 (proj2 (proj2 (proj2 (proj2 (proj2
           (binarization_idempotent_two_valued 0.15 0 (Np.A0 0)))))))
           identity_kernel [(0%nat, repeat 1 10)] 2%nat 0.075 _ _ Hrun).
Defined.

(** ** Normalization *)

(** C2.  For a stacked envelope matrix of N rows whose per-frame
    cross-stem sum E0 has a positive maximum, normalization raises
    nothing and keeps the shape; entry (i, j) of its result is 0 when
    E0[j] < 0.01 (the raw sum, before scaling) and otherwise the original
    entry times the one scalar N / max(E0).  It is this normalized matrix
    that [create_activation_annotation] smooths and maps to confidences:
    for stems with these envelopes, more than nine frames and a cutoff in
    (0, 1), the call returns the matrix built from it. *)
Theorem normalization_scales_and_gates (rows : list (list R)) (F : nat)
        (Hne : rows <> [])
        (Hrect : Forall (fun r => length r = F) rows)
        (Hmax : 0 < max_of (E0_of rows)) :
  Np.sum0 (Np.A2 rows) = ret (Np.A1 (E0_of rows)) /\
  Np.max (Np.A1 (E0_of rows)) = ret (max_of (E0_of rows)) /\
  exists rows',
    normalization (length rows) (Np.A2 rows) = ret (Np.A2 rows') /\
    length rows' = length rows /\
    Forall (fun r => length r = F) rows' /\
    (forall i j, (i < length rows)%nat -> (j < F)%nat ->
      nth j (E0_of rows) 0 = Rsum (map (fun r => nth j r 0) rows) /\
      entry rows' i j
      = if Rltb (nth j (E0_of rows) 0) 0.01 then 0
        else entry rows i j * (INR (length rows) / max_of (E0_of rows))) /\
    forall (lowpass : R -> list R -> nat -> R) (stems : mtrack_stems)
           (win_len : nat) (lpf theta : R) (b : bool),
      envelope_rows stems win_len = rows -> (2 <= win_len)%nat ->
      (9 < F)%nat -> 0 < lpf < 1 ->
      create_activation_annotation lowpass stems win_len lpf theta b
      = ret (Np.transpose
               (Np.A2 (time_column
                         (Np.ncols (smoothed_rows lowpass lpf rows')) win_len
                         :: map (map (output_value theta b))
                                (smoothed_rows lowpass lpf rows'))),
             map fst stems).
Proof.
  assert (HE : E0_of rows <> []).
  { intros He. rewrite He in Hmax. unfold max_of in Hmax. simpl in Hmax. lra. }
  assert (HF : (1 <= Np.ncols rows)%nat).
  { pose proof (E0_of_length rows) as Hl.
    destruct (E0_of rows); [congruence | simpl in Hl; lia]. }
  split; [reflexivity |].
  split; [now apply max_list_ret |].
  exists (normalized_rows (length rows) rows).
  split; [now apply normalization_rows |].
  split; [apply normalized_rows_length |].
  split; [now apply normalized_rows_rect |].
  split.
  - intros i j Hi Hj. split.
    + apply nth_E0_of. rewrite (ncols_rect rows F Hne Hrect). assumption.
    + now apply entry_normalized_rows with (F := F).
  - intros lowpass stems win_len lpf theta b Hrows Hw H9 [H0 H1].
    pose proof (stems_loop_envelopes stems win_len Hw) as Hloop.
    assert (Hsne : stems <> []).
    { intros ->. apply Hne. rewrite <- Hrows. reflexivity. }
    assert (Hrate : rate_after stems None = Some Librosa.load_rate)
      by (destruct stems; [congruence | reflexivity]).
    rewrite Hrate, Hrows in Hloop.
    assert (Hlen : length rows = length stems).
    { rewrite <- Hrows. unfold envelope_rows. apply length_map. }
    rewrite (pipeline_after_loop lowpass stems win_len lpf theta b
               _ _ F Hloop Hne ltac:(lia) Hrect).
    rewrite (Rltb_true 0 lpf H0), (Rltb_true lpf 1 H1). cbn [andb].
    destruct (Nat.leb_spec F 9) as [H | _]; [lia |].
    cbv zeta. rewrite Hlen. reflexivity.
Qed.

(** Two stems, two frames; the second frame is not silent, but its raw sum
    0.003 is below the gate. *)
Lemma normalization_scales_and_gates_witness :
  [[1; 0.001]; [3; 0.002]] <> [] /\
  Forall (fun r => length r = 2%nat) [[1; 0.001]; [3; 0.002]] /\
  0 < max_of (E0_of [[1; 0.001]; [3; 0.002]]) /\
  exists rows',
    normalization 2 (Np.A2 [[1; 0.001]; [3; 0.002]]) = ret (Np.A2 rows') /\
    entry rows' 0 1 = 0 /\ entry rows' 1 1 = 0 /\
    entry rows' 0 0 = 1 * (INR 2 / max_of (E0_of [[1; 0.001]; [3; 0.002]])) /\
    entry rows' 1 0 = 3 * (INR 2 / max_of (E0_of [[1; 0.001]; [3; 0.002]])).
Proof.
  assert (Hne : [[1; 0.001]; [3; 0.002]] <> []) by discriminate.
  assert (Hrect : Forall (fun r => length r = 2%nat)
                         [[1; 0.001]; [3; 0.002]])
    by (repeat constructor).
  assert (Hmax : 0 < max_of (E0_of [[1; 0.001]; [3; 0.002]])).
  { apply Rlt_le_trans with (r2 := 1 + (3 + 0)); [lra |].
    apply max_of_upper. left. reflexivity. }
  split; [exact Hne |]. split; [exact Hrect |]. split; [exact Hmax |].
  destruct (normalization_scales_and_gates [[1; 0.001]; [3; 0.002]] 2
              Hne Hrect Hmax)
    as (_ & _ & rows' & Hnorm & _ & _ & Hentry & _).
  exists rows'. split; [exact Hnorm |].
  assert (Hlow : Rltb (nth 1 (E0_of [[1; 0.001]; [3; 0.002]]) 0) 0.01 = true).
  { apply Rltb_true.
    change (nth 1 (E0_of [[1; 0.001]; [3; 0.002]]) 0)
      with (0.001 + (0.002 + 0)). lra. }
  assert (Hhigh : Rltb (nth 0 (E0_of [[1; 0.001]; [3; 0.002]]) 0) 0.01 = false).
  { apply Rltb_false.
    change (nth 0 (E0_of [[1; 0.001]; [3; 0.002]]) 0) with (1 + (3 + 0)).
    lra. }
  split; [| split; [| split]].
  - destruct (Hentry 0%nat 1%nat ltac:(simpl; lia) ltac:(lia)) as [_ He].
    rewrite He, Hlow. reflexivity.
  - destruct (Hentry 1%nat 1%nat ltac:(simpl; lia) ltac:(lia)) as [_ He].
    rewrite He, Hlow. reflexivity.
  - destruct (Hentry 0%nat 0%nat ltac:(simpl; lia) ltac:(lia)) as [_ He].
    rewrite He, Hhigh. reflexivity.
  - destruct (Hentry 1%nat 0%nat ltac:(simpl; lia) ltac:(lia)) as [_ He].
    rewrite He, Hhigh. reflexivity.
Defined.

(** C3 as stated fails: one stem of ten zero samples, [win_len = 2].  The
    eleven frames all have E0 = 0; normalization raises nothing and
    yields the zero matrix, and the pipeline returns a matrix. *)
Lemma silent_stem_counterexample :
  E0_of (envelope_rows [(0%nat, repeat 0 10)] 2) = repeat 0 11 /\
  normalization 1 (Np.A2 (envelope_rows [(0%nat, repeat 0 10)] 2))
  = ret (Np.A2 [repeat 0 11]) /\
  create_activation_annotation identity_kernel [(0%nat, repeat 0 10)] 2
                               0.075 0.15 false
  = ret (activation_matrix identity_kernel [(0%nat, repeat 0 10)] 2
                           0.075 0.15 false, [0%nat]).
Proof.
  assert (Hrows : envelope_rows [(0%nat, repeat 0 10)] 2 = [repeat 0 11]).
  { unfold envelope_rows. cbn [map snd].
    rewrite envelope_of_silent by apply silent_repeat. reflexivity. }
  assert (HE : E0_of [repeat 0 11] = repeat 0 11).
  { unfold E0_of, Np.ncols, Np.column. cbn [hd map]. rewrite repeat_length.
    etransitivity; [| apply (map_const_seq 0 0%nat 11)].
    apply map_ext_in. intros j Hj.
    unfold Rsum. cbn [fold_right].
    rewrite nth_silent by apply silent_repeat. lra. }
  rewrite Hrows. split; [exact HE |]. split.
  - rewrite normalization_rows
      by (unfold Np.ncols; cbn [hd]; rewrite repeat_length; lia).
    rewrite (normalized_rows_silent 1 [repeat 0 11] 11).
    + cbn [map]. now rewrite map_repeat.
    + discriminate.
    + repeat constructor.
    + rewrite HE. apply silent_repeat.
  - apply (pipeline_returns identity_kernel [(0%nat, repeat 0 10)] 2
                            0.075 0.15 false 10).
    + discriminate.
    + lia.
    + repeat constructor.
    + vm_compute. lia.
    + lra.
Qed.

(** C3, amended.  When E0 is zero at every frame, no error is raised:
    [np.max(E0)] is 0, the division by it is carried out without raising,
    every frame is below the 0.01 gate, so normalization yields the zero
    matrix; with more than nine frames and a cutoff in (0, 1) the
    pipeline returns a matrix. *)
Theorem silent_input_is_gated_not_rejected
        (lowpass : R -> list R -> nat -> R) (stems : mtrack_stems)
        (win_len : nat) (lpf theta : R) (b : bool) (L : nat)
        (Hne : stems <> []) (Hw : (2 <= win_len)%nat)
        (Hlen : Forall (fun st => length (snd st) = L) stems)
        (Hzero : Forall (fun e => e = 0) (E0_of (envelope_rows stems win_len)))
        (H9 : (9 < n_frames_of L win_len)%nat) (Hlpf : 0 < lpf < 1) :
  Np.max (Np.A1 (E0_of (envelope_rows stems win_len))) = ret 0 /\
  normalization (length stems) (Np.A2 (envelope_rows stems win_len))
  = ret (Np.A2 (map (map (fun _ => 0)) (envelope_rows stems win_len))) /\
  create_activation_annotation lowpass stems win_len lpf theta b
  = ret (activation_matrix lowpass stems win_len lpf theta b, map fst stems).
Proof.
  pose proof (envelope_rows_nonempty stems win_len Hne) as Hrne.
  pose proof (envelope_rows_rect stems win_len L Hlen) as Hrect.
  pose proof (ncols_rect _ _ Hrne Hrect) as Hnc.
  pose proof (n_frames_of_pos L win_len) as Hpos.
  assert (HE : E0_of (envelope_rows stems win_len) <> []).
  { intros He. pose proof (E0_of_length (envelope_rows stems win_len)) as Hl.
    rewrite He, Hnc in Hl. simpl in Hl. lia. }
  split; [| split].
  - cbn [Np.max]. rewrite max_list_ret by assumption. f_equal.
    pose proof (max_of_in _ HE) as Hin.
    rewrite Forall_forall in Hzero. now apply Hzero.
  - rewrite normalization_rows by lia.
    now rewrite (normalized_rows_silent _ _ _ Hrne Hrect Hzero).
  - now apply pipeline_returns with (L := L).
Qed.

Lemma silent_input_is_gated_not_rejected_witness :
  Forall (fun e => e = 0)
         (E0_of (envelope_rows [(0%nat, repeat 0 24); (1%nat, repeat 0 24)] 4)) /\
  Np.max (Np.A1 (E0_of (envelope_rows
                          [(0%nat, repeat 0 24); (1%nat, repeat 0 24)] 4)))
  = ret 0 /\
  normalization 2 (Np.A2 (envelope_rows
                            [(0%nat, repeat 0 24); (1%nat, repeat 0 24)] 4))
  = ret (Np.A2 (map (map (fun _ => 0))
                    (envelope_rows
                       [(0%nat, repeat 0 24); (1%nat, repeat 0 24)] 4))) /\
  create_activation_annotation identity_kernel
    [(0%nat, repeat 0 24); (1%nat, repeat 0 24)] 4 0.075 0.15 true
  = ret (activation_matrix identity_kernel
           [(0%nat, repeat 0 24); (1%nat, repeat 0 24)] 4 0.075 0.15 true,
         [0%nat; 1%nat]).
Proof.
  assert (Hz : Forall (fun e => e = 0)
                 (E0_of (envelope_rows
                           [(0%nat, repeat 0 24); (1%nat, repeat 0 24)] 4))).
  { apply E0_of_silent, envelope_rows_silent.
    repeat constructor; apply silent_repeat. }
  split; [exact Hz |].
  apply (silent_input_is_gated_not_rejected identity_kernel
           [(0%nat, repeat 0 24); (1%nat, repeat 0 24)] 4 0.075 0.15 true 24).
  - discriminate.
  - lia.
  - repeat constructor.
  - exact Hz.
  - vm_compute. lia.
  - lra.
Defined.

(** ** Stacking *)

Lemma add_broadcast_raises (a b : list R) (e : exn) :
  Np.add_broadcast a b = raise e -> e = ValueError.
Proof.
  unfold Np.add_broadcast.
  destruct (_ =? _)%nat; [discriminate |].
  destruct (_ =? _)%nat; [discriminate |].
  destruct (_ =? _)%nat; [discriminate |].
  unfold raise. congruence.
Qed.

Lemma sum_objects_raises (acc : list R) (elems : list (list R)) (e : exn) :
  Np.sum_objects acc elems = raise e -> e = ValueError.
Proof.
  revert acc. induction elems as [| r elems IH]; intros acc; simpl.
  - discriminate.
  - destruct (Np.add_broadcast acc r) as [e' | acc'] eqn:Ha.
    + apply add_broadcast_raises in Ha. subst e'. unfold raise. simpl.
      congruence.
    + rewrite bind_ret. apply IH.
Qed.

Lemma ragged_exception_kinds (elems : list (list R)) :
  ragged_exception elems = ValueError \/ ragged_exception elems = IndexError.
Proof.
  unfold ragged_exception. destruct elems as [| r elems]; [now right |].
  destruct (Np.sum_objects r elems) as [e | [| x v]] eqn:Hs; auto.
  left. now apply sum_objects_raises in Hs.
Qed.

Lemma pipeline_ragged (lowpass : R -> list R -> nat -> R)
      (stems : mtrack_stems) (win_len : nat) (lpf theta : R) (b : bool)
      (rows : list (list R)) (idx : list nat) (rate : option R)
      (r1 r2 : list R) :
  stems_loop stems win_len (hanning win_len) [] [] None
  = ret (rows, idx, rate) ->
  In r1 rows -> In r2 rows -> length r1 <> length r2 ->
  create_activation_annotation lowpass stems win_len lpf theta b
  = raise (ragged_exception rows).
Proof.
  intros Hloop H1 H2 Hdiff.
  pose proof (array_ragged rows r1 r2 H1 H2 Hdiff) as Harr.
  unfold create_activation_annotation. cbv zeta.
  rewrite Hloop, bind_ret, Harr, bind_ret.
  destruct rows as [| r rest]; [destruct H1 |].
  rewrite normalization_objects. reflexivity.
Qed.

Lemma ragged_example_loop :
  stems_loop [(0%nat, []); (1%nat, [1; 1; 1])] 2 (hanning 2) [] [] None
  = ret (envelope_rows [(0%nat, []); (1%nat, [1; 1; 1])] 2,
         [0%nat; 1%nat], Some Librosa.load_rate).
Proof.
  apply (stems_loop_envelopes [(0%nat, []); (1%nat, [1; 1; 1])] 2). lia.
Qed.

Lemma ragged_example_exception :
  ragged_exception (envelope_rows [(0%nat, []); (1%nat, [1; 1; 1])] 2)
  = IndexError.
Proof.
  unfold ragged_exception, envelope_rows. cbn [map snd Np.sum_objects].
  unfold Np.add_broadcast. rewrite !envelope_of_length.
  change (n_frames_of (length []) 2) with 1%nat.
  change (n_frames_of (length [1; 1; 1]) 2) with 3%nat.
  cbn [Nat.eqb]. rewrite !bind_ret.
  destruct (envelope_of [1; 1; 1] 2 (hanning 2)) as [| x v] eqn:He.
  - apply (f_equal (@length R)) in He.
    rewrite envelope_of_length in He. discriminate.
  - reflexivity.
Qed.

(** C5 as stated fails: two stems whose envelopes have 1 and 3 frames.
    Stacking them does not fail: [np.array] returns an array of objects.
    The call ends later, with the [IndexError] of the column assignment,
    the very exception a call without stems ends with. *)
Lemma ragged_stack_counterexample :
  length (envelope_of [] 2 (hanning 2)) = 1%nat /\
  length (envelope_of [1; 1; 1] 2 (hanning 2)) = 3%nat /\
  Np.array (envelope_rows [(0%nat, []); (1%nat, [1; 1; 1])] 2)
  = ret (Np.AO (envelope_rows [(0%nat, []); (1%nat, [1; 1; 1])] 2)) /\
  create_activation_annotation identity_kernel
    [(0%nat, []); (1%nat, [1; 1; 1])] 2 0.075 0.15 false
  = raise IndexError /\
  create_activation_annotation identity_kernel [] 2 0.075 0.15 false
  = raise IndexError.
Proof.
  split; [rewrite envelope_of_length; reflexivity |].
  split; [rewrite envelope_of_length; reflexivity |].
  assert (Hd : length (envelope_of [] 2 (hanning 2))
               <> length (envelope_of [1; 1; 1] 2 (hanning 2)))
    by (rewrite !envelope_of_length; vm_compute; lia).
  split; [| split].
  - apply (array_ragged _ (envelope_of [] 2 (hanning 2))
                        (envelope_of [1; 1; 1] 2 (hanning 2)));
      [left; reflexivity | right; left; reflexivity | exact Hd].
  - rewrite (pipeline_ragged identity_kernel _ 2 0.075 0.15 false _ _ _
               (envelope_of [] 2 (hanning 2))
               (envelope_of [1; 1; 1] 2 (hanning 2)) ragged_example_loop);
      [| left; reflexivity | right; left; reflexivity | exact Hd].
    now rewrite ragged_example_exception.
  - rewrite pipeline_no_stems.
    rewrite (Rltb_true 0 0.075), (Rltb_true 0.075 1) by lra. reflexivity.
Qed.

(** C5, amended.  When the loop has produced the stems' envelopes and
    two of them differ in length, stacking them does not fail
    ([np.array] returns an array of objects), but the call never returns
    a matrix: it ends with the [ValueError] of the sum over axis 0 when
    the lengths cannot be broadcast, and otherwise with the [IndexError]
    of the column assignment.  No envelope is truncated or padded. *)
Theorem ragged_envelopes_fail
        (lowpass : R -> list R -> nat -> R) (stems : mtrack_stems)
        (win_len : nat) (lpf theta : R) (b : bool)
        (rows : list (list R)) (idx : list nat) (rate : option R)
        (r1 r2 : list R)
        (Hloop : stems_loop stems win_len (hanning win_len) [] [] None
                 = ret (rows, idx, rate))
        (H1 : In r1 rows) (H2 : In r2 rows)
        (Hdiff : length r1 <> length r2) :
  Np.array rows = ret (Np.AO rows) /\
  create_activation_annotation lowpass stems win_len lpf theta b
  = raise (ragged_exception rows) /\
  (ragged_exception rows = ValueError \/ ragged_exception rows = IndexError) /\
  forall out,
    create_activation_annotation lowpass stems win_len lpf theta b <> ret out.
Proof.
  pose proof (pipeline_ragged lowpass stems win_len lpf theta b
                rows idx rate r1 r2 Hloop H1 H2 Hdiff) as Hrun.
  split; [now apply array_ragged with (r1 := r1) (r2 := r2) |].
  split; [exact Hrun |].
  split; [apply ragged_exception_kinds |].
  intros out. rewrite Hrun. discriminate.
Qed.

Lemma ragged_envelopes_fail_witness :
  stems_loop [(0%nat, []); (1%nat, [1; 1; 1])] 2 (hanning 2) [] [] None
  = ret (envelope_rows [(0%nat, []); (1%nat, [1; 1; 1])] 2,
         [0%nat; 1%nat], Some Librosa.load_rate) /\
  length (envelope_of [] 2 (hanning 2))
  <> length (envelope_of [1; 1; 1] 2 (hanning 2)) /\
  create_activation_annotation identity_kernel
    [(0%nat, []); (1%nat, [1; 1; 1])] 2 0.075 0.15 false
  = raise (ragged_exception
             (envelope_rows [(0%nat, []); (1%nat, [1; 1; 1])] 2)).
Proof.
  assert (Hd : length (envelope_of [] 2 (hanning 2))
               <> length (envelope_of [1; 1; 1] 2 (hanning 2)))
    by (rewrite !envelope_of_length; vm_compute; lia).
  split; [exact ragged_example_loop |]. split; [exact Hd |].
  apply (ragged_envelopes_fail identity_kernel
           [(0%nat, []); (1%nat, [1; 1; 1])] 2 0.075 0.15 false
           _ _ _ (envelope_of [] 2 (hanning 2))
           (envelope_of [1; 1; 1] 2 (hanning 2)) ragged_example_loop).
  - left. reflexivity.
  - right. left. reflexivity.
  - exact Hd.
Defined.

(** ** No stems *)

(** C10 as stated fails in the cause it names.  Without stems the empty
    list becomes an array of shape (0,); its sum over axis 0 is the
    scalar 0, whose maximum is 0: [np.max] raises nothing.  The call ends
    with the [IndexError] of [filtfilt], or with the [ValueError] of
    [butter] for a cutoff outside (0, 1); neither is the exception of an
    unbound [rate], which is never read. *)
Lemma empty_sum_maximum_counterexample :
  Np.array [] = ret (Np.A1 []) /\
  Np.sum0 (Np.A1 []) = ret (Np.A0 0) /\
  Np.max (Np.A0 0) = ret 0 /\
  create_activation_annotation identity_kernel [] 4096 0.075 0.15 false
  = raise IndexError /\
  create_activation_annotation identity_kernel [] 4096 2 0.15 false
  = raise ValueError /\
  create_activation_annotation identity_kernel [] 4096 0.075 0.15 false
  <> raise UnboundLocalError.
Proof.
  split; [reflexivity |]. split; [reflexivity |]. split; [reflexivity |].
  rewrite !pipeline_no_stems.
  rewrite (Rltb_true 0 0.075), (Rltb_true 0.075 1), (Rltb_false 2 1) by lra.
  rewrite andb_false_r. cbn [andb].
  split; [reflexivity |]. split; [reflexivity | discriminate].
Qed.

(** C10, amended.  For a multitrack without stems the call neither
    returns a matrix nor reaches the time axis: it ends with an
    exception.  The loop binds nothing and leaves [H] empty.  The empty
    list becomes an array of shape (0,), whose sum over axis 0 is the
    scalar 0; its maximum is 0 and raises nothing, and the array passes
    through normalization.  [filtfilt] then finds no second axis and
    raises [IndexError], unless [butter] has already raised [ValueError]
    for a cutoff outside (0, 1).  [rate] is never read. *)
Theorem no_stems_unhandled_exception
        (lowpass : R -> list R -> nat -> R) (win_len : nat)
        (lpf theta : R) (b : bool) :
  stems_loop [] win_len (hanning win_len) [] [] None = ret ([], [], None) /\
  Np.array [] = ret (Np.A1 []) /\
  Np.sum0 (Np.A1 []) = ret (Np.A0 0) /\
  Np.max (Np.A0 0) = ret 0 /\
  normalization 0 (Np.A1 []) = ret (Np.A1 []) /\
  Scipy.filtfilt lowpass lpf (Np.A1 []) = raise IndexError /\
  create_activation_annotation lowpass [] win_len lpf theta b
  = raise (if Rltb 0 lpf && Rltb lpf 1 then IndexError else ValueError) /\
  create_activation_annotation lowpass [] win_len lpf theta b
  <> raise UnboundLocalError /\
  forall out,
    create_activation_annotation lowpass [] win_len lpf theta b <> ret out.
Proof.
  split; [reflexivity |]. split; [reflexivity |]. split; [reflexivity |].
  split; [reflexivity |].
  split.
  { unfold normalization. cbn [Np.sum0]. rewrite bind_ret.
    cbn [Np.max]. rewrite bind_ret. cbn [Np.map map Np.zero_where_lt].
    destruct (Rltb (Rsum []) 0.01); reflexivity. }
  split; [reflexivity |].
  split; [apply pipeline_no_stems |].
  split; [rewrite pipeline_no_stems;
          destruct (Rltb 0 lpf && Rltb lpf 1); discriminate |].
  intros out. rewrite pipeline_no_stems. discriminate.
Qed.

(** ** Order of the stems *)

(** C1 as stated fails: a stem mapping that iterates stem 2 before
    stem 1.  The envelope matrix has the envelope of stem 2 as its first
    row, and the returned index list is [2; 1], which is not ascending. *)
Lemma descending_stems_counterexample :
  stems_loop [(2%nat, repeat 1 10); (1%nat, repeat 0 10)] 2 (hanning 2)
             [] [] None
  = ret ([envelope_of (repeat 1 10) 2 (hanning 2);
          envelope_of (repeat 0 10) 2 (hanning 2)],
         [2%nat; 1%nat], Some Librosa.load_rate) /\
  create_activation_annotation identity_kernel
    [(2%nat, repeat 1 10); (1%nat, repeat 0 10)] 2 0.075 0.15 false
  = ret (activation_matrix identity_kernel
           [(2%nat, repeat 1 10); (1%nat, repeat 0 10)] 2 0.075 0.15 false,
         [2%nat; 1%nat]) /\
  ascendingb [2%nat; 1%nat] = false.
Proof.
  split; [| split; [| reflexivity]].
  - apply (stems_loop_envelopes
             [(2%nat, repeat 1 10); (1%nat, repeat 0 10)] 2). lia.
  - apply (pipeline_returns identity_kernel
             [(2%nat, repeat 1 10); (1%nat, repeat 0 10)] 2
             0.075 0.15 false 10).
    + discriminate.
    + lia.
    + repeat constructor.
    + vm_compute. lia.
    + lra.
Qed.

(** C1, amended.  In every run that returns, the rows of the envelope
    matrix, the stem columns of the returned matrix and the returned
    index list follow the iteration order of the stem mapping: row [i] of
    the envelope matrix is the envelope of the [i]-th stem iterated, each
    returned row is the time stamp followed by one entry per stem in that
    order, and the index list is the list of keys in that order.  Nothing
    is sorted, so the order is ascending exactly when the mapping
    iterates in ascending order. *)
Theorem stems_follow_iteration_order
        (lowpass : R -> list R -> nat -> R) (stems : mtrack_stems)
        (win_len : nat) (lpf theta : R) (b : bool)
        (M : Np.ndarray) (idx : list nat)
        (Hrun : create_activation_annotation lowpass stems win_len lpf theta b
                = ret (M, idx)) :
  idx = map fst stems /\
  stems_loop stems win_len (hanning win_len) [] [] None
  = ret (map (fun st => envelope_of (snd st) win_len (hanning win_len)) stems,
         idx, Some Librosa.load_rate) /\
  Forall2 (fun st row =>
             track_activation (snd st) win_len (hanning win_len) = ret row)
          stems (envelope_rows stems win_len) /\
  Np.array (envelope_rows stems win_len)
  = ret (Np.A2 (envelope_rows stems win_len)) /\
  M = Np.A2 (map (fun f =>
                    INR (f * (win_len / 2)) / Librosa.load_rate
                    :: map (fun st =>
                              nth f (stem_row lowpass stems win_len lpf theta b st) 0)
                           stems)
                 (seq 0 (Np.ncols (envelope_rows stems win_len)))) /\
  ascendingb idx = ascendingb (map fst stems).
Proof.
  apply pipeline_inv in Hrun as (Hne & Hw & Hrect & H9 & Hlpf & -> & ->).
  pose proof (envelope_rows_nonempty stems win_len Hne) as Hrne.
  split; [reflexivity |].
  split.
  { rewrite stems_loop_envelopes by assumption.
    destruct stems; [congruence | reflexivity]. }
  split.
  { unfold envelope_rows. clear -Hw.
    induction stems as [| st stems IH]; constructor; auto.
    apply track_activation_ok; [assumption | apply hanning_length]. }
  split; [now apply array_rect with (F := Np.ncols (envelope_rows stems win_len)) |].
  split; [| reflexivity].
  rewrite activation_matrix_rows, stem_rows_per_stem. f_equal.
  set (F := Np.ncols (envelope_rows stems win_len)) in *.
  assert (Hn : Forall (fun r => length r = F)
                      (normalized_rows (length stems) (envelope_rows stems win_len)))
    by now apply normalized_rows_rect.
  assert (Hnne : normalized_rows (length stems) (envelope_rows stems win_len) <> []).
  { unfold normalized_rows. intros He. apply map_eq_nil in He. contradiction. }
  pose proof (smoothed_rows_rect lowpass lpf _ F Hn) as Hs.
  rewrite (ncols_rect _ F) ; [| | exact Hs].
  - apply map_ext. intros f. now rewrite map_map.
  - unfold smoothed_rows. intros He. apply map_eq_nil in He. contradiction.
Qed.

Lemma stems_follow_iteration_order_witness :
  create_activation_annotation identity_kernel
    [(1%nat, repeat 1 10); (2%nat, repeat 0.5 10)] 2 0.075 0.15 false
  = ret (activation_matrix identity_kernel
           [(1%nat, repeat 1 10); (2%nat, repeat 0.5 10)] 2 0.075 0.15 false,
         [1%nat; 2%nat]) /\
  [1%nat; 2%nat] = map fst [(1%nat, repeat 1 10); (2%nat, repeat 0.5 10)] /\
  ascendingb [1%nat; 2%nat]
  = ascendingb (map fst [(1%nat, repeat 1 10); (2%nat, repeat 0.5 10)]).
Proof.
  assert (Hrun :
    create_activation_annotation identity_kernel
      [(1%nat, repeat 1 10); (2%nat, repeat 0.5 10)] 2 0.075 0.15 false
    = ret (activation_matrix identity_kernel
             [(1%nat, repeat 1 10); (2%nat, repeat 0.5 10)] 2 0.075 0.15 false,
           [1%nat; 2%nat])).
  { apply (pipeline_returns identity_kernel
             [(1%nat, repeat 1 10); (2%nat, repeat 0.5 10)] 2
             0.075 0.15 false 10).
    - discriminate.
    - lia.
    - repeat constructor.
    - vm_compute. lia.
    - lra. }
  split; [exact Hrun |].
  pose proof (stems_follow_iteration_order _ _ _ _ _ _ _ _ Hrun)
    as (H1 & _ & _ & _ & _ & H6).
  split; [exact H1 | exact H6].
Defined.

(** ** Odd window lengths *)

(** C4 as stated fails: [win_len = 3].  The extractor proceeds with
    [hop_len = 1], cuts the padded waveform 0 0 1 1 1 0 into four frames
    and returns their envelope values; the pipeline returns a matrix. *)
Lemma odd_win_len_counterexample :
  Nat.odd 3 = true /\ (3 / 2 = 1)%nat /\
  track_activation [1; 1; 1] 3 (hanning 3)
  = ret [frame_envelope (hanning 3) [0; 0; 1];
         frame_envelope (hanning 3) [0; 1; 1];
         frame_envelope (hanning 3) [1; 1; 1];
         frame_envelope (hanning 3) [1; 1; 0]] /\
  create_activation_annotation identity_kernel [(0%nat, repeat 1 12)] 3
                               0.075 0.15 false
  = ret (activation_matrix identity_kernel [(0%nat, repeat 1 12)] 3
                           0.075 0.15 false, [0%nat]).
Proof.
  split; [reflexivity |]. split; [reflexivity |]. split.
  - rewrite track_activation_ok; [| lia | apply hanning_length].
    generalize (hanning 3). intros w. reflexivity.
  - apply (pipeline_returns identity_kernel [(0%nat, repeat 1 12)] 3
                            0.075 0.15 false 12).
    + discriminate.
    + lia.
    + repeat constructor.
    + vm_compute. lia.
    + lra.
Qed.

(** C4, amended.  An odd [win_len] of at least 3 raises nothing: the
    hop length is [win_len // 2 = (win_len - 1) / 2], the quotient
    rounded down, and every stem's envelope is extracted with it; with
    stems of one length, more than nine frames and a cutoff in (0, 1)
    the pipeline returns a matrix.  (With [win_len = 1] the hop length
    is 0, which [librosa.util.frame] rejects.) *)
Theorem odd_win_len_rounds_hop_down
        (lowpass : R -> list R -> nat -> R) (stems : mtrack_stems)
        (win_len : nat) (lpf theta : R) (b : bool) (L : nat)
        (Hodd : Nat.odd win_len = true) (H3 : (3 <= win_len)%nat)
        (Hne : stems <> [])
        (Hlen : Forall (fun st => length (snd st) = L) stems)
        (H9 : (9 < n_frames_of L win_len)%nat) (Hlpf : 0 < lpf < 1) :
  (2 * (win_len / 2) + 1 = win_len)%nat /\
  (forall wave,
      track_activation wave win_len (hanning win_len)
      = ret (envelope_of wave win_len (hanning win_len)) /\
      length (envelope_of wave win_len (hanning win_len))
      = (1 + (length (padded_wave wave win_len) - win_len) / (win_len / 2))%nat) /\
  create_activation_annotation lowpass stems win_len lpf theta b
  = ret (activation_matrix lowpass stems win_len lpf theta b, map fst stems) /\
  (forall wave win, track_activation wave 1 win = raise ParameterError).
Proof.
  split.
  { apply Nat.odd_spec in Hodd as [m Hm]. subst win_len.
    replace ((2 * m + 1) / 2)%nat with m; [lia |].
    apply Nat.div_unique with (r := 1%nat); lia. }
  split.
  { intros wave. split.
    - apply track_activation_ok; [lia | apply hanning_length].
    - rewrite envelope_of_length, padded_wave_length. reflexivity. }
  split; [apply pipeline_returns with (L := L); auto; lia |].
  apply track_activation_win1.
Qed.

Lemma odd_win_len_rounds_hop_down_witness :
  Nat.odd 5 = true /\ (3 <= 5)%nat /\ (9 < n_frames_of 30 5)%nat /\
  (2 * (5 / 2) + 1 = 5)%nat /\
  create_activation_annotation identity_kernel [(0%nat, repeat 1 30)] 5
                               0.075 0.15 false
  = ret (activation_matrix identity_kernel [(0%nat, repeat 1 30)] 5
                           0.075 0.15 false, [0%nat]).
Proof.
  split; [reflexivity |]. split; [lia |]. split; [vm_compute; lia |].
  pose proof (odd_win_len_rounds_hop_down identity_kernel
                [(0%nat, repeat 1 30)] 5 0.075 0.15 false 30) as H.
  destruct H as (H1 & _ & H3 & _).
  - reflexivity.
  - lia.
  - discriminate.
  - repeat constructor.
  - vm_compute. lia.
  - lra.
  - split; [exact H1 | exact H3].
Defined.

(** * Further properties of the code *)

(** ** Half-wave rectification *)

Lemma hwr_max (x : R) : hwr x = Rmax x 0.
Proof.
  unfold Rmax. destruct (Rle_dec x 0) as [H | H].
  - now apply hwr_neg.
  - apply hwr_pos. lra.
Qed.

Lemma hwr_idem (x : R) : hwr (hwr x) = hwr x.
Proof. apply hwr_pos, hwr_nonneg. Qed.

(** X1.  [hwr] is [max(x, 0)]: it keeps a non-negative sample, sends a
    negative one to 0, never lowers a sample and is idempotent. *)
Theorem hwr_is_positive_part (x : R) :
  hwr x = Rmax x 0 /\ x <= hwr x /\ 0 <= hwr x /\ hwr (hwr x) = hwr x /\
  (hwr x = 0 <-> x <= 0).
Proof.
  split; [apply hwr_max |].
  split; [rewrite hwr_max; apply Rmax_l |].
  split; [apply hwr_nonneg |].
  split; [apply hwr_idem |].
  split.
  - intros H0. destruct (Rle_dec x 0) as [H | H]; [assumption |].
    rewrite hwr_pos in H0 by lra. lra.
  - apply hwr_neg.
Qed.

(** ** Frame count *)

Lemma even_half (win_len : nat) :
  Nat.even win_len = true -> (win_len = 2 * (win_len / 2))%nat.
Proof.
  intros He. apply Nat.even_spec in He as [h ->].
  replace (2 * h / 2)%nat with h; [reflexivity |].
  rewrite Nat.mul_comm. symmetry. apply Nat.div_mul. lia.
Qed.

Lemma n_frames_of_even (L h : nat) :
  (1 <= h)%nat ->
  n_frames_of L (2 * h) = (2 * ceil_div (h + L) (2 * h) - 1)%nat /\
  ((n_frames_of L (2 * h) - 1) * h + 2 * h
   = 2 * h * ceil_div (h + L) (2 * h))%nat.
Proof.
  intros Hh. unfold n_frames_of. cbv zeta.
  replace (2 * h / 2)%nat with h
    by (rewrite Nat.mul_comm; symmetry; apply Nat.div_mul; lia).
  replace (2 * h - h)%nat with h by lia.
  set (c := ceil_div (h + L) (2 * h)).
  assert (Hc : (1 <= c)%nat) by (apply ceil_div_pos; lia).
  replace (2 * h * c - 2 * h)%nat with ((2 * (c - 1)) * h)%nat by nia.
  rewrite Nat.div_mul by lia. split; nia.
Qed.

(** X2.  For an even window length the extractor returns
    2 * ceil((win_len / 2 + len(wave)) / win_len) - 1 values, an odd
    number, and the frames tile the padded waveform: the last frame ends
    exactly at its end. *)
Theorem even_window_frame_count (wave win : list R) (win_len : nat)
        (Heven : Nat.even win_len = true) (Hw : (2 <= win_len)%nat)
        (Hwin : length win = win_len) :
  exists env,
    track_activation wave win_len win = ret env /\
    length env
    = (2 * ceil_div (win_len / 2 + length wave) win_len - 1)%nat /\
    Nat.odd (length env) = true /\
    ((length env - 1) * (win_len / 2) + win_len
     = length (padded_wave wave win_len))%nat.
Proof.
  exists (envelope_of wave win_len win).
  split; [now apply track_activation_ok |].
  rewrite envelope_of_length, padded_wave_length.
  pose proof (even_half win_len Heven) as Hh.
  set (h := (win_len / 2)%nat) in *.
  assert (Hh1 : (1 <= h)%nat) by lia.
  rewrite Hh.
  destruct (n_frames_of_even (length wave) h Hh1) as [Hn Ht].
  replace (2 * h - h)%nat with h by lia.
  split; [exact Hn |]. split; [| exact Ht].
  rewrite Hn.
  assert (Hc : (1 <= ceil_div (h + length wave) (2 * h))%nat)
    by (apply ceil_div_pos; lia).
  apply Nat.odd_spec.
  exists (ceil_div (h + length wave) (2 * h) - 1)%nat. lia.
Qed.

Lemma even_window_frame_count_witness :
  Nat.even 8 = true /\ (2 <= 8)%nat /\
  exists env,
    track_activation (repeat 0 8 ++ repeat 1 8) 8 (hanning 8) = ret env /\
    length env
    = (2 * ceil_div (8 / 2 + length (repeat 0%R 8 ++ repeat 1%R 8)) 8 - 1)%nat /\
    Nat.odd (length env) = true /\
    ((length env - 1) * (8 / 2) + 8
     = length (padded_wave (repeat 0%R 8 ++ repeat 1%R 8) 8))%nat.
Proof.
  split; [reflexivity |]. split; [lia |].
  apply (even_window_frame_count (repeat 0 8 ++ repeat 1 8) (hanning 8) 8).
  - reflexivity.
  - lia.
  - apply hanning_length.
Defined.

(** ** Sample-wise transformations of the waveform *)

Lemma pad_before_map (f : R -> R) (n : nat) (wave : list R) :
  f 0 = 0 -> Np.pad_before n (map f wave) = map f (Np.pad_before n wave).
Proof.
  intros Hf. unfold Np.pad_before.
  now rewrite map_app, map_repeat, Hf.
Qed.

Lemma fix_length_map (f : R -> R) (data : list R) (size : nat) :
  f 0 = 0 ->
  Librosa.fix_length (map f data) size = map f (Librosa.fix_length data size).
Proof.
  intros Hf. unfold Librosa.fix_length. cbv zeta. rewrite length_map.
  destruct (size <? length data)%nat; [apply firstn_map |].
  destruct (length data <? size)%nat; [| reflexivity].
  now rewrite map_app, map_repeat, Hf.
Qed.

Lemma frame_map (f : R -> R) (x : list R) (frame_length hop_length : nat) :
  Librosa.frame (map f x) frame_length hop_length
  = result_map (map (map f)) (Librosa.frame x frame_length hop_length).
Proof.
  unfold Librosa.frame. rewrite length_map.
  destruct (length x <? frame_length)%nat; [reflexivity |].
  destruct (hop_length <? 1)%nat; [reflexivity |].
  cbv zeta. unfold ret, result_map. f_equal.
  rewrite map_map. apply map_ext. intros i.
  now rewrite skipn_map, firstn_map.
Qed.

Lemma zip_with_scale_l (k : R) (l v : list R) :
  zip_with Rmult (map (Rmult k) l) v = map (Rmult k) (zip_with Rmult l v).
Proof.
  revert v. induction l as [| x l IH]; intros [| y v]; simpl; try reflexivity.
  rewrite IH. f_equal. ring.
Qed.

Lemma hd_scale (k : R) (l : list R) : hd 0 (map (Rmult k) l) = k * hd 0 l.
Proof. destruct l; simpl; [ring | reflexivity]. Qed.

Lemma mul_rows_scale (k : R) (m : nat) (rows : list (list R)) (v : list R) :
  Np.mul_rows m (map (map (Rmult k)) rows) v
  = result_map (map (map (Rmult k))) (Np.mul_rows m rows v).
Proof.
  unfold Np.mul_rows. cbv zeta.
  destruct (m =? length v)%nat.
  { unfold ret, result_map. f_equal. rewrite !map_map.
    apply map_ext. intros r. apply zip_with_scale_l. }
  destruct (length v =? 1)%nat.
  { unfold ret, result_map. f_equal. rewrite !map_map.
    apply map_ext. intros r. rewrite !map_map.
    apply map_ext. intros x. ring. }
  destruct (m =? 1)%nat; [| reflexivity].
  unfold ret, result_map. f_equal. rewrite !map_map.
  apply map_ext. intros r. rewrite map_map.
  apply map_ext. intros w. rewrite hd_scale. ring.
Qed.

Lemma Rsum_scale (k : R) (l : list R) : Rsum (map (Rmult k) l) = k * Rsum l.
Proof. induction l as [| x l IH]; simpl; [ring | rewrite IH; ring]. Qed.

Lemma mean_scale (k : R) (l : list R) :
  Np.mean (map (Rmult k) l) = k * Np.mean l.
Proof.
  unfold Np.mean. rewrite Rsum_scale, length_map. unfold Rdiv. ring.
Qed.

(** A sample-wise change [f] of the waveform that fixes 0 and multiplies
    the compressed rectified sample by [k] multiplies the envelope by
    [k], and changes nothing about what is raised. *)
Lemma track_activation_map (f : R -> R) (k : R) (wave : list R)
      (win_len : nat) (win : list R) :
  f 0 = 0 -> (forall x, sqrt (hwr (f x)) = k * sqrt (hwr x)) ->
  track_activation (map f wave) win_len win
  = result_map (map (Rmult k)) (track_activation wave win_len win).
Proof.
  intros Hf Hk. unfold track_activation. cbv zeta.
  destruct (win_len =? 0)%nat; [reflexivity |].
  rewrite pad_before_map by assumption.
  rewrite length_map, fix_length_map by assumption.
  rewrite frame_map.
  destruct (Librosa.frame _ win_len (win_len / 2)) as [e | wavmat];
    [reflexivity |].
  cbn [result_map]. change (bind (inr ?a) ?g) with (g a). cbv beta.
  replace (map (map (fun x => sqrt (hwr x))) (map (map f) wavmat))
    with (map (map (Rmult k)) (map (map (fun x => sqrt (hwr x))) wavmat)).
  2:{ rewrite !map_map. apply map_ext. intros r. rewrite !map_map.
      apply map_ext. intros x. symmetry. apply Hk. }
  rewrite mul_rows_scale.
  destruct (Np.mul_rows win_len _ win) as [e | weighted]; [reflexivity |].
  unfold bind, ret, result_map. f_equal.
  rewrite !map_map. apply map_ext. intros r. apply mean_scale.
Qed.

Lemma result_map_id {A : Type} (f : A -> A) (c : result A) :
  (forall a, f a = a) -> result_map f c = c.
Proof. intros H. destruct c; simpl; [reflexivity | now rewrite H]. Qed.

Lemma map_scale_1 (l : list R) : map (Rmult 1) l = l.
Proof.
  induction l as [| x l IH]; simpl; [reflexivity |].
  rewrite IH. f_equal. ring.
Qed.


Lemma sqrt_hwr_scale (c x : R) :
  0 <= c -> sqrt (hwr (c * x)) = sqrt c * sqrt (hwr x).
Proof.
  intros Hc.
  assert (H : hwr (c * x) = c * hwr x).
  { unfold hwr. rewrite Rabs_mult, (Rabs_right c) by lra. field. }
  rewrite H. apply sqrt_mult; [assumption | apply hwr_nonneg].
Qed.

(** X4.  A gain [c >= 0] on the waveform multiplies every envelope value
    by [sqrt c] (the square-root compression), and changes nothing about
    what is raised. *)
Theorem envelope_of_scaled_waveform (c : R) (wave : list R) (win_len : nat)
        (win : list R) (Hc : 0 <= c) :
  track_activation (map (Rmult c) wave) win_len win
  = result_map (map (Rmult (sqrt c))) (track_activation wave win_len win).
Proof.
  apply track_activation_map.
  - ring.
  - intros x. now apply sqrt_hwr_scale.
Qed.

Lemma envelope_of_scaled_waveform_witness :
  0 <= 4 /\
  track_activation (map (Rmult 4) [1; -1; 0.5]) 2 (hanning 2)
  = result_map (map (Rmult (sqrt 4)))
               (track_activation [1; -1; 0.5] 2 (hanning 2)).
Proof.
  split; [lra |].
  apply (envelope_of_scaled_waveform 4 [1; -1; 0.5] 2 (hanning 2)). lra.
Defined.

(** ** Waveforms without positive samples, and empty ones *)

Lemma map_hwr_nonpositive (wave : list R) :
  Forall (fun x => x <= 0) wave -> silent (map hwr wave).
Proof.
  intros H. apply Forall_forall. intros y Hy.
  apply in_map_iff in Hy as [x [<- Hx]].
  rewrite Forall_forall in H. now apply hwr_neg, H.
Qed.

Lemma track_activation_nonpositive (wave win : list R) (win_len : nat) :
  (2 <= win_len)%nat -> length win = win_len ->
  Forall (fun x => x <= 0) wave ->
  track_activation wave win_len win
  = ret (repeat 0 (n_frames_of (length wave) win_len)).
Proof.
  intros Hw Hwin Hneg.
  pose proof (track_activation_map hwr 1 wave win_len win) as Hm.
  rewrite result_map_id in Hm by apply map_scale_1.
  rewrite <- Hm.
  - rewrite track_activation_ok by assumption.
    rewrite envelope_of_silent by now apply map_hwr_nonpositive.
    now rewrite length_map.
  - apply hwr_neg. lra.
  - intros x. rewrite hwr_idem. ring.
Qed.



Lemma n_frames_of_empty (win_len : nat) :
  (2 <= win_len)%nat -> n_frames_of 0 win_len = 1%nat.
Proof.
  intros Hw. pose proof (half_lt win_len Hw) as [Hh1 Hh2].
  unfold n_frames_of. cbv zeta. rewrite Nat.add_0_r.
  set (n := (win_len - win_len / 2)%nat).
  assert (Hn : (1 <= n < win_len)%nat) by (unfold n; lia).
  assert (Hc : ceil_div n win_len = 1%nat).
  { unfold ceil_div. rewrite Nat.mod_small, Nat.div_small by lia.
    destruct (Nat.eqb_spec n 0); [lia | reflexivity]. }
  rewrite Hc, Nat.mul_1_r, Nat.sub_diag.
  rewrite Nat.Div0.div_0_l. reflexivity.
Qed.

(** X6.  An empty waveform is not rejected: for every window length of
    at least 2 the padding alone makes one frame, and the extractor
    returns the one-value envelope 0. *)
Theorem empty_waveform_one_zero_frame (win : list R) (win_len : nat)
        (Hw : (2 <= win_len)%nat) (Hwin : length win = win_len) :
  track_activation [] win_len win = ret [0].
Proof.
  rewrite track_activation_nonpositive by (try assumption; constructor).
  cbn [length]. now rewrite n_frames_of_empty.
Qed.

Lemma empty_waveform_one_zero_frame_witness :
  (2 <= 4096)%nat /\ track_activation [] 4096 (hanning 4096) = ret [0].
Proof.
  split; [lia |].
  apply (empty_waveform_one_zero_frame (hanning 4096) 4096).
  - lia.
  - apply hanning_length.
Defined.

(** ** Windows of the wrong length, window lengths below 2 *)

(** X7.  A window whose length is neither [win_len] nor 1 cannot be
    broadcast against the frames: the extractor raises [ValueError]. *)
Theorem window_length_mismatch_raises (wave win : list R) (win_len : nat)
        (Hw : (2 <= win_len)%nat)
        (Hne : length win <> win_len) (Hne1 : length win <> 1%nat) :
  track_activation wave win_len win = raise ValueError.
Proof.
  pose proof (half_lt win_len Hw) as [Hh1 Hh2].
  unfold track_activation. cbv zeta.
  destruct (Nat.eqb_spec win_len 0) as [? | _]; [lia |].
  fold (padded_wave wave win_len).
  unfold Librosa.frame. rewrite padded_wave_length.
  set (n := (win_len - win_len / 2 + length wave)%nat).
  assert (Hc : (1 <= ceil_div n win_len)%nat)
    by (apply ceil_div_pos; unfold n; lia).
  destruct (Nat.ltb_spec (win_len * ceil_div n win_len) win_len) as [Hlt | _];
    [nia |].
  destruct (Nat.ltb_spec (win_len / 2) 1) as [Hlt | _]; [lia |].
  cbv zeta. rewrite bind_ret. unfold Np.mul_rows. cbv zeta.
  destruct (Nat.eqb_spec win_len (length win)) as [? | _]; [congruence |].
  destruct (Nat.eqb_spec (length win) 1) as [? | _]; [congruence |].
  destruct (Nat.eqb_spec win_len 1) as [? | _]; [lia |].
  reflexivity.
Qed.

Lemma window_length_mismatch_raises_witness :
  (2 <= 4)%nat /\ length (hanning 3) <> 4%nat /\ length (hanning 3) <> 1%nat /\
  track_activation [1; 2; 3] 4 (hanning 3) = raise ValueError.
Proof.
  split; [lia |].
  split; [rewrite hanning_length; lia |].
  split; [rewrite hanning_length; lia |].
  apply (window_length_mismatch_raises [1; 2; 3] (hanning 3) 4).
  - lia.
  - rewrite hanning_length. lia.
  - rewrite hanning_length. lia.
Defined.

Lemma stems_loop_first_raises (stem_idx : nat) (audio : list R)
      (stems : mtrack_stems) (win_len : nat) (win : list R) (e : exn)
      (H : list (list R)) (index_list : list nat) (rate : option R) :
  track_activation audio win_len win = raise e ->
  stems_loop ((stem_idx, audio) :: stems) win_len win H index_list rate
  = raise e.
Proof. intros He. cbn [stems_loop]. rewrite He. reflexivity. Qed.

(** X8.  With at least one stem, a window length of 0 ends the call with
    [ZeroDivisionError] and a window length of 1 with librosa's
    [ParameterError] (the hop length is 0), both raised for the first
    stem and whatever the other arguments. *)
Theorem window_length_below_two_raises
        (lowpass : R -> list R -> nat -> R) (stems : mtrack_stems)
        (lpf theta : R) (b : bool) (Hne : stems <> []) :
  create_activation_annotation lowpass stems 0 lpf theta b
  = raise ZeroDivisionError /\
  create_activation_annotation lowpass stems 1 lpf theta b
  = raise ParameterError.
Proof.
  destruct stems as [| [stem_idx audio] stems]; [congruence |].
  split; unfold create_activation_annotation; cbv zeta.
  - rewrite (stems_loop_first_raises _ _ _ _ _ ZeroDivisionError)
      by apply track_activation_win0.
    reflexivity.
  - rewrite (stems_loop_first_raises _ _ _ _ _ ParameterError)
      by apply track_activation_win1.
    reflexivity.
Qed.

Lemma window_length_below_two_raises_witness :
  [(0%nat, [1; 2; 3])] <> [] /\
  create_activation_annotation identity_kernel [(0%nat, [1; 2; 3])] 0
                               0.075 0.15 false
  = raise ZeroDivisionError /\
  create_activation_annotation identity_kernel [(0%nat, [1; 2; 3])] 1
                               0.075 0.15 false
  = raise ParameterError.
Proof.
  split; [discriminate |].
  apply (window_length_below_two_raises identity_kernel
           [(0%nat, [1; 2; 3])] 0.075 0.15 false).
  discriminate.
Defined.

(** ** Bounds on the window and on the envelope *)

Lemma cos_lt_1 (x : R) : 0 < x < 2 * PI -> cos x < 1.
Proof.
  intros [H0 H2].
  replace x with (2 * (x / 2)) by field.
  rewrite cos_2a_sin.
  assert (Hs : 0 < sin (x / 2)) by (apply sin_gt_0; lra).
  nra.
Qed.

Lemma hann_sample_inner_pos (n k : nat) :
  (k < n)%nat -> 0 < Scipy.hann_sample (n + 2) (S k).
Proof.
  intros Hk. unfold Scipy.hann_sample.
  replace (n + 2 - 1)%nat with (S n) by lia.
  assert (Hlt : INR (S k) < INR (S n)) by (apply lt_INR; lia).
  assert (Hk0 : 0 < INR (S k)) by (apply lt_0_INR; lia).
  pose proof PI_RGT_0 as Hpi.
  assert (Hc : cos (2 * PI * INR (S k) / INR (S n)) < 1).
  { apply cos_lt_1. generalize dependent (INR (S n)).
    generalize dependent (INR (S k)). intros a Ha d Hd. split.
    - apply Rdiv_lt_0_compat; nra.
    - apply Rmult_lt_reg_r with (r := d); [lra |].
      unfold Rdiv. rewrite Rmult_assoc, Rinv_l by lra. nra. }
  lra.
Qed.

Lemma hann_sample_le_1 (M n : nat) : Scipy.hann_sample M n <= 1.
Proof.
  unfold Scipy.hann_sample.
  pose proof (COS_bound (2 * PI * INR n / INR (M - 1))) as [Hc _]. lra.
Qed.

Lemma hanning_bounds (win_len : nat) :
  Forall (fun w => 0 < w <= 1) (hanning win_len).
Proof.
  rewrite hanning_samples. unfold spec_trimmed_hann.
  apply Forall_forall. intros w Hw.
  apply in_map_iff in Hw as [k [<- Hk]]. apply in_seq in Hk. split.
  - apply hann_sample_inner_pos. lia.
  - apply hann_sample_le_1.
Qed.

(** X9.  Every sample of the analysis window is strictly positive and at
    most 1: trimming removes the two zero end points of the Hann window,
    so no sample of a frame is weighted by 0. *)
Theorem window_samples_positive (win_len : nat) :
  Forall (fun w => 0 < w <= 1) (hanning win_len).
Proof.
  rewrite hanning_samples. unfold spec_trimmed_hann.
  apply Forall_forall. intros w Hw.
  apply in_map_iff in Hw as [k [<- Hk]]. apply in_seq in Hk. split.
  - apply hann_sample_inner_pos. lia.
  - apply hann_sample_le_1.
Qed.

Lemma Forall_firstn_gen {A : Type} (P : A -> Prop) (n : nat) (l : list A) :
  Forall P l -> Forall P (firstn n l).
Proof.
  intros H. revert n. induction H as [| x l Hx _ IH]; intros [| n]; simpl;
    constructor; auto.
Qed.

Lemma Forall_skipn_gen {A : Type} (P : A -> Prop) (n : nat) (l : list A) :
  Forall P l -> Forall P (skipn n l).
Proof.
  intros H. revert n. induction H as [| x l Hx Hl IH]; intros [| n]; simpl;
    try constructor; auto.
Qed.

Lemma Forall_repeat_gen {A : Type} (P : A -> Prop) (a : A) (n : nat) :
  P a -> Forall P (repeat a n).
Proof. intros H. induction n; simpl; constructor; auto. Qed.

Lemma padded_wave_Forall (P : R -> Prop) (wave : list R) (win_len : nat) :
  P 0 -> Forall P wave -> Forall P (padded_wave wave win_len).
Proof.
  intros H0 H. unfold padded_wave, Librosa.fix_length, Np.pad_before.
  cbv zeta.
  assert (Hp : Forall P (repeat 0 (win_len - win_len / 2) ++ wave))
    by (apply Forall_app; split; [now apply Forall_repeat_gen | assumption]).
  destruct (_ <? _)%nat; [now apply Forall_firstn_gen |].
  destruct (_ <? _)%nat; [| assumption].
  apply Forall_app; split; [assumption | now apply Forall_repeat_gen].
Qed.

Lemma Rsum_le_bound (l : list R) (B : R) :
  Forall (fun x => x <= B) l -> Rsum l <= INR (length l) * B.
Proof.
  induction 1 as [| x l Hx _ IH].
  - simpl. lra.
  - cbn [Rsum fold_right length]. rewrite S_INR. fold (Rsum l). lra.
Qed.

Lemma mean_le_bound (l : list R) (B : R) :
  0 <= B -> Forall (fun x => x <= B) l -> Np.mean l <= B.
Proof.
  intros HB H. unfold Np.mean. pose proof (Rsum_le_bound l B H) as Hs.
  destruct l as [| x l'].
  - simpl. unfold Rdiv. rewrite Rmult_0_l. assumption.
  - assert (Hlen : 0 < INR (length (x :: l'))) by (apply lt_0_INR; simpl; lia).
    apply Rmult_le_reg_r with (r := INR (length (x :: l'))); [assumption |].
    unfold Rdiv. rewrite Rmult_assoc, Rinv_l by lra. lra.
Qed.

Lemma zip_with_mult_le (l m : list R) (B : R) :
  0 <= B -> Forall (fun x => 0 <= x <= B) l -> Forall (fun w => 0 < w <= 1) m ->
  Forall (fun y => y <= B) (zip_with Rmult l m).
Proof.
  intros HB Hl. revert m. induction Hl as [| x l Hx _ IH]; intros m Hm.
  - constructor.
  - destruct Hm as [| w m Hw Hm]; simpl; constructor.
    + nra.
    + now apply IH.
Qed.

Lemma frame_envelope_le (win frame : list R) (A : R) :
  0 <= A -> Forall (fun w => 0 < w <= 1) win ->
  Forall (fun x => x <= A) frame ->
  frame_envelope win frame <= sqrt A.
Proof.
  intros HA Hwin Hfr. unfold frame_envelope.
  apply mean_le_bound; [apply sqrt_pos |].
  apply zip_with_mult_le; [apply sqrt_pos | | assumption].
  apply Forall_forall. intros y Hy.
  apply in_map_iff in Hy as [x [<- Hx]].
  rewrite Forall_forall in Hfr. split; [apply sqrt_pos |].
  apply sqrt_le_1_alt. rewrite hwr_max. apply Rmax_lub; auto.
Qed.

(** X10.  When no sample exceeds [A >= 0], no envelope value exceeds
    [sqrt A]; for audio within [-1, 1] the envelope lies within
    [0, 1]. *)
Theorem envelope_bounded_by_sqrt_peak (wave : list R) (win_len : nat) (A : R)
        (Hw : (2 <= win_len)%nat) (HA : 0 <= A)
        (Hpeak : Forall (fun x => x <= A) wave) :
  exists env,
    track_activation wave win_len (hanning win_len) = ret env /\
    Forall (fun v => 0 <= v <= sqrt A) env.
Proof.
  exists (envelope_of wave win_len (hanning win_len)).
  split; [apply track_activation_ok; [assumption | apply hanning_length] |].
  unfold envelope_of. apply Forall_forall. intros v Hv.
  apply in_map_iff in Hv as [i [<- _]]. split.
  - apply frame_envelope_nonneg, hanning_nonneg.
  - apply frame_envelope_le; [assumption | apply hanning_bounds |].
    apply Forall_firstn_gen, Forall_skipn_gen.
    now apply padded_wave_Forall.
Qed.

Lemma envelope_bounded_by_sqrt_peak_witness :
  (2 <= 4)%nat /\ 0 <= 1 /\ Forall (fun x => x <= 1) [1; -1; 0.5; 0.25; -0.5] /\
  exists env,
    track_activation [1; -1; 0.5; 0.25; -0.5] 4 (hanning 4) = ret env /\
    Forall (fun v => 0 <= v <= sqrt 1) env.
Proof.
  assert (Hpeak : Forall (fun x => x <= 1) [1; -1; 0.5; 0.25; -0.5])
    by (repeat constructor; lra).
  split; [lia |]. split; [lra |]. split; [exact Hpeak |].
  apply (envelope_bounded_by_sqrt_peak [1; -1; 0.5; 0.25; -0.5] 4 1).
  - lia.
  - lra.
  - exact Hpeak.
Defined.

(** ** Which waveforms have a positive envelope *)

Lemma Rsum_pos_exists (l : list R) :
  Forall (Rle 0) l -> Exists (Rlt 0) l -> 0 < Rsum l.
Proof.
  intros Hall Hex. induction Hex as [x l Hx | x l _ IH].
  - inversion Hall as [| ? ? _ Hl]; subst.
    pose proof (Rsum_nonneg l Hl). simpl. fold (Rsum l). lra.
  - inversion Hall as [| ? ? Hx Hl]; subst.
    specialize (IH Hl). simpl. fold (Rsum l). lra.
Qed.

Lemma zip_with_weighted_pos (frame win : list R) :
  (length frame <= length win)%nat -> Forall (fun w => 0 < w <= 1) win ->
  Exists (Rlt 0) frame ->
  Exists (Rlt 0) (zip_with Rmult (map (fun x => sqrt (hwr x)) frame) win).
Proof.
  intros Hlen Hwin Hex. revert win Hlen Hwin.
  induction Hex as [x l Hx | x l _ IH]; intros [| w win] Hlen Hwin;
    simpl in Hlen; try lia; inversion Hwin as [| ? ? Hw Hwin']; subst; simpl.
  - left. apply Rmult_lt_0_compat; [| lra].
    apply sqrt_lt_R0. rewrite hwr_pos; lra.
  - right. apply IH; [lia | assumption].
Qed.

Lemma frame_envelope_pos (win frame : list R) :
  (length frame <= length win)%nat -> Forall (fun w => 0 < w <= 1) win ->
  Exists (Rlt 0) frame -> 0 < frame_envelope win frame.
Proof.
  intros Hlen Hwin Hex. unfold frame_envelope, Np.mean.
  set (l := zip_with Rmult (map (fun x => sqrt (hwr x)) frame) win).
  assert (Hl : Exists (Rlt 0) l) by now apply zip_with_weighted_pos.
  assert (Hnn : Forall (Rle 0) l).
  { apply zip_with_mult_nonneg.
    - apply Forall_forall. intros y Hy.
      apply in_map_iff in Hy as [x [<- _]]. apply sqrt_pos.
    - eapply Forall_impl; [| exact Hwin]. intros w Hw. simpl in Hw. lra. }
  apply Rdiv_lt_0_compat; [now apply Rsum_pos_exists |].
  apply lt_0_INR. destruct l; [inversion Hl | simpl; lia].
Qed.

Lemma frame_envelope_nonpositive (win frame : list R) :
  Forall (fun x => x <= 0) frame -> frame_envelope win frame = 0.
Proof.
  intros H.
  assert (He : map (fun x => sqrt (hwr x)) frame
               = map (fun x => sqrt (hwr x)) (map hwr frame)).
  { rewrite map_map. apply map_ext. intros x. now rewrite hwr_idem. }
  unfold frame_envelope. rewrite He.
  fold (frame_envelope win (map hwr frame)).
  now apply frame_envelope_silent, map_hwr_nonpositive.
Qed.

Lemma frame_envelope_pos_inv (win frame : list R) :
  0 < frame_envelope win frame -> Exists (Rlt 0) frame.
Proof.
  intros Hpos.
  destruct (Forall_Exists_dec (fun x => x <= 0)
              (fun x => Rle_dec x 0) frame) as [Hall | Hex].
  - rewrite frame_envelope_nonpositive in Hpos by assumption. lra.
  - eapply Exists_impl; [| exact Hex]. intros x Hx. simpl in Hx. lra.
Qed.

(** With an even window length every sample lies in a frame. *)
Lemma sample_in_some_frame (wave : list R) (h : nat) (x : R) :
  (1 <= h)%nat -> In x wave ->
  exists i, (i < n_frames_of (length wave) (2 * h))%nat /\
            In x (firstn (2 * h) (skipn (i * h) (padded_wave wave (2 * h)))).
Proof.
  intros Hh Hin. apply in_split in Hin as [w1 [w2 ->]].
  set (p := length w1).
  set (L := length (w1 ++ x :: w2)).
  assert (HL : (p < L)%nat) by (unfold L, p; rewrite length_app; simpl; lia).
  destruct (n_frames_of_even L h Hh) as [Hn _].
  assert (Hcge : (h + L <= 2 * h * ceil_div (h + L) (2 * h))%nat)
    by (apply ceil_div_ge; lia).
  exists (p / h)%nat.
  pose proof (Nat.div_mod_eq p h) as Hdm.
  pose proof (Nat.mod_upper_bound p h ltac:(lia)) as Hmod.
  split.
  { rewrite Hn. nia. }
  unfold padded_wave. cbv zeta.
  replace (2 * h / 2)%nat with h
    by (rewrite Nat.mul_comm; symmetry; apply Nat.div_mul; lia).
  replace (2 * h - h)%nat with h by lia.
  unfold Librosa.fix_length. cbv zeta. rewrite pad_before_length.
  fold L.
  assert (Hpre : exists z,
             (if (2 * h * ceil_div (h + L) (2 * h) <? h + L)%nat
              then firstn (2 * h * ceil_div (h + L) (2 * h))
                          (Np.pad_before h (w1 ++ x :: w2))
              else if (h + L <? 2 * h * ceil_div (h + L) (2 * h))%nat
                   then Np.pad_before h (w1 ++ x :: w2)
                        ++ repeat 0 (2 * h * ceil_div (h + L) (2 * h) - (h + L))
                   else Np.pad_before h (w1 ++ x :: w2))
             = (repeat 0 h ++ w1) ++ x :: z).
  { destruct (Nat.ltb_spec (2 * h * ceil_div (h + L) (2 * h)) (h + L));
      [lia |].
    unfold Np.pad_before.
    destruct (_ <? _)%nat; eexists.
    - rewrite <- !app_assoc. cbn [app]. reflexivity.
    - rewrite app_assoc. reflexivity. }
  destruct Hpre as [z ->].
  assert (Hlen : length (repeat 0 h ++ w1) = (h + p)%nat)
    by (rewrite length_app, repeat_length; reflexivity).
  rewrite skipn_app, Hlen.
  replace (p / h * h - (h + p))%nat with 0%nat by nia.
  cbn [skipn]. rewrite firstn_app, length_skipn, Hlen.
  apply in_or_app. right.
  replace (2 * h - (h + p - p / h * h))%nat
    with (S (2 * h - (h + p - p / h * h) - 1)) by nia.
  cbn [firstn]. left. reflexivity.
Qed.

(** X11.  With an even window length the envelope has a positive value
    exactly when the waveform has a positive sample; otherwise it is
    zero throughout. *)
Theorem positive_envelope_iff_positive_sample (wave : list R) (win_len : nat)
        (Heven : Nat.even win_len = true) (Hw : (2 <= win_len)%nat) :
  exists env,
    track_activation wave win_len (hanning win_len) = ret env /\
    (Exists (Rlt 0) env <-> Exists (Rlt 0) wave).
Proof.
  exists (envelope_of wave win_len (hanning win_len)).
  split; [apply track_activation_ok; [assumption | apply hanning_length] |].
  split.
  - intros Hex. apply Exists_exists in Hex as [v [Hv Hpos]].
    unfold envelope_of in Hv. apply in_map_iff in Hv as [i [<- _]].
    apply frame_envelope_pos_inv in Hpos.
    apply Exists_exists in Hpos as [x [Hx Hxpos]].
    apply Exists_exists. exists x. split; [| assumption].
    assert (HP : Forall (fun y => 0 < y -> In y wave)
                        (firstn win_len
                           (skipn (i * (win_len / 2))
                                  (padded_wave wave win_len)))).
    { apply Forall_firstn_gen, Forall_skipn_gen, padded_wave_Forall.
      - intros H0. lra.
      - apply Forall_forall. auto. }
    rewrite Forall_forall in HP. now apply HP.
  - intros Hex. apply Exists_exists in Hex as [x [Hx Hxpos]].
    pose proof (even_half win_len Heven) as Hh.
    set (h := (win_len / 2)%nat) in *.
    assert (Hh1 : (1 <= h)%nat) by lia.
    destruct (sample_in_some_frame wave h x Hh1 Hx) as [i [Hi Hin]].
    apply Exists_exists.
    exists (frame_envelope (hanning win_len)
              (firstn win_len (skipn (i * h) (padded_wave wave win_len)))).
    split.
    + unfold envelope_of. fold h.
      apply (in_map (fun i => frame_envelope (hanning win_len)
                       (firstn win_len
                          (skipn (i * h) (padded_wave wave win_len))))).
      apply in_seq. rewrite Hh. lia.
    + apply frame_envelope_pos.
      * rewrite hanning_length, length_firstn. lia.
      * apply hanning_bounds.
      * apply Exists_exists. exists x. split; [| assumption].
        rewrite Hh. exact Hin.
Qed.

Lemma positive_envelope_iff_positive_sample_witness :
  Nat.even 4 = true /\ (2 <= 4)%nat /\
  exists env,
    track_activation [-1; 0; 0.5; -2; 0] 4 (hanning 4) = ret env /\
    (Exists (Rlt 0) env <-> Exists (Rlt 0) [-1; 0; 0.5; -2; 0]).
Proof.
  split; [reflexivity |]. split; [lia |].
  apply (positive_envelope_iff_positive_sample [-1; 0; 0.5; -2; 0] 4).
  - reflexivity.
  - lia.
Defined.

(** ** Normalization: the gate and the frame sums *)

Lemma zip_with_gate_below (l e : list R) (c : R) :
  length l = length e -> Forall (fun y => y < c) e ->
  zip_with (fun x ej => if Rltb ej c then 0 else x) l e = map (fun _ => 0) l.
Proof.
  revert e. induction l as [| x l IH]; intros [| y e] Hlen He;
    simpl in *; try discriminate; [reflexivity |].
  inversion He as [| ? ? Hy He']; subst.
  rewrite Rltb_true by assumption. f_equal. apply IH; [lia | assumption].
Qed.

(** X12.  When the largest per-frame sum is below 0.01 every frame is
    gated: normalization returns the zero matrix, whatever the scale. *)
Theorem low_energy_everywhere_gives_zero_matrix
        (n_stems : nat) (rows : list (list R)) (F : nat)
        (Hne : rows <> []) (HF : (1 <= F)%nat)
        (Hrect : Forall (fun r => length r = F) rows)
        (Hlow : max_of (E0_of rows) < 0.01) :
  normalization n_stems (Np.A2 rows)
  = ret (Np.A2 (map (map (fun _ => 0)) rows)).
Proof.
  pose proof (ncols_rect rows F Hne Hrect) as Hnc.
  rewrite normalization_rows by lia.
  unfold ret. do 2 f_equal. unfold normalized_rows.
  apply map_ext_in. intros r Hr.
  rewrite zip_with_gate_below; [apply map_map | |].
  - rewrite length_map, E0_of_length, Hnc.
    rewrite Forall_forall in Hrect. now apply Hrect.
  - apply Forall_forall. intros e He.
    pose proof (max_of_upper _ _ He). lra.
Qed.

Lemma low_energy_everywhere_gives_zero_matrix_witness :
  max_of (E0_of [[0.001; 0.002]; [0.003; 0.001]]) < 0.01 /\
  normalization 2 (Np.A2 [[0.001; 0.002]; [0.003; 0.001]])
  = ret (Np.A2 [[0; 0]; [0; 0]]).
Proof.
  assert (Hlow : max_of (E0_of [[0.001; 0.002]; [0.003; 0.001]]) < 0.01).
  { unfold max_of, E0_of, Np.ncols, Np.column, Rsum.
    cbn [hd tl length seq map nth fold_right fold_left].
    unfold Rmax. destruct (Rle_dec _ _); lra. }
  split; [exact Hlow |].
  apply (low_energy_everywhere_gives_zero_matrix
           2 [[0.001; 0.002]; [0.003; 0.001]] 2).
  - discriminate.
  - lia.
  - repeat constructor.
  - exact Hlow.
Defined.

Lemma nth_normalized_row (n_stems : nat) (rows : list (list R)) (F j : nat)
      (r : list R) :
  rows <> [] -> Forall (fun r => length r = F) rows ->
  length r = F -> (j < F)%nat ->
  nth j (zip_with (fun x ej => if Rltb ej 0.01 then 0 else x)
                  (map (fun h => INR n_stems * h / max_of (E0_of rows)) r)
                  (E0_of rows)) 0
  = if Rltb (nth j (E0_of rows) 0) 0.01 then 0
    else nth j r 0 * (INR n_stems / max_of (E0_of rows)).
Proof.
  intros Hne Hrect Hr Hj.
  rewrite (nth_zip_with _ _ _ j 0 0 0).
  2:{ rewrite length_map. lia. }
  2:{ rewrite E0_of_length, (ncols_rect rows F Hne Hrect). lia. }
  destruct (Rltb (nth j (E0_of rows) 0) 0.01); [reflexivity |].
  rewrite nth_indep with (d' := (fun h => INR n_stems * h / max_of (E0_of rows)) 0)
    by (rewrite length_map; lia).
  rewrite (map_nth (fun h => INR n_stems * h / max_of (E0_of rows))).
  unfold Rdiv. ring.
Qed.

Lemma Rsum_scale_r (c : R) (l : list R) :
  Rsum (map (fun x => x * c) l) = Rsum l * c.
Proof. induction l as [| x l IH]; simpl; [ring | rewrite IH; ring]. Qed.

Lemma Rsum_zeros {A : Type} (l : list A) : Rsum (map (fun _ => 0) l) = 0.
Proof. induction l as [| x l IH]; simpl; [reflexivity | rewrite IH; ring]. Qed.

(** The per-frame sum after normalization. *)
Lemma normalized_frame_sum (n_stems : nat) (rows : list (list R)) (F j : nat) :
  rows <> [] -> Forall (fun r => length r = F) rows -> (j < F)%nat ->
  Rsum (Np.column j (normalized_rows n_stems rows))
  = if Rltb (nth j (E0_of rows) 0) 0.01 then 0
    else nth j (E0_of rows) 0 * (INR n_stems / max_of (E0_of rows)).
Proof.
  intros Hne Hrect Hj.
  unfold Np.column, normalized_rows. rewrite map_map.
  rewrite (map_ext_in _
             (fun r => if Rltb (nth j (E0_of rows) 0) 0.01 then 0
                       else nth j r 0 * (INR n_stems / max_of (E0_of rows)))).
  2:{ intros r Hr. apply nth_normalized_row with (F := F); auto.
      rewrite Forall_forall in Hrect. now apply Hrect. }
  destruct (Rltb (nth j (E0_of rows) 0) 0.01).
  - apply Rsum_zeros.
  - rewrite (nth_E0_of rows j)
      by (rewrite (ncols_rect rows F Hne Hrect); assumption).
    rewrite <- Rsum_scale_r. now rewrite map_map.
Qed.

Lemma In_le_Rsum (l : list R) (x : R) :
  Forall (Rle 0) l -> In x l -> x <= Rsum l.
Proof.
  intros Hall Hin. induction Hall as [| y l Hy Hl IH]; [destruct Hin |].
  pose proof (Rsum_nonneg l Hl) as Hs. simpl. fold (Rsum l).
  destruct Hin as [-> | Hin]; [lra |]. specialize (IH Hin). lra.
Qed.

Lemma entry_in_row (rows : list (list R)) (i j F : nat) :
  Forall (fun r => length r = F) rows ->
  (i < length rows)%nat -> (j < F)%nat ->
  In (nth i rows []) rows /\ In (entry rows i j) (nth i rows []).
Proof.
  intros Hrect Hi Hj.
  assert (Hin : In (nth i rows []) rows) by now apply nth_In.
  split; [assumption |]. unfold entry. apply nth_In.
  rewrite Forall_forall in Hrect. rewrite (Hrect _ Hin). assumption.
Qed.

(** X13.  For a non-negative envelope matrix of N rows whose largest
    per-frame sum is at least 0.01, every normalized entry lies in
    [0, N], every per-frame sum of the normalized matrix is at most N,
    and the frame of largest energy sums to exactly N. *)
Theorem normalized_frame_sums_at_most_number_of_stems
        (rows : list (list R)) (F : nat)
        (Hne : rows <> [])
        (Hrect : Forall (fun r => length r = F) rows)
        (Hnn : Forall (Forall (Rle 0)) rows)
        (Hmax : 0.01 <= max_of (E0_of rows)) :
  normalization (length rows) (Np.A2 rows)
  = ret (Np.A2 (normalized_rows (length rows) rows)) /\
  (forall i j, (i < length rows)%nat -> (j < F)%nat ->
     0 <= entry (normalized_rows (length rows) rows) i j
       <= INR (length rows)) /\
  (forall j, (j < F)%nat ->
     Rsum (Np.column j (normalized_rows (length rows) rows))
     <= INR (length rows)) /\
  (exists j, (j < F)%nat /\
     nth j (E0_of rows) 0 = max_of (E0_of rows) /\
     Rsum (Np.column j (normalized_rows (length rows) rows))
     = INR (length rows)).
Proof.
  pose proof (ncols_rect rows F Hne Hrect) as Hnc.
  assert (HE : E0_of rows <> []).
  { intros He. rewrite He in Hmax. unfold max_of in Hmax. simpl in Hmax. lra. }
  assert (HF : (1 <= F)%nat).
  { pose proof (E0_of_length rows) as Hl. rewrite Hnc in Hl.
    destruct (E0_of rows); [congruence | simpl in Hl; lia]. }
  assert (HN : 0 <= INR (length rows)) by apply pos_INR.
  set (m := max_of (E0_of rows)) in *.
  assert (Hm : 0 < m) by lra.
  assert (HE0 : forall j, (j < F)%nat ->
                  0 <= nth j (E0_of rows) 0 <= m).
  { intros j Hj. split.
    - rewrite nth_E0_of by lia. apply Rsum_nonneg.
      apply Forall_forall. intros y Hy.
      apply in_map_iff in Hy as [r [<- Hr]].
      rewrite Forall_forall in Hnn. specialize (Hnn r Hr).
      rewrite Forall_forall in Hrect. specialize (Hrect r Hr).
      rewrite Forall_forall in Hnn. apply Hnn, nth_In. lia.
    - apply max_of_upper, nth_In. rewrite E0_of_length. lia. }
  assert (Hcol : forall c, 0 <= c <= m -> c * (INR (length rows) / m)
                                          <= INR (length rows)).
  { intros c [Hc0 Hcm]. unfold Rdiv.
    replace (c * (INR (length rows) * / m))
      with (INR (length rows) * (c * / m)) by ring.
    assert (Hq : c * / m <= 1).
    { apply Rmult_le_reg_r with (r := m); [assumption |].
      rewrite Rmult_assoc, Rinv_l by lra. lra. }
    assert (Hq0 : 0 <= c * / m).
    { apply Rmult_le_pos; [assumption |].
      apply Rlt_le, Rinv_0_lt_compat. assumption. }
    nra. }
  split; [apply normalization_rows; lia |].
  split; [| split].
  - intros i j Hi Hj.
    rewrite (entry_normalized_rows _ rows F i j Hrect Hi Hj). fold m.
    destruct (Rltb (nth j (E0_of rows) 0) 0.01); [lra |].
    destruct (entry_in_row rows i j F Hrect Hi Hj) as [Hr Hx].
    assert (Hx0 : 0 <= entry rows i j).
    { rewrite Forall_forall in Hnn. specialize (Hnn _ Hr).
      rewrite Forall_forall in Hnn. now apply Hnn. }
    assert (Hxe : entry rows i j <= nth j (E0_of rows) 0).
    { rewrite nth_E0_of by lia. apply In_le_Rsum.
      - apply Forall_forall. intros y Hy.
        apply in_map_iff in Hy as [r [<- Hr']].
        rewrite Forall_forall in Hnn. specialize (Hnn r Hr').
        rewrite Forall_forall in Hrect. specialize (Hrect r Hr').
        rewrite Forall_forall in Hnn. apply Hnn, nth_In. lia.
      - unfold entry. apply (in_map (fun r => nth j r 0)). assumption. }
    destruct (HE0 j Hj) as [_ Hle]. split.
    + apply Rmult_le_pos; [assumption |].
      apply Rmult_le_pos; [assumption |].
      apply Rlt_le, Rinv_0_lt_compat. assumption.
    + apply Hcol. lra.
  - intros j Hj. rewrite (normalized_frame_sum _ rows F j Hne Hrect Hj).
    fold m. destruct (Rltb (nth j (E0_of rows) 0) 0.01); [lra |].
    apply Hcol, HE0. assumption.
  - pose proof (max_of_in _ HE) as Hin. fold m in Hin.
    apply (In_nth _ _ 0) in Hin as [j [Hj Hnth]].
    rewrite E0_of_length, Hnc in Hj.
    exists j. split; [assumption |]. split; [assumption |].
    rewrite (normalized_frame_sum _ rows F j Hne Hrect Hj). fold m.
    rewrite Hnth, Rltb_false by lra. field. lra.
Qed.

Lemma normalized_frame_sums_at_most_number_of_stems_witness :
  Forall (Forall (Rle 0)) [[1; 0]; [3; 2]] /\
  0.01 <= max_of (E0_of [[1; 0]; [3; 2]]) /\
  (forall j, (j < 2)%nat ->
     Rsum (Np.column j (normalized_rows 2 [[1; 0]; [3; 2]])) <= INR 2) /\
  (exists j, (j < 2)%nat /\
     nth j (E0_of [[1; 0]; [3; 2]]) 0 = max_of (E0_of [[1; 0]; [3; 2]]) /\
     Rsum (Np.column j (normalized_rows 2 [[1; 0]; [3; 2]])) = INR 2).
Proof.
  assert (Hnn : Forall (Forall (Rle 0)) [[1; 0]; [3; 2]])
    by (repeat constructor; lra).
  assert (Hmax : 0.01 <= max_of (E0_of [[1; 0]; [3; 2]])).
  { apply Rle_trans with (r2 := 1 + (3 + 0)); [lra |].
    apply max_of_upper. left. reflexivity. }
  split; [exact Hnn |]. split; [exact Hmax |].
  destruct (normalized_frame_sums_at_most_number_of_stems
              [[1; 0]; [3; 2]] 2) as (_ & _ & H3 & H4).
  - discriminate.
  - repeat constructor.
  - exact Hnn.
  - exact Hmax.
  - split; [exact H3 | exact H4].
Defined.

(** ** The logistic map and its binarization *)

Lemma confidence_range (theta h : R) : 0 < confidence theta h < 1.
Proof.
  unfold confidence.
  pose proof (exp_pos (20 * (h - theta))) as He.
  assert (Hinv : 0 < / (1 + exp (20 * (h - theta))) < 1).
  { split.
    - apply Rinv_0_lt_compat. lra.
    - rewrite <- Rinv_1 at 2. apply Rinv_lt_contravar; lra. }
  unfold Rdiv. lra.
Qed.

(** X14.  Every confidence lies between 0 and 1, bounds included (in
    binary64 the upper bound is reached), and in exact arithmetic the map
    is symmetric about [theta]: the confidences of [theta + d] and
    [theta - d] add up to 1. *)
Theorem confidence_range_and_symmetry (theta h d : R) :
  0 <= confidence theta h <= 1 /\
  confidence theta (theta + d) + confidence theta (theta - d) = 1.
Proof.
  split; [pose proof (confidence_range theta h); lra |].
  unfold confidence.
  replace (20 * (theta + d - theta)) with (20 * d) by ring.
  replace (20 * (theta - d - theta)) with (- (20 * d)) by ring.
  rewrite exp_Ropp. pose proof (exp_pos (20 * d)) as He.
  field. split; lra.
Qed.

Lemma binarize_confidence (theta h : R) :
  binarize_value (confidence theta h) = if Rltb theta h then 1 else 0.
Proof.
  unfold binarize_value.
  destruct (Rlt_dec theta h) as [Hlt | Hge].
  - rewrite (Rltb_true theta h Hlt).
    pose proof (confidence_increasing theta theta h Hlt) as Hc.
    rewrite confidence_midpoint in Hc. now rewrite Rltb_true.
  - rewrite (Rltb_false theta h) by lra.
    rewrite Rltb_false; [reflexivity |].
    destruct (Rle_lt_or_eq_dec h theta ltac:(lra)) as [Hlt | ->].
    + pose proof (confidence_increasing theta h theta Hlt) as Hc.
      rewrite confidence_midpoint in Hc. lra.
    + rewrite confidence_midpoint. lra.
Qed.

(** X15.  Binarizing the confidence is thresholding the smoothed value
    at [theta]: the binarized output is 1 exactly when the smoothed
    value is strictly greater than [theta], and 0 otherwise. *)
Theorem binarized_confidence_is_threshold_at_theta (theta h : R) :
  output_value theta true h = (if Rlt_dec theta h then 1 else 0) /\
  (output_value theta true h = 1 <-> theta < h).
Proof.
  unfold output_value. rewrite binarize_confidence. unfold Rltb.
  destruct (Rlt_dec theta h) as [Hlt | Hge]; split; try reflexivity.
  - tauto.
  - split; [intros H; lra | intros H; contradiction].
Qed.

(** ** Shape and content of the returned matrix *)

Lemma stem_rows_rect (lowpass : R -> list R -> nat -> R)
      (stems : mtrack_stems) (win_len : nat) (lpf theta : R) (b : bool)
      (F : nat) :
  stems <> [] ->
  Forall (fun r => length r = F) (envelope_rows stems win_len) ->
  Forall (fun r => length r = F) (stem_rows lowpass stems win_len lpf theta b)
  /\ length (stem_rows lowpass stems win_len lpf theta b) = length stems
  /\ Np.ncols (smoothed_rows lowpass lpf
                 (normalized_rows (length stems)
                    (envelope_rows stems win_len))) = F.
Proof.
  intros Hne Hrect.
  pose proof (envelope_rows_nonempty stems win_len Hne) as Hrne.
  assert (Hn : Forall (fun r => length r = F)
                      (normalized_rows (length stems) (envelope_rows stems win_len)))
    by now apply normalized_rows_rect.
  pose proof (smoothed_rows_rect lowpass lpf _ F Hn) as Hs.
  split; [| split].
  - unfold stem_rows. now apply map_rows_rect.
  - unfold stem_rows, smoothed_rows, normalized_rows.
    now rewrite !length_map, envelope_rows_length.
  - apply ncols_rect; [| assumption].
    unfold smoothed_rows, normalized_rows. intros He.
    apply map_eq_nil in He. apply map_eq_nil in He. contradiction.
Qed.

Lemma stem_rows_values (lowpass : R -> list R -> nat -> R)
      (stems : mtrack_stems) (win_len : nat) (lpf theta : R) (b : bool) :
  Forall (Forall (fun v => exists h, v = output_value theta b h))
         (stem_rows lowpass stems win_len lpf theta b).
Proof.
  unfold stem_rows. apply Forall_forall. intros r Hr.
  apply in_map_iff in Hr as [r' [<- _]].
  apply Forall_forall. intros v Hv.
  apply in_map_iff in Hv as [h [<- _]]. now exists h.
Qed.

(** The matrix of a run that returns, row by row. *)
Lemma pipeline_result_rows (lowpass : R -> list R -> nat -> R)
      (stems : mtrack_stems) (win_len : nat) (lpf theta : R) (b : bool)
      (M : Np.ndarray) (idx : list nat) :
  create_activation_annotation lowpass stems win_len lpf theta b = ret (M, idx) ->
  exists F,
    (9 < F)%nat /\ (2 <= win_len)%nat /\ stems <> [] /\
    Forall (fun r => length r = F) (envelope_rows stems win_len) /\
    idx = map fst stems /\
    M = Np.A2 (map (fun f =>
                      INR (f * (win_len / 2)) / Librosa.load_rate
                      :: map (fun r => nth f r 0)
                             (stem_rows lowpass stems win_len lpf theta b))
                   (seq 0 F)).
Proof.
  intros Hrun.
  apply pipeline_inv in Hrun as (Hne & Hw & Hrect & H9 & Hlpf & -> & ->).
  exists (Np.ncols (envelope_rows stems win_len)).
  repeat (split; [assumption || reflexivity |]).
  rewrite activation_matrix_rows.
  destruct (stem_rows_rect lowpass stems win_len lpf theta b _ Hne Hrect)
    as (_ & _ & ->).
  reflexivity.
Qed.

(** X16.  A run that returns yields a matrix with one row per frame and
    one column more than there are stems; all stems have the same
    number of frames, which is at least 10, and the index list has one
    entry per stem. *)
Theorem returned_matrix_shape
        (lowpass : R -> list R -> nat -> R) (stems : mtrack_stems)
        (win_len : nat) (lpf theta : R) (b : bool)
        (M : Np.ndarray) (idx : list nat)
        (Hrun : create_activation_annotation lowpass stems win_len lpf theta b
                = ret (M, idx)) :
  exists rows F,
    M = Np.A2 rows /\ length rows = F /\ (10 <= F)%nat /\
    Forall (fun r => length r = S (length stems)) rows /\
    Forall (fun st => n_frames_of (length (snd st)) win_len = F) stems /\
    length idx = length stems.
Proof.
  apply pipeline_result_rows in Hrun
    as (F & H9 & Hw & Hne & Hrect & -> & ->).
  destruct (stem_rows_rect lowpass stems win_len lpf theta b F Hne Hrect)
    as (_ & Hlen & _).
  eexists. exists F. split; [reflexivity |].
  split; [now rewrite length_map, length_seq |].
  split; [lia |]. split; [| split].
  - apply Forall_forall. intros r Hr.
    apply in_map_iff in Hr as [f [<- _]].
    cbn [length]. now rewrite length_map, Hlen.
  - apply Forall_forall. intros st Hst.
    rewrite Forall_forall in Hrect.
    rewrite <- (envelope_of_length (snd st) win_len (hanning win_len)).
    apply Hrect. unfold envelope_rows.
    now apply (in_map (fun st => envelope_of (snd st) win_len (hanning win_len))).
  - apply length_map.
Qed.

Lemma pipeline_run_two_stems :
  create_activation_annotation identity_kernel
    [(1%nat, repeat 1 10); (2%nat, repeat 0.5 10)] 2 0.075 0.15 true
  = ret (activation_matrix identity_kernel
           [(1%nat, repeat 1 10); (2%nat, repeat 0.5 10)] 2 0.075 0.15 true,
         [1%nat; 2%nat]).
Proof.
  apply (pipeline_returns identity_kernel
           [(1%nat, repeat 1 10); (2%nat, repeat 0.5 10)] 2
           0.075 0.15 true 10).
  - discriminate.
  - lia.
  - repeat constructor.
  - vm_compute. lia.
  - lra.
Defined.

Lemma pipeline_run_two_stems_plain :
  create_activation_annotation identity_kernel
    [(1%nat, repeat 1 10); (2%nat, repeat 0.5 10)] 2 0.075 0.15 false
  = ret (activation_matrix identity_kernel
           [(1%nat, repeat 1 10); (2%nat, repeat 0.5 10)] 2 0.075 0.15 false,
         [1%nat; 2%nat]).
Proof.
  apply (pipeline_returns identity_kernel
           [(1%nat, repeat 1 10); (2%nat, repeat 0.5 10)] 2
           0.075 0.15 false 10).
  - discriminate.
  - lia.
  - repeat constructor.
  - vm_compute. lia.
  - lra.
Defined.

Lemma returned_matrix_shape_witness :
  exists rows F,
    activation_matrix identity_kernel
      [(1%nat, repeat 1 10); (2%nat, repeat 0.5 10)] 2 0.075 0.15 true
    = Np.A2 rows /\ length rows = F /\ (10 <= F)%nat /\
    Forall (fun r => length r = 3%nat) rows /\
    Forall (fun st => n_frames_of (length (snd st)) 2 = F)
           [(1%nat, repeat 1 10); (2%nat, repeat 0.5 10)] /\
    length [1%nat; 2%nat] = 2%nat.
Proof.
  exact (returned_matrix_shape _ _ _ _ _ _ _ _ pipeline_run_two_stems).
Defined.

(** X17.  In a returned matrix the first entry of row [f] is the time
    stamp [f * (win_len // 2) / 44100]; the time stamps start at 0 and
    increase strictly from row to row. *)
Theorem time_column_increasing
        (lowpass : R -> list R -> nat -> R) (stems : mtrack_stems)
        (win_len : nat) (lpf theta : R) (b : bool)
        (rows : list (list R)) (idx : list nat)
        (Hrun : create_activation_annotation lowpass stems win_len lpf theta b
                = ret (Np.A2 rows, idx)) :
  (forall f, (f < length rows)%nat ->
     hd 0 (nth f rows []) = INR f * INR (win_len / 2) / 44100) /\
  hd 0 (nth 0 rows []) = 0 /\
  (forall f g, (f < g)%nat -> (g < length rows)%nat ->
     hd 0 (nth f rows []) < hd 0 (nth g rows [])).
Proof.
  apply pipeline_result_rows in Hrun
    as (F & H9 & Hw & Hne & Hrect & -> & HM).
  injection HM as ->.
  pose proof (half_lt win_len Hw) as [Hh _].
  assert (Hhop : 0 < INR (win_len / 2)) by (apply lt_0_INR; lia).
  assert (Hrow : forall f, (f < F)%nat ->
            hd 0 (nth f (map (fun f =>
                      INR (f * (win_len / 2)) / Librosa.load_rate
                      :: map (fun r => nth f r 0)
                             (stem_rows lowpass stems win_len lpf theta b))
                   (seq 0 F)) [])
            = INR f * INR (win_len / 2) / 44100).
  { intros f Hf.
    rewrite nth_indep with (d' := (fun f =>
                      INR (f * (win_len / 2)) / Librosa.load_rate
                      :: map (fun r => nth f r 0)
                             (stem_rows lowpass stems win_len lpf theta b)) 0%nat)
      by (now rewrite length_map, length_seq).
    rewrite (map_nth (fun f =>
                      INR (f * (win_len / 2)) / Librosa.load_rate
                      :: map (fun r => nth f r 0)
                             (stem_rows lowpass stems win_len lpf theta b))).
    rewrite seq_nth by assumption. cbn [hd Nat.add].
    rewrite mult_INR. reflexivity. }
  rewrite length_map, length_seq.
  split; [exact Hrow |]. split.
  - rewrite Hrow by lia. simpl INR. unfold Rdiv. ring.
  - intros f g Hfg Hg. rewrite !Hrow by lia.
    assert (Hlt : INR f < INR g) by now apply lt_INR.
    unfold Rdiv. apply Rmult_lt_compat_r; [lra |].
    apply Rmult_lt_compat_r; assumption.
Qed.

Lemma time_column_increasing_witness :
  exists rows,
    activation_matrix identity_kernel
      [(1%nat, repeat 1 10); (2%nat, repeat 0.5 10)] 2 0.075 0.15 true
    = Np.A2 rows /\
    (forall f, (f < length rows)%nat ->
       hd 0 (nth f rows []) = INR f * INR (2 / 2) / 44100) /\
    hd 0 (nth 0 rows []) = 0 /\
    (forall f g, (f < g)%nat -> (g < length rows)%nat ->
       hd 0 (nth f rows []) < hd 0 (nth g rows [])).
Proof.
  pose proof pipeline_run_two_stems as Hrun.
  rewrite activation_matrix_rows in Hrun.
  eexists. split; [apply activation_matrix_rows |].
  exact (time_column_increasing _ _ _ _ _ _ _ _ Hrun).
Defined.

(** X18.  In a returned matrix every entry after the time stamp is a
    confidence: between 0 and 1, bounds included, without [binarize], and
    0 or 1 with it. *)
Theorem returned_confidences_in_range
        (lowpass : R -> list R -> nat -> R) (stems : mtrack_stems)
        (win_len : nat) (lpf theta : R) (b : bool)
        (rows : list (list R)) (idx : list nat)
        (Hrun : create_activation_annotation lowpass stems win_len lpf theta b
                = ret (Np.A2 rows, idx)) :
  Forall (fun row =>
            Forall (fun v => if b then v = 0 \/ v = 1 else 0 <= v <= 1)
                   (tl row))
         rows.
Proof.
  apply pipeline_result_rows in Hrun
    as (F & H9 & Hw & Hne & Hrect & -> & HM).
  injection HM as ->.
  destruct (stem_rows_rect lowpass stems win_len lpf theta b F Hne Hrect)
    as (Hsr & _ & _).
  pose proof (stem_rows_values lowpass stems win_len lpf theta b) as Hval.
  apply Forall_forall. intros row Hrow.
  apply in_map_iff in Hrow as [f [<- Hf]]. apply in_seq in Hf.
  cbn [tl]. apply Forall_forall. intros v Hv.
  apply in_map_iff in Hv as [r [<- Hr]].
  rewrite Forall_forall in Hsr, Hval.
  specialize (Hsr r Hr). specialize (Hval r Hr).
  rewrite Forall_forall in Hval.
  destruct (Hval (nth f r 0)) as [h ->]; [apply nth_In; lia |].
  unfold output_value. destruct b.
  - destruct (binarize_value_cases (confidence theta h)) as [[_ ->] | [_ ->]];
      auto.
  - pose proof (confidence_range theta h). lra.
Qed.

Lemma returned_confidences_in_range_witness :
  (exists rows,
     activation_matrix identity_kernel
       [(1%nat, repeat 1 10); (2%nat, repeat 0.5 10)] 2 0.075 0.15 true
     = Np.A2 rows /\
     Forall (fun row => Forall (fun v => v = 0 \/ v = 1) (tl row)) rows) /\
  (exists rows,
     activation_matrix identity_kernel
       [(1%nat, repeat 1 10); (2%nat, repeat 0.5 10)] 2 0.075 0.15 false
     = Np.A2 rows /\
     Forall (fun row => Forall (fun v => 0 <= v <= 1) (tl row)) rows).
Proof.
  split.
  - pose proof pipeline_run_two_stems as Hrun.
    rewrite activation_matrix_rows in Hrun.
    eexists. split; [apply activation_matrix_rows |].
    exact (returned_confidences_in_range _ _ _ _ _ _ _ _ Hrun).
  - pose proof pipeline_run_two_stems_plain as Hrun.
    rewrite activation_matrix_rows in Hrun.
    eexists. split; [apply activation_matrix_rows |].
    exact (returned_confidences_in_range _ _ _ _ _ _ _ _ Hrun).
Defined.

(** ** When the call returns *)

Lemma array_rectangularb (rows : list (list R)) :
  rows <> [] ->
  Np.array rows
  = if rectangularb rows then ret (Np.A2 rows) else ret (Np.AO rows).
Proof.
  destruct rows as [| r rest]; [congruence |]. intros _.
  unfold Np.array, rectangularb, Np.ncols. cbn [hd forallb].
  now rewrite Nat.eqb_refl.
Qed.

Lemma rectangularb_spec (rows : list (list R)) :
  rectangularb rows = true ->
  Forall (fun r => length r = Np.ncols rows) rows.
Proof.
  unfold rectangularb. intros H. rewrite forallb_forall in H.
  apply Forall_forall. intros r Hr. now apply Nat.eqb_eq, H.
Qed.

(** X19.  With at least one stem and a window length of at least 2 the
    call returns exactly when all envelopes have one length, that length
    exceeds 9 and the cutoff lies strictly between 0 and 1; it then
    returns the index list in iteration order.  With envelopes of one
    length it otherwise raises [ValueError]; with envelopes of unequal
    lengths it raises [ValueError] or [IndexError], whatever the other
    arguments. *)
Theorem call_returns_or_raises
        (lowpass : R -> list R -> nat -> R) (stems : mtrack_stems)
        (win_len : nat) (lpf theta : R) (b : bool)
        (Hne : stems <> []) (Hw : (2 <= win_len)%nat) :
  create_activation_annotation lowpass stems win_len lpf theta b
  = (if rectangularb (envelope_rows stems win_len)
     then if (9 <? Np.ncols (envelope_rows stems win_len))%nat
             && (Rltb 0 lpf && Rltb lpf 1)
          then ret (activation_matrix lowpass stems win_len lpf theta b,
                    map fst stems)
          else raise ValueError
     else raise (ragged_exception (envelope_rows stems win_len))) /\
  (ragged_exception (envelope_rows stems win_len) = ValueError \/
   ragged_exception (envelope_rows stems win_len) = IndexError).
Proof.
  split; [| apply ragged_exception_kinds].
  pose proof (stems_loop_envelopes stems win_len Hw) as Hloop.
  assert (Hrate : rate_after stems None = Some Librosa.load_rate)
    by (destruct stems; [congruence | reflexivity]).
  rewrite Hrate in Hloop.
  pose proof (envelope_rows_nonempty stems win_len Hne) as Hrne.
  destruct (rectangularb (envelope_rows stems win_len)) eqn:Hrb.
  - apply rectangularb_spec in Hrb.
    set (F := Np.ncols (envelope_rows stems win_len)) in *.
    assert (HF : (1 <= F)%nat).
    { unfold F, envelope_rows. destruct stems as [| st stems]; [congruence |].
      unfold Np.ncols. cbn [map hd]. rewrite envelope_of_length.
      apply n_frames_of_pos. }
    rewrite (pipeline_after_loop lowpass stems win_len lpf theta b
               _ _ F Hloop Hrne HF Hrb).
    cbn [andb].
    destruct (Rltb 0 lpf && Rltb lpf 1).
    + rewrite andb_true_r.
      destruct (Nat.leb_spec F 9) as [H9 | H9];
        destruct (Nat.ltb_spec 9 F) as [H9' | H9']; try lia; reflexivity.
    + now rewrite andb_false_r.
  - unfold create_activation_annotation. cbv zeta.
    rewrite Hloop, bind_ret, array_rectangularb, Hrb, bind_ret by assumption.
    destruct (envelope_rows stems win_len) as [| r rest]; [congruence |].
    rewrite normalization_objects. reflexivity.
Qed.

Lemma call_returns_or_raises_witness :
  [(0%nat, [1; 2; 3])] <> [] /\ (2 <= 2)%nat /\
  create_activation_annotation identity_kernel [(0%nat, [1; 2; 3])] 2
                               0.075 0.15 false
  = raise ValueError.
Proof.
  split; [discriminate |]. split; [lia |].
  rewrite (proj1 (call_returns_or_raises identity_kernel
                    [(0%nat, [1; 2; 3])] 2 0.075 0.15 false
                    ltac:(discriminate) ltac:(lia))).
  unfold rectangularb, envelope_rows, Np.ncols. cbn [map hd snd forallb].
  rewrite Nat.eqb_refl. cbn [andb].
  rewrite envelope_of_length.
  replace (9 <? n_frames_of (length [1; 2; 3]) 2)%nat with false
    by (vm_compute; reflexivity).
  reflexivity.
Defined.

(** ** The order of the stems and the value of a stem's column *)

Lemma Rsum_perm (l l' : list R) : Permutation l l' -> Rsum l = Rsum l'.
Proof.
  induction 1; simpl; lra.
Qed.

Lemma E0_of_perm (rows rows' : list (list R)) (F : nat) :
  rows <> [] -> Forall (fun r => length r = F) rows ->
  Permutation rows rows' -> E0_of rows' = E0_of rows.
Proof.
  intros Hne Hrect Hperm.
  assert (Hne' : rows' <> []).
  { intros ->. apply Permutation_sym, Permutation_nil in Hperm. contradiction. }
  assert (Hrect' : Forall (fun r => length r = F) rows')
    by (eapply Permutation_Forall; eassumption).
  unfold E0_of.
  rewrite (ncols_rect rows F Hne Hrect), (ncols_rect rows' F Hne' Hrect').
  apply map_ext. intros j. apply Rsum_perm. unfold Np.column.
  now apply Permutation_map, Permutation_sym.
Qed.

Lemma stem_row_perm (lowpass : R -> list R -> nat -> R)
      (stems stems' : mtrack_stems) (win_len : nat) (lpf theta : R) (b : bool)
      (L : nat) (st : nat * list R) :
  stems <> [] -> Forall (fun st => length (snd st) = L) stems ->
  Permutation stems stems' ->
  stem_row lowpass stems' win_len lpf theta b st
  = stem_row lowpass stems win_len lpf theta b st.
Proof.
  intros Hne Hlen Hperm. unfold stem_row. cbv zeta.
  rewrite (E0_of_perm (envelope_rows stems win_len)
                      (envelope_rows stems' win_len)
                      (n_frames_of L win_len)).
  - now rewrite (Permutation_length Hperm).
  - now apply envelope_rows_nonempty.
  - now apply envelope_rows_rect.
  - unfold envelope_rows. now apply Permutation_map.
Qed.

(** X20.  The column of a stem does not depend on the order in which the
    stems are iterated: when the stem mapping is iterated in another
    order the call returns the same per-stem columns, arranged in the new
    order, and the index list in the new order. *)
Theorem stem_columns_independent_of_order
        (lowpass : R -> list R -> nat -> R) (stems stems' : mtrack_stems)
        (win_len : nat) (lpf theta : R) (b : bool) (L : nat)
        (Hperm : Permutation stems stems')
        (Hne : stems <> []) (Hw : (2 <= win_len)%nat)
        (Hlen : Forall (fun st => length (snd st) = L) stems)
        (H9 : (9 < n_frames_of L win_len)%nat) (Hlpf : 0 < lpf < 1) :
  create_activation_annotation lowpass stems win_len lpf theta b
  = ret (ordered_matrix
           (fun st f => nth f (stem_row lowpass stems win_len lpf theta b st) 0)
           stems win_len (n_frames_of L win_len),
         map fst stems) /\
  create_activation_annotation lowpass stems' win_len lpf theta b
  = ret (ordered_matrix
           (fun st f => nth f (stem_row lowpass stems win_len lpf theta b st) 0)
           stems' win_len (n_frames_of L win_len),
         map fst stems').
Proof.
  set (column := fun st f =>
                   nth f (stem_row lowpass stems win_len lpf theta b st) 0).
  set (matrix := fun order =>
                   ordered_matrix column order win_len (n_frames_of L win_len)).
  change (create_activation_annotation lowpass stems win_len lpf theta b
          = ret (matrix stems, map fst stems) /\
          create_activation_annotation lowpass stems' win_len lpf theta b
          = ret (matrix stems', map fst stems')).
  assert (Hne' : stems' <> []).
  { intros ->. apply Permutation_sym, Permutation_nil in Hperm. contradiction. }
  assert (Hlen' : Forall (fun st => length (snd st) = L) stems')
    by (eapply Permutation_Forall; eassumption).
  assert (Hform : forall order,
            order <> [] -> Forall (fun st => length (snd st) = L) order ->
            Permutation stems order ->
            create_activation_annotation lowpass order win_len lpf theta b
            = ret (matrix order, map fst order)).
  { intros order Ho Hlo Hpo.
    rewrite (pipeline_returns lowpass order win_len lpf theta b L) by assumption.
    unfold ret. do 2 f_equal.
    rewrite activation_matrix_rows, stem_rows_per_stem.
    destruct (stem_rows_rect lowpass order win_len lpf theta b
                (n_frames_of L win_len) Ho
                (envelope_rows_rect order win_len L Hlo)) as (_ & _ & ->).
    unfold matrix, ordered_matrix, column. f_equal. apply map_ext.
    intros f. f_equal.
    rewrite map_map. apply map_ext. intros st.
    now rewrite (stem_row_perm lowpass stems order win_len lpf theta b L st). }
  split; apply Hform; auto.
Qed.

Lemma stem_columns_independent_of_order_witness :
  Permutation [(1%nat, repeat 1 10); (2%nat, repeat 0.5 10)]
              [(2%nat, repeat 0.5 10); (1%nat, repeat 1 10)] /\
  map fst [(2%nat, repeat 0.5 10); (1%nat, repeat 1 10)] = [2%nat; 1%nat] /\
  exists M,
    create_activation_annotation identity_kernel
      [(2%nat, repeat 0.5 10); (1%nat, repeat 1 10)] 2 0.075 0.15 false
    = ret (M, [2%nat; 1%nat]).
Proof.
  assert (Hperm : Permutation [(1%nat, repeat 1 10); (2%nat, repeat 0.5 10)]
                              [(2%nat, repeat 0.5 10); (1%nat, repeat 1 10)])
    by apply perm_swap.
  split; [exact Hperm |]. split; [reflexivity |].
  destruct (stem_columns_independent_of_order identity_kernel
              [(1%nat, repeat 1 10); (2%nat, repeat 0.5 10)]
              [(2%nat, repeat 0.5 10); (1%nat, repeat 1 10)]
              2 0.075 0.15 false 10 Hperm) as [_ H2].
  - discriminate.
  - lia.
  - repeat constructor.
  - vm_compute. lia.
  - lra.
  - eexists. exact H2.
Defined.

(** ** The header of the output file *)

Example stem_labels :
  stem_label 0 = "S00"%string /\ stem_label 7 = "S07"%string /\
  stem_label 12 = "S12"%string /\ stem_label 123 = "S123"%string /\
  csv_header [1; 2; 10]%nat = "time,S01,S02,S10"%string /\
  csv_header [] = "time,"%string.
Proof. repeat split; reflexivity. Qed.

Lemma to_uint_nonnil (n : nat) : Nat.to_uint n <> Decimal.Nil.
Proof.
  intros H. pose proof (DecimalNat.Unsigned.to_of (Nat.to_uint n)) as Hn.
  rewrite DecimalNat.Unsigned.of_to in Hn. rewrite H in Hn. discriminate.
Qed.

Lemma of_uint_D0 (d : Decimal.uint) :
  Nat.of_uint (Decimal.D0 d) = Nat.of_uint d.
Proof. reflexivity. Qed.

Lemma format_02d_decode (n : nat) : int_of_digits (format_02d n) = Some n.
Proof.
  unfold int_of_digits, format_02d. cbv zeta.
  pose proof (to_uint_nonnil n) as Hnn.
  pose proof (DecimalString.NilEmpty.usu (Nat.to_uint n)) as Hu.
  destruct (String.length _ <? 2)%nat.
  - unfold DecimalString.NilZero.uint_of_string.
    cbn [DecimalString.NilEmpty.uint_of_string]. rewrite Hu.
    change (DecimalString.uint_of_char "0" (Some (Nat.to_uint n)))
      with (Some (Decimal.D0 (Nat.to_uint n))).
    cbn [option_map]. now rewrite of_uint_D0, DecimalNat.Unsigned.of_to.
  - destruct (DecimalString.NilEmpty.string_of_uint (Nat.to_uint n)) eqn:Hs.
    + destruct (Nat.to_uint n); try congruence; discriminate.
    + unfold DecimalString.NilZero.uint_of_string. rewrite Hu.
      cbn [option_map]. now rewrite DecimalNat.Unsigned.of_to.
Qed.

Lemma stem_label_inj (a b : nat) : stem_label a = stem_label b -> a = b.
Proof.
  unfold stem_label. intros H. injection H as H.
  pose proof (format_02d_decode a) as Ha. rewrite H in Ha.
  rewrite format_02d_decode in Ha. congruence.
Qed.

Lemma stem_label_length_small (n : nat) :
  (n < 100)%nat -> String.length (stem_label n) = 3%nat.
Proof.
  intros Hn.
  assert (Hall : forallb (fun n => (String.length (stem_label n) =? 3)%nat)
                         (seq 0 100) = true) by (vm_compute; reflexivity).
  rewrite forallb_forall in Hall. apply Nat.eqb_eq, Hall, in_seq. lia.
Qed.

Lemma NoDup_map_inj {A B : Type} (f : A -> B) (l : list A) :
  (forall a b, f a = f b -> a = b) -> NoDup l -> NoDup (map f l).
Proof.
  intros Hinj Hnd. induction Hnd as [| x l Hx _ IH]; simpl; constructor; auto.
  intros Hin. apply in_map_iff in Hin as [y [Hy Hin]].
  apply Hinj in Hy. subst y. contradiction.
Qed.

(** X21.  The label ["S%02d" % stem_idx] determines the stem index: the
    digits after the S read back as the index, so different stems get
    different labels and the labels of a stem mapping (whose keys are
    distinct) are distinct.  Below 100 a label has exactly three
    characters. *)
Theorem stem_labels_identify_stems (index_list : list nat) (a b : nat) :
  int_of_digits (format_02d a) = Some a /\
  (stem_label a = stem_label b -> a = b) /\
  (NoDup index_list -> NoDup (map stem_label index_list)) /\
  ((a < 100)%nat -> String.length (stem_label a) = 3%nat).
Proof.
  split; [apply format_02d_decode |].
  split; [apply stem_label_inj |].
  split; [apply NoDup_map_inj; apply stem_label_inj |].
  apply stem_label_length_small.
Qed.

Lemma stem_labels_identify_stems_witness :
  NoDup [1; 2; 10]%nat /\ (7 < 100)%nat /\
  NoDup (map stem_label [1; 2; 10]%nat) /\
  String.length (stem_label 7) = 3%nat.
Proof.
  assert (Hnd : NoDup [1; 2; 10]%nat).
  { repeat constructor; simpl; intuition lia. }
  split; [exact Hnd |]. split; [lia |].
  destruct (stem_labels_identify_stems [1; 2; 10]%nat 7 7)
    as (_ & _ & H3 & H4).
  split; [exact (H3 Hnd) | apply H4; lia].
Defined.

Lemma count_char_append (c : Ascii.ascii) (s t : String.string) :
  count_char c (String.append s t) = (count_char c s + count_char c t)%nat.
Proof.
  induction s as [| a s IH]; simpl; [reflexivity |]. rewrite IH. lia.
Qed.

Lemma count_comma_digits (d : Decimal.uint) :
  count_char ","%char (DecimalString.NilEmpty.string_of_uint d) = 0%nat.
Proof. induction d; simpl; auto. Qed.

Lemma count_comma_label (n : nat) : count_char ","%char (stem_label n) = 0%nat.
Proof.
  unfold stem_label, format_02d. cbv zeta.
  destruct (_ <? _)%nat; simpl; apply count_comma_digits.
Qed.

Lemma count_comma_concat (ls : list String.string) :
  Forall (fun s => count_char ","%char s = 0%nat) ls ->
  count_char ","%char (String.concat ","%string ls) = (length ls - 1)%nat.
Proof.
  induction 1 as [| s ls Hs Hls IH]; [reflexivity |].
  destruct ls as [| t ls].
  - simpl. assumption.
  - change (String.concat ","%string (s :: t :: ls))
      with (String.append s (String.append ","%string
                               (String.concat ","%string (t :: ls)))).
    rewrite !count_char_append, Hs, IH. simpl. lia.
Qed.

Lemma csv_header_commas (index_list : list nat) :
  count_char ","%char (csv_header index_list)
  = Nat.max 1 (length index_list).
Proof.
  unfold csv_header. rewrite count_char_append, count_comma_concat.
  - rewrite length_map.
    replace (count_char ","%char "time,"%string) with 1%nat by reflexivity.
    lia.
  - apply Forall_forall. intros s Hs.
    apply in_map_iff in Hs as [n [<- _]]. apply count_comma_label.
Qed.

Lemma pipeline_returns_two_axes (lowpass : R -> list R -> nat -> R)
      (stems : mtrack_stems) (win_len : nat) (lpf theta : R) (b : bool)
      (M : Np.ndarray) (idx : list nat) :
  create_activation_annotation lowpass stems win_len lpf theta b = ret (M, idx) ->
  exists rows, M = Np.A2 rows.
Proof.
  intros Hrun. apply pipeline_result_rows in Hrun as (F & _ & _ & _ & _ & _ & ->).
  eexists. reflexivity.
Qed.

(** X22.  The header has one comma-separated field per column of the
    matrix it is written with: when the call returns a matrix and an
    index list, [write_activations_to_csv] stores that matrix under the
    header [time,S..,S..], whose number of commas plus one is the length
    of every row.  In general the header has as many commas as there are
    stems, and one for an empty index list. *)
Theorem header_has_one_field_per_column
        (lowpass : R -> list R -> nat -> R) (stems : mtrack_stems)
        (win_len : nat) (lpf theta : R) (b : bool)
        (rows : list (list R)) (idx : list nat)
        (mtrack : Medleydb.MultiTrack) (dbg : bool) (fs : filesystem)
        (Hrun : create_activation_annotation lowpass stems win_len lpf theta b
                = ret (Np.A2 rows, idx)) :
  write_activations_to_csv mtrack (Np.A2 rows) idx dbg fs
  = (ret tt,
     fs_write (Medleydb.activation_conf_fpath mtrack)
              (Table (csv_header idx) (Np.A2 rows)) fs) /\
  Forall (fun row => length row = S (count_char ","%char (csv_header idx)))
         rows /\
  (forall index_list,
      count_char ","%char (csv_header index_list)
      = Nat.max 1 (length index_list)).
Proof.
  split; [reflexivity |]. split; [| apply csv_header_commas].
  rewrite csv_header_commas.
  apply pipeline_result_rows in Hrun
    as (F & H9 & Hw & Hne & Hrect & -> & HM).
  injection HM as ->.
  destruct (stem_rows_rect lowpass stems win_len lpf theta b F Hne Hrect)
    as (_ & Hlen & _).
  apply Forall_forall. intros r Hr.
  apply in_map_iff in Hr as [f [<- _]].
  cbn [length]. rewrite !length_map, Hlen.
  destruct stems; [congruence | simpl; lia].
Qed.

Lemma header_has_one_field_per_column_witness :
  exists rows,
    activation_matrix identity_kernel
      [(1%nat, repeat 1 10); (2%nat, repeat 0.5 10)] 2 0.075 0.15 true
    = Np.A2 rows /\
    csv_header [1; 2]%nat = "time,S01,S02"%string /\
    Forall (fun row =>
              length row = S (count_char ","%char (csv_header [1; 2]%nat)))
           rows.
Proof.
  pose proof pipeline_run_two_stems as Hrun.
  rewrite activation_matrix_rows in Hrun.
  eexists. split; [apply activation_matrix_rows |].
  split; [reflexivity |].
  exact (proj1 (proj2 (header_has_one_field_per_column
                         _ _ _ _ _ _ _ _
                         (Medleydb.Build_MultiTrack [] "a.csv"%string)
                         false (fun _ => None) Hrun))).
Defined.

(** ** The entry point *)

Lemma fs_write_same (fname : String.string) (c : file) (fs : filesystem) :
  fs_write fname c fs fname = Some c.
Proof. unfold fs_write. now rewrite String.eqb_refl. Qed.

Lemma fs_write_other (fname p : String.string) (c : file) (fs : filesystem) :
  p <> fname -> fs_write fname c fs p = fs p.
Proof.
  intros Hne. unfold fs_write.
  destruct (String.eqb_spec p fname); [contradiction | reflexivity].
Qed.

Lemma os_path_exists_false (fs : filesystem) (p : String.string) :
  os_path_exists fs p = false -> fs p = None.
Proof. unfold os_path_exists. destruct (fs p); [discriminate | reflexivity]. Qed.

(** The five ways a call of [main] can go. *)
Lemma main_cases (lowpass : R -> list R -> nat -> R)
      (MT : String.string -> result Medleydb.MultiTrack)
      (args : Namespace) (fs : filesystem) :
  (exists e, MT (track_id args) = raise e /\
             main lowpass MT args fs = (raise e, fs)) \/
  (exists mtrack, MT (track_id args) = ret mtrack /\
     let fpath := Medleydb.activation_conf_fpath mtrack in
     (fs fpath <> None /\ main lowpass MT args fs = (ret (Some true), fs)) \/
     (fs fpath = None /\
      ((exists e, main lowpass MT args fs = (raise e, fs)) \/
       (write_output args = false /\
        main lowpass MT args fs = (ret None, fs)) \/
       (write_output args = true /\
        exists rows idx,
          create_activation_annotation lowpass (Medleydb.stems mtrack)
                                       4096 0.075 0.15 false
          = ret (Np.A2 rows, idx) /\
          main lowpass MT args fs
          = (ret None,
             fs_write fpath (Table (csv_header idx) (Np.A2 rows)) fs))))).
Proof.
  unfold main.
  destruct (MT (track_id args)) as [e | mtrack] eqn:HMT.
  { left. exists e. auto. }
  right. exists mtrack. split; [reflexivity |]. cbv zeta.
  destruct (os_path_exists fs (Medleydb.activation_conf_fpath mtrack)) eqn:Hex.
  { left. split; [| reflexivity].
    unfold os_path_exists in Hex.
    destruct (fs (Medleydb.activation_conf_fpath mtrack)); congruence. }
  right. split; [now apply os_path_exists_false |].
  destruct (create_activation_annotation lowpass (Medleydb.stems mtrack)
                                         4096 0.075 0.15 false)
    as [e | [M idx]] eqn:Hrun.
  { left. exists e. reflexivity. }
  right. destruct (write_output args).
  - right. split; [reflexivity |].
    destruct (pipeline_returns_two_axes _ _ _ _ _ _ _ _ Hrun) as [rows ->].
    exists rows, idx. split; reflexivity.
  - left. split; reflexivity.
Qed.

(** X23.  [main] changes at most one file: a path whose content differs
    after the call is the [activation_conf_fpath] of the track, it did
    not exist before, and [write_output] was set.  Existing files are
    never overwritten, and without [write_output] nothing is written. *)
Theorem main_writes_only_a_missing_annotation
        (lowpass : R -> list R -> nat -> R)
        (MT : String.string -> result Medleydb.MultiTrack)
        (args : Namespace) (fs : filesystem) (p : String.string)
        (Hchanged : snd (main lowpass MT args fs) p <> fs p) :
  write_output args = true /\ fs p = None /\
  exists mtrack,
    MT (track_id args) = ret mtrack /\
    p = Medleydb.activation_conf_fpath mtrack.
Proof.
  destruct (main_cases lowpass MT args fs)
    as [[e [_ Hm]] | [mtrack [HMT [[_ Hm] | [Hnone [[e Hm] | [[_ Hm] | [Hw [rows [idx [_ Hm]]]]]]]]]]];
    rewrite Hm in Hchanged; cbn [snd] in Hchanged; try congruence.
  destruct (String.eqb_spec p (Medleydb.activation_conf_fpath mtrack))
    as [-> | Hne].
  - split; [assumption |]. split; [assumption |]. now exists mtrack.
  - rewrite fs_write_other in Hchanged by assumption. congruence.
Qed.

(** X24.  When [main] raises, no file has been written: an exception of
    the track lookup or of the pipeline leaves the file system as it
    was. *)
Theorem main_raising_writes_nothing
        (lowpass : R -> list R -> nat -> R)
        (MT : String.string -> result Medleydb.MultiTrack)
        (args : Namespace) (fs : filesystem) (e : exn)
        (Hraise : fst (main lowpass MT args fs) = raise e) :
  snd (main lowpass MT args fs) = fs.
Proof.
  destruct (main_cases lowpass MT args fs)
    as [[e' [_ Hm]] | [mtrack [HMT [[_ Hm] | [Hnone [[e' Hm] | [[_ Hm] | [Hw [rows [idx [_ Hm]]]]]]]]]]];
    rewrite Hm in *; cbn [fst snd] in *; try reflexivity; discriminate.
Qed.

(** X25.  With [write_output] set, a call of [main] that does not raise
    leaves the annotation file in place, and a second call with the same
    arguments returns [True] at once and changes nothing. *)
Theorem main_second_run_skips
        (lowpass : R -> list R -> nat -> R)
        (MT : String.string -> result Medleydb.MultiTrack)
        (args : Namespace) (fs : filesystem) (v : option bool)
        (Hw : write_output args = true)
        (Hok : fst (main lowpass MT args fs) = ret v) :
  (exists mtrack,
     MT (track_id args) = ret mtrack /\
     snd (main lowpass MT args fs) (Medleydb.activation_conf_fpath mtrack)
     <> None) /\
  main lowpass MT args (snd (main lowpass MT args fs))
  = (ret (Some true), snd (main lowpass MT args fs)).
Proof.
  destruct (main_cases lowpass MT args fs)
    as [[e' [_ Hm]] | [mtrack [HMT [[Hex Hm] | [Hnone [[e' Hm] | [[Hw' Hm] | [_ [rows [idx [_ Hm]]]]]]]]]]];
    rewrite Hm in *; cbn [fst snd] in *; try discriminate; try congruence.
  - split; [now exists mtrack |]. exact Hm.
  - assert (Hex : fs_write (Medleydb.activation_conf_fpath mtrack)
                           (Table (csv_header idx) (Np.A2 rows)) fs
                           (Medleydb.activation_conf_fpath mtrack) <> None)
      by (rewrite fs_write_same; discriminate).
    split; [now exists mtrack |].
    assert (Hexb : os_path_exists
                     (fs_write (Medleydb.activation_conf_fpath mtrack)
                               (Table (csv_header idx) (Np.A2 rows)) fs)
                     (Medleydb.activation_conf_fpath mtrack) = true)
      by (unfold os_path_exists; now rewrite fs_write_same).
    unfold main. rewrite HMT. unfold ret at 1. cbv iota beta.
    now rewrite Hexb.
Qed.

Lemma example_track_run :
  create_activation_annotation identity_kernel (Medleydb.stems example_track)
                               4096 0.075 0.15 false
  = ret (activation_matrix identity_kernel (Medleydb.stems example_track)
                           4096 0.075 0.15 false, [1%nat]).
Proof.
  apply (pipeline_returns identity_kernel (Medleydb.stems example_track)
                          4096 0.075 0.15 false (200 * 100)).
  - discriminate.
  - lia.
  - constructor; [cbn [snd]; apply repeat_length | constructor].
  - vm_compute. lia.
  - lra.
Qed.

Lemma example_main_run :
  main identity_kernel example_MultiTrack example_args no_files
  = (ret None,
     fs_write "LizNelson_Rainfall_ACTIVATION_CONF.lab"%string
              (Table (csv_header [1%nat])
                     (activation_matrix identity_kernel
                        (Medleydb.stems example_track) 4096 0.075 0.15 false))
              no_files).
Proof.
  unfold main, example_MultiTrack. unfold ret at 1. cbv iota beta.
  change (os_path_exists no_files
            (Medleydb.activation_conf_fpath example_track)) with false.
  cbv iota. rewrite example_track_run. unfold ret at 1. cbv iota beta.
  change (write_output example_args) with true. cbv iota.
  rewrite activation_matrix_rows. reflexivity.
Qed.

Lemma main_writes_only_a_missing_annotation_witness :
  snd (main identity_kernel example_MultiTrack example_args no_files)
      "LizNelson_Rainfall_ACTIVATION_CONF.lab"%string
  <> no_files "LizNelson_Rainfall_ACTIVATION_CONF.lab"%string /\
  write_output example_args = true /\
  no_files "LizNelson_Rainfall_ACTIVATION_CONF.lab"%string = None /\
  exists mtrack,
    example_MultiTrack (track_id example_args) = ret mtrack /\
    "LizNelson_Rainfall_ACTIVATION_CONF.lab"%string
    = Medleydb.activation_conf_fpath mtrack.
Proof.
  assert (Hchanged :
    snd (main identity_kernel example_MultiTrack example_args no_files)
        "LizNelson_Rainfall_ACTIVATION_CONF.lab"%string
    <> no_files "LizNelson_Rainfall_ACTIVATION_CONF.lab"%string).
  { rewrite example_main_run. cbn [snd]. rewrite fs_write_same. discriminate. }
  split; [exact Hchanged |].
  exact (main_writes_only_a_missing_annotation
           identity_kernel example_MultiTrack example_args no_files _ Hchanged).
Defined.

Lemma main_second_run_skips_witness :
  write_output example_args = true /\
  fst (main identity_kernel example_MultiTrack example_args no_files)
  = ret None /\
  main identity_kernel example_MultiTrack example_args
       (snd (main identity_kernel example_MultiTrack example_args no_files))
  = (ret (Some true),
     snd (main identity_kernel example_MultiTrack example_args no_files)).
Proof.
  assert (Hok :
    fst (main identity_kernel example_MultiTrack example_args no_files)
    = ret None) by (rewrite example_main_run; reflexivity).
  split; [reflexivity |]. split; [exact Hok |].
  exact (proj2 (main_second_run_skips
                  identity_kernel example_MultiTrack example_args no_files
                  None eq_refl Hok)).
Defined.

Lemma main_raising_writes_nothing_witness :
  fst (main identity_kernel
            (fun _ => ret (Medleydb.Build_MultiTrack [] "none.lab"%string))
            example_args no_files)
  = raise IndexError /\
  snd (main identity_kernel
            (fun _ => ret (Medleydb.Build_MultiTrack [] "none.lab"%string))
            example_args no_files)
  = no_files.
Proof.
  assert (Hraise :
    fst (main identity_kernel
              (fun _ => ret (Medleydb.Build_MultiTrack [] "none.lab"%string))
              example_args no_files)
    = raise IndexError).
  { unfold main. unfold ret at 1. cbv iota beta.
    change (os_path_exists no_files
              (Medleydb.activation_conf_fpath
                 (Medleydb.Build_MultiTrack [] "none.lab"%string)))
      with false.
    cbv iota. cbn [Medleydb.stems]. rewrite pipeline_no_stems.
    rewrite (Rltb_true 0 0.075), (Rltb_true 0.075 1) by lra. reflexivity. }
  split; [exact Hraise |].
  exact (main_raising_writes_nothing
           identity_kernel
           (fun _ => ret (Medleydb.Build_MultiTrack [] "none.lab"%string))
           example_args no_files IndexError Hraise).
Defined.

(** ** Which samples a frame sees *)

Lemma padded_wave_decompose (wave : list R) (win_len : nat) :
  (1 <= win_len)%nat ->
  exists z,
    padded_wave wave win_len
    = repeat 0 (win_len - win_len / 2) ++ wave ++ z.
Proof.
  intros Hw. unfold padded_wave, Librosa.fix_length. cbv zeta.
  rewrite pad_before_length.
  set (n := (win_len - win_len / 2 + length wave)%nat).
  pose proof (ceil_div_ge n win_len Hw) as Hge.
  destruct (Nat.ltb_spec (win_len * ceil_div n win_len) n); [lia |].
  unfold Np.pad_before.
  destruct (_ <? _)%nat; eexists.
  - rewrite <- app_assoc. reflexivity.
  - rewrite app_nil_r. reflexivity.
Qed.

Lemma firstn_app_prefix (pre w1 w2 z1 z2 : list R) (k E : nat) :
  firstn k w1 = firstn k w2 -> (k <= length w1)%nat -> (k <= length w2)%nat ->
  (E <= length pre + k)%nat ->
  firstn E (pre ++ w1 ++ z1) = firstn E (pre ++ w2 ++ z2).
Proof.
  intros Hk H1 H2 HE.
  rewrite !firstn_app. f_equal.
  replace (E - length pre - length w1)%nat with 0%nat by lia.
  replace (E - length pre - length w2)%nat with 0%nat by lia.
  cbn [firstn]. rewrite !app_nil_r.
  replace (E - length pre)%nat with (Nat.min (E - length pre) k) by lia.
  rewrite <- !firstn_firstn. now rewrite Hk.
Qed.

Lemma frame_agree (w1 w2 : list R) (win_len i k : nat) :
  (1 <= win_len)%nat ->
  firstn k w1 = firstn k w2 -> (k <= length w1)%nat -> (k <= length w2)%nat ->
  (i * (win_len / 2) + win_len <= win_len - win_len / 2 + k)%nat ->
  firstn win_len (skipn (i * (win_len / 2)) (padded_wave w1 win_len))
  = firstn win_len (skipn (i * (win_len / 2)) (padded_wave w2 win_len)).
Proof.
  intros Hw Hk H1 H2 HE.
  destruct (padded_wave_decompose w1 win_len Hw) as [z1 ->].
  destruct (padded_wave_decompose w2 win_len Hw) as [z2 ->].
  rewrite !firstn_skipn_comm. f_equal.
  apply firstn_app_prefix with (k := k); auto.
  rewrite repeat_length. lia.
Qed.

Lemma frame_index_in_range (wave : list R) (win_len i k : nat) :
  (2 <= win_len)%nat -> (k <= length wave)%nat ->
  (i * (win_len / 2) + win_len <= win_len - win_len / 2 + k)%nat ->
  (i < n_frames_of (length wave) win_len)%nat.
Proof.
  intros Hw Hk HE. pose proof (half_lt win_len Hw) as [Hh1 Hh2].
  unfold n_frames_of. cbv zeta.
  set (h := (win_len / 2)%nat) in *.
  set (n := (win_len - h + length wave)%nat).
  pose proof (ceil_div_ge n win_len ltac:(lia)) as Hge.
  set (P := (win_len * ceil_div n win_len)%nat) in *.
  clearbody h P.
  assert (Hi : (h * i <= P - win_len)%nat) by (unfold n in *; nia).
  apply Nat.div_le_lower_bound in Hi; lia.
Qed.

Lemma nth_envelope_of (wave : list R) (win_len : nat) (win : list R) (i : nat) :
  (i < n_frames_of (length wave) win_len)%nat ->
  nth i (envelope_of wave win_len win) 0
  = frame_envelope win
      (firstn win_len
         (skipn (i * (win_len / 2)) (padded_wave wave win_len))).
Proof.
  intros Hi. unfold envelope_of.
  rewrite nth_indep with (d' := (fun i => frame_envelope win
      (firstn win_len
         (skipn (i * (win_len / 2)) (padded_wave wave win_len)))) 0%nat)
    by (now rewrite length_map, length_seq).
  rewrite (map_nth (fun i => frame_envelope win
      (firstn win_len
         (skipn (i * (win_len / 2)) (padded_wave wave win_len))))).
  now rewrite seq_nth.
Qed.

(** X26.  A frame does not look ahead: when two waveforms agree on their
    first [k] samples, the envelope values of every frame that ends
    within these samples (frame [i] ends [i * hop_len + win_len] samples
    into the padded waveform, which starts with [win_len - hop_len]
    zeros) are the same. *)
Theorem envelope_value_ignores_later_samples
        (w1 w2 win : list R) (win_len i k : nat)
        (Hw : (2 <= win_len)%nat) (Hwin : length win = win_len)
        (Hagree : firstn k w1 = firstn k w2)
        (Hk1 : (k <= length w1)%nat) (Hk2 : (k <= length w2)%nat)
        (Hend : (i * (win_len / 2) + win_len
                 <= win_len - win_len / 2 + k)%nat) :
  exists env1 env2,
    track_activation w1 win_len win = ret env1 /\
    track_activation w2 win_len win = ret env2 /\
    (i < length env1)%nat /\ (i < length env2)%nat /\
    nth i env1 0 = nth i env2 0.
Proof.
  exists (envelope_of w1 win_len win), (envelope_of w2 win_len win).
  pose proof (frame_index_in_range w1 win_len i k Hw Hk1 Hend) as Hi1.
  pose proof (frame_index_in_range w2 win_len i k Hw Hk2 Hend) as Hi2.
  split; [now apply track_activation_ok |].
  split; [now apply track_activation_ok |].
  rewrite !envelope_of_length. split; [assumption |]. split; [assumption |].
  rewrite !nth_envelope_of by assumption. f_equal.
  apply frame_agree with (k := k); auto. lia.
Qed.

Lemma envelope_value_ignores_later_samples_witness :
  firstn 4 [1; 2; 3; 4; 5; 6] = firstn 4 [1; 2; 3; 4; -7; 8; 9; 10] /\
  (1 * (4 / 2) + 4 <= 4 - 4 / 2 + 4)%nat /\
  exists env1 env2,
    track_activation [1; 2; 3; 4; 5; 6] 4 (hanning 4) = ret env1 /\
    track_activation [1; 2; 3; 4; -7; 8; 9; 10] 4 (hanning 4) = ret env2 /\
    (1 < length env1)%nat /\ (1 < length env2)%nat /\
    nth 1 env1 0 = nth 1 env2 0.
Proof.
  split; [reflexivity |]. split; [vm_compute; lia |].
  apply (envelope_value_ignores_later_samples
           [1; 2; 3; 4; 5; 6] [1; 2; 3; 4; -7; 8; 9; 10] (hanning 4) 4 1 4).
  - lia.
  - apply hanning_length.
  - reflexivity.
  - simpl. lia.
  - simpl. lia.
  - vm_compute. lia.
Defined.

(** X27.  The frames reach [(n - 1) * hop_len + win_len] samples into the
    padded waveform, [n] being the number of frames: two waveforms of one
    length that agree up to there have the same envelope.  With an odd
    window length this can stop short of the last sample, which is then
    ignored. *)
Theorem envelope_ignores_samples_past_last_frame
        (w1 w2 win : list R) (win_len k : nat)
        (Hw : (2 <= win_len)%nat) (Hwin : length win = win_len)
        (Hlen : length w1 = length w2)
        (Hk : (k <= length w1)%nat)
        (Hagree : firstn k w1 = firstn k w2)
        (Hreach : ((n_frames_of (length w1) win_len - 1) * (win_len / 2)
                   + win_len <= win_len - win_len / 2 + k)%nat) :
  track_activation w1 win_len win = track_activation w2 win_len win.
Proof.
  rewrite !track_activation_ok by assumption. f_equal.
  unfold envelope_of. rewrite <- Hlen.
  apply map_ext_in. intros i Hi. apply in_seq in Hi. f_equal.
  apply frame_agree with (k := k); auto; try lia.
  assert (Hle : (i * (win_len / 2)
                 <= (n_frames_of (length w1) win_len - 1) * (win_len / 2))%nat)
    by (apply Nat.mul_le_mono_r; lia).
  lia.
Qed.

Lemma envelope_ignores_samples_past_last_frame_witness :
  firstn 6 [1; 2; 3; 4; 5; 6; 7] = firstn 6 [1; 2; 3; 4; 5; 6; 0] /\
  ((n_frames_of 7 5 - 1) * (5 / 2) + 5 <= 5 - 5 / 2 + 6)%nat /\
  track_activation [1; 2; 3; 4; 5; 6; 7] 5 (hanning 5)
  = track_activation [1; 2; 3; 4; 5; 6; 0] 5 (hanning 5).
Proof.
  split; [reflexivity |]. split; [vm_compute; lia |].
  apply (envelope_ignores_samples_past_last_frame
           [1; 2; 3; 4; 5; 6; 7] [1; 2; 3; 4; 5; 6; 0] (hanning 5) 5 6).
  - lia.
  - apply hanning_length.
  - reflexivity.
  - simpl. lia.
  - reflexivity.
  - vm_compute. lia.
Defined.

(** ** Normalization and a common gain *)

Lemma fold_left_Rmax_scale (k : R) (l : list R) (a : R) :
  0 <= k ->
  fold_left Rmax (map (Rmult k) l) (k * a) = k * fold_left Rmax l a.
Proof.
  intros Hk. revert a. induction l as [| x l IH]; intros a; simpl;
    [reflexivity |].
  rewrite RmaxRmult by assumption. apply IH.
Qed.

Lemma max_of_scale (k : R) (l : list R) :
  0 <= k -> max_of (map (Rmult k) l) = k * max_of l.
Proof.
  intros Hk. destruct l as [| a l]; unfold max_of; simpl; [ring |].
  now apply fold_left_Rmax_scale.
Qed.

Lemma E0_of_scale (k : R) (rows : list (list R)) :
  E0_of (map (map (Rmult k)) rows) = map (Rmult k) (E0_of rows).
Proof.
  unfold E0_of. rewrite ncols_map by (intros r; apply length_map).
  rewrite map_map. apply map_ext. intros j.
  rewrite <- Rsum_scale. f_equal. unfold Np.column. rewrite !map_map.
  apply map_ext. intros r.
  destruct (Nat.lt_ge_cases j (length r)) as [Hj | Hj].
  - rewrite nth_indep with (d' := k * 0) by (now rewrite length_map).
    apply map_nth.
  - rewrite !nth_overflow by (rewrite ?length_map; lia). ring.
Qed.

Lemma zip_gate_scale (k m n : R) (r E : list R) :
  k <> 0 -> m <> 0 ->
  Forall (fun e => e < 0.01 <-> k * e < 0.01) E ->
  zip_with (fun x ej => if Rltb ej 0.01 then 0 else x)
           (map (fun h => n * h / (k * m)) (map (Rmult k) r))
           (map (Rmult k) E)
  = zip_with (fun x ej => if Rltb ej 0.01 then 0 else x)
             (map (fun h => n * h / m) r) E.
Proof.
  intros Hk Hm HE. revert r. induction HE as [| e E He _ IH]; intros [| x r];
    simpl; try reflexivity.
  rewrite IH. f_equal.
  unfold Rltb. destruct (Rlt_dec (k * e) 0.01), (Rlt_dec e 0.01);
    try reflexivity; try tauto.
  field. auto.
Qed.

(** X28.  Normalization removes a gain common to all stems, but the gate
    is absolute: multiplying the envelope matrix by [k > 0] leaves the
    normalized matrix unchanged provided that the same frames fall below
    0.01 before and after. *)
Theorem normalization_removes_common_gain
        (n_stems : nat) (rows : list (list R)) (k : R)
        (Hk : 0 < k) (Hcols : (1 <= Np.ncols rows)%nat)
        (Hmax : max_of (E0_of rows) <> 0)
        (Hgate : Forall (fun e => e < 0.01 <-> k * e < 0.01) (E0_of rows)) :
  normalization n_stems (Np.A2 (map (map (Rmult k)) rows))
  = normalization n_stems (Np.A2 rows).
Proof.
  rewrite !normalization_rows
    by (rewrite ?ncols_map by (intros r; apply length_map); assumption).
  unfold ret. do 2 f_equal. unfold normalized_rows.
  rewrite map_map. apply map_ext. intros r.
  rewrite E0_of_scale, max_of_scale by lra.
  apply zip_gate_scale; auto. lra.
Qed.

Lemma normalization_removes_common_gain_witness :
  0 < 4 /\
  Forall (fun e => e < 0.01 <-> 4 * e < 0.01) (E0_of [[1; 0.5]; [3; 2]]) /\
  normalization 2 (Np.A2 (map (map (Rmult 4)) [[1; 0.5]; [3; 2]]))
  = normalization 2 (Np.A2 [[1; 0.5]; [3; 2]]).
Proof.
  assert (Hgate : Forall (fun e => e < 0.01 <-> 4 * e < 0.01)
                         (E0_of [[1; 0.5]; [3; 2]])).
  { unfold E0_of, Np.ncols, Np.column, Rsum.
    cbn [hd length seq map nth fold_right].
    repeat constructor; intros H; lra. }
  split; [lra |]. split; [exact Hgate |].
  apply (normalization_removes_common_gain 2 [[1; 0.5]; [3; 2]] 4).
  - lra.
  - unfold Np.ncols. cbn [hd length]. lia.
  - assert (H : 1 + (3 + 0) <= max_of (E0_of [[1; 0.5]; [3; 2]]))
      by (apply max_of_upper; left; reflexivity).
    lra.
  - exact Hgate.
Defined.
